(** * Reserves calculator: the volumetric formula and its sensitivity views

    A shallow embedding of [advanced_reserves_calculator.py].

    The script is a straight-line Streamlit page.  Its numbers are Python
    [int]s (the two [number_input] widgets created with integer bounds),
    Python [float]s (the sliders and the oil-FVF input) and [numpy.float64]
    scalars (everything that comes out of [np.linspace]).  The embedding
    keeps the three kinds apart, because they decide how an operation is
    carried out: two ints multiply exactly, an int meeting a float is
    converted first, a Python division by zero raises while a numpy division
    does not.

    The floating-point operations themselves are a parameter (class [Arith]).
    Two instances are given: [binary64], IEEE 754 double precision as Python
    and numpy compute it, and [exact], the rationals.  Statements about which
    expression is evaluated hold for every instance.  Statements about the
    order of the computed values are proved twice: strictly for [exact], and
    for [binary64] as far as rounding to nearest leaves them true (rounding
    is monotone, so an order survives, but two values can round to the same
    double). *)

From Stdlib Require Import ZArith QArith Lqa Lia List Bool String Ascii.
From Stdlib Require Import Floats DecimalString DecimalNat.
Import ListNotations.

Set Warnings "-inexact-float".

(** ** Exceptions *)

Inductive pyerr : Set :=
| ZeroDivisionError
| OverflowError
| ValueError.

Inductive res (A : Type) : Type :=
| Ok (a : A)
| Raise (e : pyerr).

Arguments Ok {A} a.
Arguments Raise {A} e.

Definition bind {A B : Type} (m : res A) (k : A -> res B) : res B :=
  match m with
  | Ok a => k a
  | Raise e => Raise e
  end.

Declare Scope py_scope.
Delimit Scope py_scope with py.

Notation "x <- m ;; k" := (bind m (fun x => k))
  (at level 61, m at next level, right associativity) : py_scope.

Definition fmap {A B : Type} (f : A -> B) (m : res A) : res B :=
  bind m (fun a => Ok (f a)).

Fixpoint mapM {A B : Type} (f : A -> res B) (l : list A) : res (list B) :=
  match l with
  | [] => Ok []
  | a :: l' => bind (f a) (fun b => bind (mapM f l') (fun bs => Ok (b :: bs)))
  end.

(** ** Floating-point arithmetic as an interface *)

Class Arith (F : Type) : Type := {
  (** [int.__float__]: defined when the rounded value is finite. *)
  int_fits : Z -> bool;
  of_int : Z -> F;
  (** The float literal written [m/d] in decimal, [d] a power of ten. *)
  of_decimal : Z -> positive -> F;
  fadd : F -> F -> F;
  fsub : F -> F -> F;
  fmul : F -> F -> F;
  fdiv : F -> F -> F;
  is_zero : F -> bool;
  fltb : F -> F -> bool
}.

(** *** IEEE 754 binary64

    Rocq's primitive floats, with round-to-nearest-even.  An int converts by
    rounding once; a decimal literal [m/d] whose [m] and [d] are both exact
    doubles is their correctly rounded quotient, the double Python parses
    (checked for the literals of the script in [binary64_literals]). *)

Definition Z2float (z : Z) : float :=
  SF2Prim (binary_normalize prec emax z 0 false).

(** Integers from [2^1024 - 2^970] on round to [2^1024]: CPython raises
    [OverflowError: int too large to convert to float]. *)
Definition float_max_int : Z := 2 ^ 1024 - 2 ^ 970.

#[export] Instance binary64 : Arith float := {|
  int_fits z := (Z.abs z <? float_max_int)%Z;
  of_int := Z2float;
  of_decimal m d := PrimFloat.div (Z2float m) (Z2float (Zpos d));
  fadd := PrimFloat.add;
  fsub := PrimFloat.sub;
  fmul := PrimFloat.mul;
  fdiv := PrimFloat.div;
  is_zero x := PrimFloat.eqb x PrimFloat.zero;
  fltb := PrimFloat.ltb
|}.

(** *** Exact rational arithmetic *)

Definition Qltb (x y : Q) : bool := negb (Qle_bool y x).

#[export] Instance exact : Arith Q := {|
  int_fits _ := true;
  of_int := inject_Z;
  of_decimal m d := Qmake m d;
  fadd := Qplus;
  fsub := Qminus;
  fmul := Qmult;
  fdiv := Qdiv;
  is_zero x := Qeq_bool x 0;
  fltb := Qltb
|}.

(** ** Python and numpy numbers *)

Section Numbers.

Context {F : Type} {AF : Arith F}.

Inductive num : Type :=
| PyInt (z : Z)
| PyFloat (x : F)
| NpFloat (x : F).

Definition to_float (n : num) : res F :=
  match n with
  | PyInt z => if int_fits z then Ok (of_int z) else Raise OverflowError
  | PyFloat x => Ok x
  | NpFloat x => Ok x
  end.

(** A numpy scalar on either side hands the operation to numpy. *)
Definition is_np (n : num) : bool :=
  match n with
  | NpFloat _ => true
  | _ => false
  end.

Definition float_of (a b : num) (x : F) : num :=
  if is_np a || is_np b then NpFloat x else PyFloat x.

Definition arith (zop : Z -> Z -> Z) (fop : F -> F -> F) (a b : num)
  : res num :=
  match a, b with
  | PyInt x, PyInt y => Ok (PyInt (zop x y))
  | _, _ =>
      bind (to_float a) (fun x =>
      bind (to_float b) (fun y =>
      Ok (float_of a b (fop x y))))
  end.

Definition add : num -> num -> res num := arith Z.add fadd.
Definition sub : num -> num -> res num := arith Z.sub fsub.
Definition mul : num -> num -> res num := arith Z.mul fmul.

(** True division [/].  Between Python numbers a zero divisor raises;
    numpy returns the IEEE quotient (an infinity or a NaN, with a
    warning).  Two ints are converted first; CPython rounds their exact
    quotient once, which is the same value while both are below [2^53].
    The script never divides an int by an int. *)
Definition truediv (a b : num) : res num :=
  match a, b with
  | PyInt _, PyInt 0 => Raise ZeroDivisionError
  | _, _ =>
      bind (to_float a) (fun x =>
      bind (to_float b) (fun y =>
      if is_np a || is_np b then Ok (NpFloat (fdiv x y))
      else if is_zero y then Raise ZeroDivisionError
      else Ok (PyFloat (fdiv x y))))
  end.

(** Expressions: operands are evaluated left to right. *)
Definition binop (op : num -> num -> res num) (x y : res num) : res num :=
  bind x (fun a => bind y (fun b => op a b)).

Definition value_of (n : num) : F :=
  match n with
  | PyInt z => of_int z
  | PyFloat x => x
  | NpFloat x => x
  end.

End Numbers.

Arguments num F : clear implicits.

Notation "x + y" := (binop add x y) : py_scope.
Notation "x - y" := (binop sub x y) : py_scope.
Notation "x * y" := (binop mul x y) : py_scope.
Notation "x / y" := (binop truediv x y) : py_scope.
(** A variable, an int literal, a float literal. *)
Notation "' x" := (Ok x) (at level 1, x at level 1, format "' x") : py_scope.
Notation "'int' z" := (Ok (PyInt z%Z)) (at level 1, z at level 0) : py_scope.
Notation "'lit' m d" := (Ok (PyFloat (of_decimal m%Z d%positive)))
  (at level 1, m at level 0, d at level 0) : py_scope.

(** ** The script *)

Section Script.

Context {F : Type} {AF : Arith F}.
Local Open Scope py_scope.

(** The six widgets (lines 54-112). *)
Record Inputs : Type := {
  area : num F;
  thickness : num F;
  porosity : num F;
  water_saturation : num F;
  oil_fvf : num F;
  recovery_factor : num F
}.

(** What the form delivers: two ints and four floats. *)
Definition form (a h : Z) (por ws fvf rf : F) : Inputs := {|
  area := PyInt a;
  thickness := PyInt h;
  porosity := PyFloat por;
  water_saturation := PyFloat ws;
  oil_fvf := PyFloat fvf;
  recovery_factor := PyFloat rf
|}.

(** The variables assigned in lines 118-127. *)
Record Results : Type := {
  porosity_decimal : num F;
  water_saturation_decimal : num F;
  recovery_factor_decimal : num F;
  ooip : num F;
  recoverable_reserves : num F
}.

(** Lines 118-127: the formula engine. *)
Definition calculate (i : Inputs) : res Results :=
  porosity_decimal <- 'i.(porosity) / int 100 ;;
  water_saturation_decimal <- 'i.(water_saturation) / int 100 ;;
  recovery_factor_decimal <- 'i.(recovery_factor) / int 100 ;;
  ooip <- (int 7758 * 'i.(area) * 'i.(thickness) * 'porosity_decimal
           * (int 1 - 'water_saturation_decimal)) / 'i.(oil_fvf) ;;
  recoverable_reserves <- 'ooip * 'recovery_factor_decimal ;;
  Ok {| porosity_decimal := porosity_decimal;
        water_saturation_decimal := water_saturation_decimal;
        recovery_factor_decimal := recovery_factor_decimal;
        ooip := ooip;
        recoverable_reserves := recoverable_reserves |}.


(** The labels offered by the three select boxes. *)
Inductive Param : Set :=
| Area
| Thickness
| Porosity
| WaterSaturation
| OilFVF
| RecoveryFactor.

Definition label (p : Param) : string :=
  match p with
  | Area => "Area"
  | Thickness => "Thickness"
  | Porosity => "Porosity"
  | WaterSaturation => "Water Saturation"
  | OilFVF => "Oil FVF"
  | RecoveryFactor => "Recovery Factor"
  end.

(** [eval(param.lower().replace(' ', '_'))]: the widget variable a label
    names. *)
Definition variable (i : Inputs) (p : Param) : num F :=
  match p with
  | Area => i.(area)
  | Thickness => i.(thickness)
  | Porosity => i.(porosity)
  | WaterSaturation => i.(water_saturation)
  | OilFVF => i.(oil_fvf)
  | RecoveryFactor => i.(recovery_factor)
  end.

(** The inputs with one widget variable replaced. *)
Definition with_variable (i : Inputs) (p : Param) (v : num F) : Inputs :=
  match p with
  | Area => {| area := v; thickness := i.(thickness);
               porosity := i.(porosity);
               water_saturation := i.(water_saturation);
               oil_fvf := i.(oil_fvf);
               recovery_factor := i.(recovery_factor) |}
  | Thickness => {| area := i.(area); thickness := v;
                    porosity := i.(porosity);
                    water_saturation := i.(water_saturation);
                    oil_fvf := i.(oil_fvf);
                    recovery_factor := i.(recovery_factor) |}
  | Porosity => {| area := i.(area); thickness := i.(thickness);
                   porosity := v;
                   water_saturation := i.(water_saturation);
                   oil_fvf := i.(oil_fvf);
                   recovery_factor := i.(recovery_factor) |}
  | WaterSaturation => {| area := i.(area); thickness := i.(thickness);
                          porosity := i.(porosity);
                          water_saturation := v;
                          oil_fvf := i.(oil_fvf);
                          recovery_factor := i.(recovery_factor) |}
  | OilFVF => {| area := i.(area); thickness := i.(thickness);
                 porosity := i.(porosity);
                 water_saturation := i.(water_saturation);
                 oil_fvf := v;
                 recovery_factor := i.(recovery_factor) |}
  | RecoveryFactor => {| area := i.(area); thickness := i.(thickness);
                         porosity := i.(porosity);
                         water_saturation := i.(water_saturation);
                         oil_fvf := i.(oil_fvf);
                         recovery_factor := v |}
  end.

(** A dict literal or a loop over its keys: one entry per label, evaluated
    in the order Area, Thickness, Porosity, Water Saturation, Oil FVF,
    Recovery Factor. *)
Definition per_param {A : Type} (entry : Param -> res A) : res (Param -> A) :=
  a <- entry Area ;;
  h <- entry Thickness ;;
  p <- entry Porosity ;;
  w <- entry WaterSaturation ;;
  b <- entry OilFVF ;;
  f <- entry RecoveryFactor ;;
  Ok (fun k => match k with
               | Area => a
               | Thickness => h
               | Porosity => p
               | WaterSaturation => w
               | OilFVF => b
               | RecoveryFactor => f
               end).

(** *** numpy.linspace

    [linspace(start, stop, num)] with [endpoint=True], as
    [numpy/_core/function_base.py] computes it for scalar bounds:
    [arange(0, num)] is scaled by [step = (stop - start) / (num - 1)]
    (or, when that step is zero, divided by [num - 1] and scaled by
    [stop - start]), shifted by [start], and the last sample is overwritten
    with [stop]. *)

Definition arange (n : nat) : list F :=
  map (fun k => of_int (Z.of_nat k)) (seq 0 n).

Definition linspace (start stop : F) (n : nat) : list F :=
  let div := (Z.of_nat n - 1)%Z in
  let start := fmul start (of_decimal 1 1) in
  let stop := fmul stop (of_decimal 1 1) in
  let delta := fsub stop start in
  let y := arange n in
  let y :=
    if (0 <? div)%Z then
      let step := fdiv delta (of_int div) in
      if is_zero step
      then map (fun v => fmul (fdiv v (of_int div)) delta) y
      else map (fun v => fmul v step) y
    else map (fun v => fmul v delta) y in
  let y := map (fun v => fadd v start) y in
  if (1 <? n)%nat then removelast y ++ [stop] else y.

(** [np.linspace(a, b, n)] with its two bounds evaluated first. *)
Definition np_linspace (a b : res (num F)) (n : nat) : res (list F) :=
  x <- a ;;
  y <- b ;;
  start <- to_float x ;;
  stop <- to_float y ;;
  Ok (linspace start stop n).

(** *** Tab 1: single parameter analysis (lines 161-253) *)

(** Lines 171-178. *)
Definition param_ranges (i : Inputs) : res (Param -> list F) :=
  per_param (fun p =>
    match p with
    | OilFVF =>
        np_linspace ('(variable i p) * lit 8 10) ('(variable i p) * lit 12 10)
                    100
    | _ =>
        np_linspace ('(variable i p) * lit 5 10) ('(variable i p) * lit 15 10)
                    100
    end).

(** Lines 185-201: the body of the loop, for one [value] of the range. *)
Definition sweep_point
  '(Build_Inputs area thickness porosity water_saturation oil_fvf
                 recovery_factor)
  '(Build_Results porosity_decimal water_saturation_decimal
                  recovery_factor_decimal ooip recoverable_reserves)
  (param_to_analyze : Param) (value : num F) : res (num F * num F) :=
  temp_ooip <-
    match param_to_analyze with
    | Area =>
        (int 7758 * 'value * 'thickness * 'porosity_decimal
         * (int 1 - 'water_saturation_decimal)) / 'oil_fvf
    | Thickness =>
        (int 7758 * 'area * 'value * 'porosity_decimal
         * (int 1 - 'water_saturation_decimal)) / 'oil_fvf
    | Porosity =>
        (int 7758 * 'area * 'thickness * ('value / int 100)
         * (int 1 - 'water_saturation_decimal)) / 'oil_fvf
    | WaterSaturation =>
        (int 7758 * 'area * 'thickness * 'porosity_decimal
         * (int 1 - ('value / int 100))) / 'oil_fvf
    | OilFVF =>
        (int 7758 * 'area * 'thickness * 'porosity_decimal
         * (int 1 - 'water_saturation_decimal)) / 'value
    | RecoveryFactor => 'ooip
    end ;;
  temp_recoverable <-
    match param_to_analyze with
    | RecoveryFactor => 'ooip * ('value / int 100)
    | _ => 'temp_ooip * 'recovery_factor_decimal
    end ;;
  Ok (temp_ooip, temp_recoverable).

(** The data frame of lines 207-211: the swept values with the two lists the
    loop fills. *)
Record Sweep : Type := {
  sweep_values : list F;
  ooip_values : list (num F);
  recoverable_values : list (num F)
}.

Definition sensitivity (i : Inputs) (r : Results) (param_to_analyze : Param)
  : res Sweep :=
  ranges <- param_ranges i ;;
  points <- mapM (fun value => sweep_point i r param_to_analyze (NpFloat value))
                 (ranges param_to_analyze) ;;
  Ok {| sweep_values := ranges param_to_analyze;
        ooip_values := map fst points;
        recoverable_values := map snd points |}.

(** The metrics under the chart (lines 233-253). *)

(** [a < b].  Two ints are compared as integers, anything else as floats
    (CPython compares an int with a float exactly; the lists of the script
    hold floats only). *)
Definition py_lt (a b : num F) : bool :=
  match a, b with
  | PyInt x, PyInt y => (x <? y)%Z
  | _, _ => fltb (value_of a) (value_of b)
  end.

(** [min(l)] and [max(l)]: the first item is kept until a later one is
    smaller (greater) than the one kept.  [None] is the [ValueError] of an
    empty sequence. *)
Definition py_min (l : list (num F)) : option (num F) :=
  match l with
  | [] => None
  | first :: rest =>
      Some (fold_left
              (fun best item => if py_lt item best then item else best)
              rest first)
  end.

Definition py_max (l : list (num F)) : option (num F) :=
  match l with
  | [] => None
  | first :: rest =>
      Some (fold_left
              (fun best item => if py_lt best item then item else best)
              rest first)
  end.

Record Metrics : Type := {
  min_ooip : num F;
  max_ooip : num F;
  min_recoverable : num F;
  max_recoverable : num F;
  ooip_variation : num F;
  recoverable_variation : num F
}.

(** Lines 233-253: the four extremes and the two percentages shown under
    the chart, before they are formatted. *)
Definition sensitivity_metrics
  '(Build_Results porosity_decimal water_saturation_decimal
                  recovery_factor_decimal ooip recoverable_reserves)
  (s : Sweep) : option (res Metrics) :=
  let base_ooip := ooip in
  let base_recoverable := recoverable_reserves in
  match py_min (ooip_values s), py_max (ooip_values s),
        py_min (recoverable_values s), py_max (recoverable_values s) with
  | Some min_ooip, Some max_ooip, Some min_recoverable, Some max_recoverable =>
      Some (ooip_variation <-
              ('max_ooip - 'min_ooip) / 'base_ooip * int 100 ;;
            recoverable_variation <-
              ('max_recoverable - 'min_recoverable) / 'base_recoverable
              * int 100 ;;
            Ok {| min_ooip := min_ooip;
                  max_ooip := max_ooip;
                  min_recoverable := min_recoverable;
                  max_recoverable := max_recoverable;
                  ooip_variation := ooip_variation;
                  recoverable_variation := recoverable_variation |})
  | _, _, _, _ => None
  end.

(** *** Tab 2: tornado plot (lines 256-316) *)

Definition variation_percent : num F := PyFloat (of_decimal 2 10).

(** Lines 267-274. *)
Definition param_low_values (i : Inputs) : res (Param -> num F) :=
  per_param (fun p => '(variable i p) * (int 1 - 'variation_percent)).

(** Lines 276-283. *)
Definition param_high_values (i : Inputs) : res (Param -> num F) :=
  per_param (fun p => '(variable i p) * (int 1 + 'variation_percent)).

Record Tornado : Type := {
  ooip_low : num F;
  ooip_high : num F;
  recoverable_low : num F;
  recoverable_high : num F
}.

(** Lines 292-316: the body of the loop, for one [param]. *)
Definition tornado_entry
  '(Build_Inputs area thickness porosity water_saturation oil_fvf
                 recovery_factor)
  '(Build_Results porosity_decimal water_saturation_decimal
                  recovery_factor_decimal ooip recoverable_reserves)
  (param_low_values param_high_values : Param -> num F) (param : Param)
  : res Tornado :=
  let base_ooip := ooip in
  ooip_low_high <-
    match param with
    | Area =>
        lo <- (int 7758 * '(param_low_values param) * 'thickness
               * 'porosity_decimal * (int 1 - 'water_saturation_decimal))
              / 'oil_fvf ;;
        hi <- (int 7758 * '(param_high_values param) * 'thickness
               * 'porosity_decimal * (int 1 - 'water_saturation_decimal))
              / 'oil_fvf ;;
        Ok (lo, hi)
    | Thickness =>
        lo <- (int 7758 * 'area * '(param_low_values param)
               * 'porosity_decimal * (int 1 - 'water_saturation_decimal))
              / 'oil_fvf ;;
        hi <- (int 7758 * 'area * '(param_high_values param)
               * 'porosity_decimal * (int 1 - 'water_saturation_decimal))
              / 'oil_fvf ;;
        Ok (lo, hi)
    | Porosity =>
        lo <- (int 7758 * 'area * 'thickness
               * ('(param_low_values param) / int 100)
               * (int 1 - 'water_saturation_decimal)) / 'oil_fvf ;;
        hi <- (int 7758 * 'area * 'thickness
               * ('(param_high_values param) / int 100)
               * (int 1 - 'water_saturation_decimal)) / 'oil_fvf ;;
        Ok (lo, hi)
    | WaterSaturation =>
        lo <- (int 7758 * 'area * 'thickness * 'porosity_decimal
               * (int 1 - ('(param_low_values param) / int 100)))
              / 'oil_fvf ;;
        hi <- (int 7758 * 'area * 'thickness * 'porosity_decimal
               * (int 1 - ('(param_high_values param) / int 100)))
              / 'oil_fvf ;;
        Ok (lo, hi)
    | OilFVF =>
        lo <- (int 7758 * 'area * 'thickness * 'porosity_decimal
               * (int 1 - 'water_saturation_decimal))
              / '(param_high_values param) ;;
        hi <- (int 7758 * 'area * 'thickness * 'porosity_decimal
               * (int 1 - 'water_saturation_decimal))
              / '(param_low_values param) ;;
        Ok (lo, hi)
    | RecoveryFactor => Ok (base_ooip, base_ooip)
    end ;;
  recoverable_low_high <-
    match param with
    | RecoveryFactor =>
        lo <- 'base_ooip * ('(param_low_values param) / int 100) ;;
        hi <- 'base_ooip * ('(param_high_values param) / int 100) ;;
        Ok (lo, hi)
    | _ =>
        lo <- '(fst ooip_low_high) * 'recovery_factor_decimal ;;
        hi <- '(snd ooip_low_high) * 'recovery_factor_decimal ;;
        Ok (lo, hi)
    end ;;
  Ok {| ooip_low := fst ooip_low_high;
        ooip_high := snd ooip_low_high;
        recoverable_low := fst recoverable_low_high;
        recoverable_high := snd recoverable_low_high |}.

Definition tornado (i : Inputs) (r : Results) : res (Param -> Tornado) :=
  lows <- param_low_values i ;;
  highs <- param_high_values i ;;
  per_param (tornado_entry i r lows highs).

(** *** Tab 3: two-parameter matrix (lines 381-464) *)

(** Lines 400-410. *)
Definition matrix_range (i : Inputs) (p : Param) : res (list F) :=
  np_linspace ('(variable i p) * lit 8 10) ('(variable i p) * lit 12 10) 10.

(** Lines 419-461: the body of the inner loop, for one pair [p1], [p2]. *)
Definition matrix_cell
  '(Build_Inputs area thickness porosity water_saturation oil_fvf
                 recovery_factor)
  '(Build_Results porosity_decimal water_saturation_decimal
                  recovery_factor_decimal ooip recoverable_reserves)
  (param1 param2 : Param) (p1 p2 : num F) : res (num F * num F) :=
  let base_ooip := ooip in
  temp_ooip <-
    match param1, param2 with
    | Area, Thickness =>
        (int 7758 * 'p1 * 'p2 * 'porosity_decimal
         * (int 1 - 'water_saturation_decimal)) / 'oil_fvf
    | Area, Porosity =>
        (int 7758 * 'p1 * 'thickness * ('p2 / int 100)
         * (int 1 - 'water_saturation_decimal)) / 'oil_fvf
    | Area, WaterSaturation =>
        (int 7758 * 'p1 * 'thickness * 'porosity_decimal
         * (int 1 - ('p2 / int 100))) / 'oil_fvf
    | Area, OilFVF =>
        (int 7758 * 'p1 * 'thickness * 'porosity_decimal
         * (int 1 - 'water_saturation_decimal)) / 'p2
    | Area, RecoveryFactor =>
        (int 7758 * 'p1 * 'thickness * 'porosity_decimal
         * (int 1 - 'water_saturation_decimal)) / 'oil_fvf
    | Thickness, Porosity =>
        (int 7758 * 'area * 'p1 * ('p2 / int 100)
         * (int 1 - 'water_saturation_decimal)) / 'oil_fvf
    | Thickness, WaterSaturation =>
        (int 7758 * 'area * 'p1 * 'porosity_decimal
         * (int 1 - ('p2 / int 100))) / 'oil_fvf
    | Thickness, OilFVF =>
        (int 7758 * 'area * 'p1 * 'porosity_decimal
         * (int 1 - 'water_saturation_decimal)) / 'p2
    | Thickness, RecoveryFactor =>
        (int 7758 * 'area * 'p1 * 'porosity_decimal
         * (int 1 - 'water_saturation_decimal)) / 'oil_fvf
    | Porosity, WaterSaturation =>
        (int 7758 * 'area * 'thickness * ('p1 / int 100)
         * (int 1 - ('p2 / int 100))) / 'oil_fvf
    | Porosity, OilFVF =>
        (int 7758 * 'area * 'thickness * ('p1 / int 100)
         * (int 1 - 'water_saturation_decimal)) / 'p2
    | Porosity, RecoveryFactor =>
        (int 7758 * 'area * 'thickness * ('p1 / int 100)
         * (int 1 - 'water_saturation_decimal)) / 'oil_fvf
    | WaterSaturation, OilFVF =>
        (int 7758 * 'area * 'thickness * 'porosity_decimal
         * (int 1 - ('p1 / int 100))) / 'p2
    | WaterSaturation, RecoveryFactor =>
        (int 7758 * 'area * 'thickness * 'porosity_decimal
         * (int 1 - ('p1 / int 100))) / 'oil_fvf
    | OilFVF, RecoveryFactor =>
        (int 7758 * 'area * 'thickness * 'porosity_decimal
         * (int 1 - 'water_saturation_decimal)) / 'p1
    | _, _ => 'base_ooip
    end ;;
  temp_recoverable <-
    match param1, param2 with
    | RecoveryFactor, RecoveryFactor => 'temp_ooip * ('p1 / int 100)
    | RecoveryFactor, _ => 'temp_ooip * ('p1 / int 100)
    | _, RecoveryFactor => 'temp_ooip * ('p2 / int 100)
    | _, _ => 'temp_ooip * 'recovery_factor_decimal
    end ;;
  Ok (temp_ooip, temp_recoverable).

(** An assignment into an [np.zeros] array stores the float. *)
Definition store (cell : num F * num F) : res (F * F) :=
  x <- to_float (fst cell) ;;
  y <- to_float (snd cell) ;;
  Ok (x, y).

Record Matrix : Type := {
  param1_range : list F;
  param2_range : list F;
  ooip_matrix : list (list F);
  recoverable_matrix : list (list F)
}.

(** Lines 400-464. *)
Definition matrix (i : Inputs) (r : Results) (param1 param2 : Param)
  : res Matrix :=
  range1 <- matrix_range i param1 ;;
  range2 <- matrix_range i param2 ;;
  cells <- mapM (fun p1 =>
             mapM (fun p2 =>
                     cell <- matrix_cell i r param1 param2
                                         (NpFloat p1) (NpFloat p2) ;;
                     store cell)
                  range2)
             range1 ;;
  Ok {| param1_range := range1;
        param2_range := range2;
        ooip_matrix := map (map fst) cells;
        recoverable_matrix := map (map snd) cells |}.

(** *** The page: one run of the script for one state of the widgets *)

Record Page : Type := {
  results : Results;
  tab1 : Sweep;
  tab1_metrics : Metrics;
  tab2 : Param -> Tornado;
  tab3 : Matrix
}.

Definition page (i : Inputs) (param_to_analyze param1 param2 : Param)
  : res Page :=
  r <- calculate i ;;
  s <- sensitivity i r param_to_analyze ;;
  k <- match sensitivity_metrics r s with
       | Some k => k
       | None => Raise ValueError
       end ;;
  t <- tornado i r ;;
  m <- matrix i r param1 param2 ;;
  Ok {| results := r; tab1 := s; tab1_metrics := k; tab2 := t; tab3 := m |}.

End Script.

Arguments Inputs F : clear implicits.
Arguments Results F : clear implicits.
Arguments Sweep F : clear implicits.
Arguments Metrics F : clear implicits.
Arguments Tornado F : clear implicits.
Arguments Matrix F : clear implicits.
Arguments Page F : clear implicits.

(** ** Sheet names for the Excel export (lines 19-39)

    Strings are sequences of one-byte characters: Python strings over the
    first 256 code points. *)

Definition invalid_characters : list ascii :=
  [":"; "\"; "/"; "?"; "*"; "["; "]"]%char.

(** [s.replace(old, new)] for one-character [old] and [new]. *)
Fixpoint replace (old new : ascii) (s : string) : string :=
  match s with
  | EmptyString => EmptyString
  | String c s' =>
      String (if Ascii.eqb c old then new else c) (replace old new s')
  end.

(** [f"{i}"] for a non-negative [i]. *)
Definition str (i : nat) : string :=
  NilEmpty.string_of_uint (Nat.to_uint i).

(** [f"{name}_{i}"]. *)
Definition suffixed (name : string) (i : nat) : string :=
  (name ++ "_" ++ str i)%string.

(** [x in used_names]. *)
Definition mem (x : string) (used_names : list string) : bool :=
  existsb (String.eqb x) used_names.

(** The [while] loop of lines 34-36, started at [i], given [fuel]
    iterations. *)
Fixpoint first_free (fuel : nat) (name : string) (used_names : list string)
  (i : nat) : option nat :=
  match fuel with
  | O => None
  | S fuel' =>
      if mem (suffixed name i) used_names
      then first_free fuel' name used_names (S i)
      else Some i
  end.

(** The function returns the name and leaves it appended to [used_names];
    the pair is the returned name and the list after the call.  [None] is
    the loop running out of [fuel]. *)
Definition get_unique_sheet_name_fuel (fuel : nat) (base_name : string)
  (used_names : list string) : option (string * list string) :=
  let base_name :=
    fold_left (fun s char => replace char "_"%char s) invalid_characters
              base_name in
  let name := substring 0 31 base_name in
  if negb (mem name used_names) then Some (name, used_names ++ [name])
  else
    match first_free fuel name used_names 1 with
    | Some i =>
        let unique_name := suffixed name i in
        Some (unique_name, used_names ++ [unique_name])
    | None => None
    end.

(** One more iteration than there are used names always suffices
    ([get_unique_sheet_name_returns]). *)
Definition get_unique_sheet_name (base_name : string)
  (used_names : list string) : option (string * list string) :=
  get_unique_sheet_name_fuel (S (List.length used_names)) base_name used_names.


(** ** What the proofs use of an arithmetic *)

Class ArithSpec (F : Type) {AF : Arith F} : Prop := {
  (** Integers up to [2^53] convert. *)
  small_int_fits : forall z : Z, (Z.abs z <= 2 ^ 53)%Z -> int_fits z = true;
  (** The divisor [100] of the percentages is not zero as a float. *)
  hundred_not_zero : is_zero (of_int 100) = false;
  zero_is_zero : is_zero (of_int 0) = true;
  positive_not_zero :
    forall x : F, fltb (of_int 0) x = true -> is_zero x = false;
  negative_not_zero :
    forall x : F, fltb x (of_int 0) = true -> is_zero x = false;
  (** [1 - 0.2] is the float [0.8], [1 + 0.2] the float [1.2]. *)
  one_minus_variation :
    fsub (of_int 1) (of_decimal 2 10) = of_decimal 8 10;
  one_plus_variation :
    fadd (of_int 1) (of_decimal 2 10) = of_decimal 12 10
}.

Arguments ArithSpec F {AF}.

(** The formula of the specification on fractions, and the fraction of a
    percentage. *)
Definition volumetric {F : Type} {AF : Arith F} (k phi sw bo : F) : F :=
  fdiv (fmul (fmul k phi) (fsub (of_int 1) sw)) bo.

Definition fraction {F : Type} {AF : Arith F} (percent : F) : F :=
  fdiv percent (of_int 100).

(** The reference case of the documentation: 1000 acres, 50 ft, 20 %%
    porosity, 25 %% water saturation, FVF 1.3, 30 %% recovery. *)
Definition reference : Inputs float := (form 1000 50 20 25 1.3 30)%float.

(** The OOIP a run of the engine returns, as a float; [None] when the run
    raises. *)
Definition returned_ooip {F : Type} {AF : Arith F} (i : Inputs F)
  : option F :=
  match calculate i with
  | Ok r => Some (value_of (ooip r))
  | Raise _ => None
  end.

(** The valid domain of the data model, on the percentages of the form: every
    field positive, porosity and water saturation below 100 %%. *)
Definition form_valid (a h : Z) (por ws fvf rf : Q) : Prop :=
  (0 < a)%Z /\ (0 < h)%Z /\ (0 < por /\ por < 100)%Q /\
  (0 < ws /\ ws < 100)%Q /\ (0 < fvf)%Q /\ (0 < rf)%Q.

(** The bounds of the two integer widgets (lines 54-71). *)
Definition widget_ints (a h : Z) : Prop :=
  (10 <= a <= 100000)%Z /\ (5 <= h <= 1000)%Z.

Section Samples.

Context {F : Type} {AF : Arith F}.

(** The factors of lines 172-177 by which a base value is scaled to the two
    ends of its sweep. *)
Definition sweep_low (p : Param) : F :=
  match p with
  | OilFVF => of_decimal 8 10
  | _ => of_decimal 5 10
  end.

Definition sweep_high (p : Param) : F :=
  match p with
  | OilFVF => of_decimal 12 10
  | _ => of_decimal 15 10
  end.

(** Sample [k] of [linspace start stop n] before the last one is
    overwritten. *)
Definition linspace_sample (start stop : F) (n k : nat) : F :=
  let div := (Z.of_nat n - 1)%Z in
  let start := fmul start (of_decimal 1 1) in
  let stop := fmul stop (of_decimal 1 1) in
  let delta := fsub stop start in
  let v := of_int (Z.of_nat k) in
  fadd (if (0 <? div)%Z then
          if is_zero (fdiv delta (of_int div))
          then fmul (fdiv v (of_int div)) delta
          else fmul v (fdiv delta (of_int div))
        else fmul v delta)
       start.

(** The two values a run of the engine returns. *)
Definition estimate (r : Results F) : num F * num F :=
  (ooip r, recoverable_reserves r).

End Samples.

(** Properties of a list of rationals: [n] evenly spaced values from [first]
    to [last]; in ascending order; starting at [first] and ending at
    [last]. *)
Definition evenly_spaced (l : list Q) (first last : Q) (n : nat) : Prop :=
  List.length l = n /\
  forall (k : nat) (x : Q),
    nth_error l k = Some x ->
    (x == first + inject_Z (Z.of_nat k) * (last - first)
                  / inject_Z (Z.of_nat n - 1))%Q.

Definition ascending (l : list Q) : Prop :=
  forall (k : nat) (x y : Q),
    nth_error l k = Some x -> nth_error l (S k) = Some y -> (x <= y)%Q.

Definition spans (l : list Q) (first last : Q) : Prop :=
  exists x y : Q,
    nth_error l 0 = Some x /\ (x == first)%Q /\
    nth_error l (List.length l - 1) = Some y /\ (y == last)%Q.

(** The reference case once more, in exact arithmetic, and what the engine
    returns for both. *)
Definition reference_exact : Inputs Q := form 1000 50 20 25 (13 # 10) 30.

Definition no_results {F : Type} {AF : Arith F} : Results F :=
  {| porosity_decimal := PyInt 0;
     water_saturation_decimal := PyInt 0;
     recovery_factor_decimal := PyInt 0;
     ooip := PyInt 0;
     recoverable_reserves := PyInt 0 |}.

Definition results_of {F : Type} {AF : Arith F} (i : Inputs F) : Results F :=
  match calculate i with
  | Ok r => r
  | Raise _ => no_results
  end.

Definition reference_results : Results float :=
  Eval vm_compute in results_of reference.

Definition reference_exact_results : Results Q :=
  Eval vm_compute in results_of reference_exact.

Section TornadoSpec.

Context {F : Type} {AF : Arith F}.

(** The perturbed value of a variable at which the tornado loop evaluates
    the entry labelled low, and the one for the entry labelled high: base x
    0.8 and base x 1.2, the other way round for the oil FVF. *)
Definition low_factor (p : Param) : F :=
  match p with
  | OilFVF => of_decimal 12 10
  | _ => of_decimal 8 10
  end.

Definition high_factor (p : Param) : F :=
  match p with
  | OilFVF => of_decimal 8 10
  | _ => of_decimal 12 10
  end.

Definition perturbed (i : Inputs F) (p : Param) (factor : F) : Inputs F :=
  with_variable i p (PyFloat (fmul (value_of (variable i p)) factor)).

(** An entry of the tornado is the engine run twice, on the inputs perturbed
    by the low and by the high factor. *)
Definition tornado_entry_spec (i : Inputs F) (p : Param) (e : Tornado F)
  : Prop :=
  exists rl rh : Results F,
    calculate (perturbed i p (low_factor p)) = Ok rl /\
    calculate (perturbed i p (high_factor p)) = Ok rh /\
    ooip_low e = ooip rl /\
    recoverable_low e = recoverable_reserves rl /\
    ooip_high e = ooip rh /\
    recoverable_high e = recoverable_reserves rh.

(** The recoverable figures of an entry: base OOIP times the perturbed
    recovery fraction for the recovery factor, the entry's own OOIP times the
    base recovery fraction for the others. *)
Definition tornado_recoverable_spec (r : Results F) (rf : F) (p : Param)
  (e : Tornado F) : Prop :=
  match p with
  | RecoveryFactor =>
      ooip_low e = ooip r /\ ooip_high e = ooip r /\
      recoverable_low e
      = PyFloat (fmul (value_of (ooip r))
                      (fraction (fmul rf (of_decimal 8 10)))) /\
      recoverable_high e
      = PyFloat (fmul (value_of (ooip r))
                      (fraction (fmul rf (of_decimal 12 10))))
  | _ =>
      recoverable_low e
      = PyFloat (fmul (value_of (ooip_low e)) (fraction rf)) /\
      recoverable_high e
      = PyFloat (fmul (value_of (ooip_high e)) (fraction rf))
  end.

End TornadoSpec.

Definition reference_tornado_check : bool :=
  match tornado reference reference_results with
  | Ok t =>
      PrimFloat.ltb (value_of (ooip_high (t WaterSaturation)))
                    (value_of (ooip_low (t WaterSaturation)))
      && PrimFloat.ltb (value_of (ooip_low (t OilFVF)))
                       (value_of (ooip_high (t OilFVF)))
  | Raise _ => false
  end.

Section MatrixSpec.

Context {F : Type} {AF : Arith F}.

(** The position of a label in the select boxes. *)
Definition index (p : Param) : nat :=
  match p with
  | Area => 0
  | Thickness => 1
  | Porosity => 2
  | WaterSaturation => 3
  | OilFVF => 4
  | RecoveryFactor => 5
  end.

(** The first parameter comes before the second in the select boxes: the
    fifteen pairs lines 419-448 spell out. *)
Definition ordered (param1 param2 : Param) : bool :=
  (index param1 <? index param2)%nat.

(** The inputs with both selected variables replaced. *)
Definition both (i : Inputs F) (param1 param2 : Param) (p1 p2 : F)
  : Inputs F :=
  with_variable (with_variable i param1 (NpFloat p1)) param2 (NpFloat p2).

(** What a cell of the two grids holds: the engine run with both variables
    replaced for an ordered pair, the base OOIP otherwise. *)
Definition cell_spec (i : Inputs F) (r : Results F) (param1 param2 : Param)
  (p1 p2 : F) (cell : F * F) : Prop :=
  if ordered param1 param2
  then exists r' : Results F,
         calculate (both i param1 param2 p1 p2) = Ok r' /\
         cell = (value_of (ooip r'), value_of (recoverable_reserves r'))
  else fst cell = value_of (ooip r).

(** The OOIP the engine computes, without the recoverable figure. *)
Definition ooip_only (i : Inputs F) : res (num F) :=
  bind (binop truediv (Ok i.(porosity)) (Ok (PyInt 100)))
    (fun porosity_decimal =>
  bind (binop truediv (Ok i.(water_saturation)) (Ok (PyInt 100)))
    (fun water_saturation_decimal =>
  binop truediv
    (binop mul
       (binop mul
          (binop mul (binop mul (Ok (PyInt 7758)) (Ok i.(area)))
                     (Ok i.(thickness)))
          (Ok porosity_decimal))
       (binop sub (Ok (PyInt 1)) (Ok water_saturation_decimal)))
    (Ok i.(oil_fvf)))).

End MatrixSpec.

(** The reference case with a recovery factor of 45 %% instead of 30 %%. *)
Definition reference_45 : Inputs float := (form 1000 50 20 25 1.3 45)%float.

Definition reference_45_results : Results float :=
  Eval vm_compute in results_of reference_45.

(** A check on a computed sweep: [n] values, the first [first], the last
    [last], none smaller than the one before. *)
Fixpoint ascendingb (l : list float) : bool :=
  match l with
  | x :: ((y :: _) as l') => PrimFloat.leb x y && ascendingb l'
  | _ => true
  end.

Definition reference_sweep_check (p : Param) : bool :=
  match sensitivity reference reference_results p with
  | Ok s =>
      let b := value_of (variable reference p) in
      (List.length (sweep_values s) =? 100)%nat
      && ascendingb (sweep_values s)
      && match sweep_values s with
         | x :: _ => PrimFloat.eqb x (fmul b (sweep_low p))
         | [] => false
         end
      && PrimFloat.eqb (last (sweep_values s) PrimFloat.zero)
                       (fmul b (sweep_high p))
  | Raise _ => false
  end.


(** ** The rest of the page *)

(** *** The Excel export (lines 495-601): its sheet names and column widths *)

(** No character of the name is one Excel refuses. *)
Definition valid_name (s : string) : Prop :=
  forall c : ascii,
    In c (list_ascii_of_string s) -> ~ In c invalid_characters.

(** [f"OOIP Matrix - {param1} vs {param2}"] and its sibling. *)
Definition ooip_matrix_title (param1 param2 : Param) : string :=
  ("OOIP Matrix - " ++ label param1 ++ " vs " ++ label param2)%string.

Definition recoverable_matrix_title (param1 param2 : Param) : string :=
  ("Recoverable Matrix - " ++ label param1 ++ " vs " ++ label param2)%string.

(** One call of [get_unique_sheet_name] on the list the export keeps; the
    names handed out so far are collected beside it. *)
Definition next_sheet (base_name : string)
  (state : list string * list string) : option (list string * list string) :=
  match get_unique_sheet_name base_name (snd state) with
  | Some (sheet_name, used_sheet_names) =>
      Some ((fst state ++ [sheet_name])%list, used_sheet_names)
  | None => None
  end.

Definition and_then {A B : Type} (m : option A) (k : A -> option B)
  : option B :=
  match m with
  | Some a => k a
  | None => None
  end.

(** Lines 526, 529, 558, 578, 594 and 600: the five sheets of one export, in
    the order they are written, starting from [used_sheet_names = []].  The
    result is the five names and the final [used_sheet_names]. *)
Definition export_sheets (param1 param2 : Param)
  : option (list string * list string) :=
  and_then (next_sheet "Base Case" ([], [])) (fun st =>
  and_then (next_sheet "Single Parameter Sensitivity" st) (fun st =>
  and_then (next_sheet "Tornado Plot Data" st) (fun st =>
  and_then (next_sheet (ooip_matrix_title param1 param2) st) (fun st =>
  next_sheet (recoverable_matrix_title param1 param2) st)))).

(** Lines 544-554: the width given to one column of the base-case sheet,
    from the texts [str(cell.value)] of its cells. *)
Definition adjusted_width (column : list string) : nat :=
  let max_length :=
    fold_left (fun max_length text =>
                 if (max_length <? String.length text)%nat
                 then String.length text
                 else max_length)
              column 0%nat in
  Nat.min (max_length + 2) 50.

(** A list of strings without a repeated element, as a check. *)
Fixpoint all_distinct (l : list string) : bool :=
  match l with
  | [] => true
  | x :: l' => negb (mem x l') && all_distinct l'
  end.


(** *** The recoverable grid outside the fifteen ordered pairs *)

(** What lines 454-461 store for a pair that fell to the last branch of
    lines 419-451: base OOIP times the swept recovery fraction when the
    first parameter is the recovery factor, the base recoverable figure
    otherwise. *)
Definition unordered_recoverable {F : Type} {AF : Arith F} (r : Results F)
  (param1 : Param) (p1 : F) : F :=
  match param1 with
  | RecoveryFactor => fmul (value_of (ooip r)) (fraction p1)
  | _ => value_of (recoverable_reserves r)
  end.

(** The OOIP of the engine run on the inputs with one variable replaced by a
    swept value. *)
Definition ooip_at {F : Type} {AF : Arith F} (i : Inputs F) (p : Param)
  (x : F) : F :=
  value_of (ooip (results_of (with_variable i p (NpFloat x)))).

(** The metrics of the oil-FVF sweep of the reference case, as the page
    computes them in binary64. *)
Definition reference_fvf_metrics : option (res (Metrics float)) :=
  match sensitivity reference reference_results OilFVF with
  | Ok s => sensitivity_metrics reference_results s
  | Raise e => Some (Raise e)
  end.

(** *** The metrics in exact arithmetic *)

(** The two formulas of the engine over the rationals, on the values of the
    inputs. *)
Definition exact_ooip (i : Inputs Q) : Q :=
  (7758 * value_of (area i) * value_of (thickness i)
   * (value_of (porosity i) / 100)
   * (1 - value_of (water_saturation i) / 100) / value_of (oil_fvf i))%Q.

Definition exact_recoverable (i : Inputs Q) : Q :=
  (exact_ooip i * (value_of (recovery_factor i) / 100))%Q.

(** OOIP and the recoverable figure at the value [x] of parameter [p], as
    multiples of the base-case figures; [b] is the base value of [p]. *)
Definition ooip_ratio (p : Param) (b x : Q) : Q :=
  match p with
  | Area | Thickness | Porosity => (x / b)%Q
  | WaterSaturation => ((100 - x) / (100 - b))%Q
  | OilFVF => (b / x)%Q
  | RecoveryFactor => 1%Q
  end.

Definition recoverable_ratio (p : Param) (b x : Q) : Q :=
  match p with
  | RecoveryFactor => (x / b)%Q
  | _ => ooip_ratio p b x
  end.

(** The least and the greatest of these multiples over the sweep of [p]. *)
Definition ooip_span (p : Param) (b : Q) : Q * Q :=
  match p with
  | Area | Thickness | Porosity => (1 # 2, 3 # 2)%Q
  | WaterSaturation =>
      ((100 - (3 # 2) * b) / (100 - b), (100 - (1 # 2) * b) / (100 - b))%Q
  | OilFVF => (5 # 6, 5 # 4)%Q
  | RecoveryFactor => (1, 1)%Q
  end.

Definition recoverable_span (p : Param) (b : Q) : Q * Q :=
  match p with
  | RecoveryFactor => (1 # 2, 3 # 2)%Q
  | _ => ooip_span p b
  end.

(** [lo] and [hi] are the least and the greatest value of a column. *)
Definition extremes (l : list (num Q)) (lo hi : Q) : Prop :=
  (forall o, In o l -> (lo <= value_of o <= hi)%Q) /\
  (exists o, In o l /\ (value_of o == lo)%Q) /\
  (exists o, In o l /\ (value_of o == hi)%Q).

(** ** The float widgets (lines 73-110)

    Streamlit keeps the value of a slider or a [number_input] between its
    [min_value] and its [max_value]. *)

Definition between (min_value max_value x : float) : bool :=
  PrimFloat.leb min_value x && PrimFloat.leb x max_value.

Definition porosity_widget : float -> bool := between 5 40.
Definition water_saturation_widget : float -> bool := between 5 50.
Definition oil_fvf_widget : float -> bool := between 1 2.5.
Definition recovery_factor_widget : float -> bool := between 5 60.

Definition widget_floats (por ws fvf rf : float) : Prop :=
  porosity_widget por = true /\ water_saturation_widget ws = true /\
  oil_fvf_widget fvf = true /\ recovery_factor_widget rf = true.

(** ** Binary64 values

    A non-negative double is counted in units of [2^-1074], the smallest
    positive double: every finite double is a whole number of units. *)

Definition units (f : spec_float) : Z :=
  match f with
  | S754_finite false m e => (Zpos m * 2 ^ (e + 1074))%Z
  | _ => 0%Z
  end.

Definition nonneg_finite (f : spec_float) : bool :=
  match f with
  | S754_zero false => true
  | S754_finite false _ _ => true
  | _ => false
  end.

Definition locR (R D : Z) : location :=
  if (R =? 0)%Z then loc_Exact else loc_Inexact (2 * R ?= D)%Z.

Definition located (N D : Z) : shr_record :=
  shr_record_of_loc (N / D)%Z (locR (N mod D)%Z D).

(** [n] is the quotient [N / D] rounded to the nearest integer, a tie going
    to the even one. *)
Definition nearest_even (N D n : Z) : Prop :=
  (Z.abs (2 * (N - n * D)) <= D)%Z /\
  (Z.abs (2 * (N - n * D)) = D -> Z.even n = true)%Z.

(** The float [r] stands for [z] units: the finite float of that value, or
    [+infinity] from [2^1024] on. *)
Definition represents (r : spec_float) (z : Z) : Prop :=
  valid_binary r = true /\
  ((z < 2 ^ 2098 /\ nonneg_finite r = true /\ units r = z)%Z \/
   (2 ^ 2098 <= z /\ r = S754_infinity false)%Z).

(** [z] units is the rational [u] rounded to the nearest double, a tie going
    to the even mantissa: [z = n * 2^c], where the grid [2^c] is the one of
    the binade of [u]. *)
Definition rounds (u : Q) (z : Z) : Prop :=
  exists n c : Z,
    (0 <= n)%Z /\ (0 <= c)%Z /\ z = (n * 2 ^ c)%Z /\
    ((c = 0%Z /\ u < inject_Z (2 ^ 53))%Q \/
     ((0 < c)%Z /\ inject_Z (2 ^ (c + 52)) <= u < inject_Z (2 ^ (c + 53)))%Q) /\
    (- inject_Z (2 ^ c) <= 2 * (u - inject_Z z) <= inject_Z (2 ^ c))%Q /\
    ((2 * (u - inject_Z z) == inject_Z (2 ^ c) \/
      2 * (u - inject_Z z) == - inject_Z (2 ^ c))%Q -> Z.even n = true).

(** A finite non-negative double, and its value in units of [2^-1074]. *)
Definition fin (x : float) : bool := nonneg_finite (Prim2SF x).
Definition F2Z (x : float) : Z := units (Prim2SF x).

(** The double [x] is the rational [u] (in units) correctly rounded. *)
Definition Rnd (x : float) (u : Q) : Prop :=
  exists z : Z, rounds u z /\ represents (Prim2SF x) z.

(** The valid domain of the data model on doubles: every field positive (and
    finite), porosity and water saturation below 100 %%. *)
Definition binary64_valid (a h : Z) (por ws fvf rf : float) : Prop :=
  (0 < a)%Z /\ (0 < h)%Z /\
  (PrimFloat.ltb 0 por = true /\ PrimFloat.ltb por 100 = true) /\
  (PrimFloat.ltb 0 ws = true /\ PrimFloat.ltb ws 100 = true) /\
  (PrimFloat.ltb 0 fvf = true /\ PrimFloat.ltb fvf infinity = true) /\
  (PrimFloat.ltb 0 rf = true /\ PrimFloat.ltb rf infinity = true).

(** * Proofs *)

(** ** The two arithmetics *)

(** The float literals of the script, as Python parses them. *)
Example binary64_literals :
  of_decimal 5 10 = 0.5%float /\ of_decimal 15 10 = 1.5%float /\
  of_decimal 8 10 = 0.8%float /\ of_decimal 12 10 = 1.2%float /\
  of_decimal 2 10 = 0.2%float /\ of_decimal 1 1 = 1%float.
Proof. repeat split; vm_compute; reflexivity. Qed.

Lemma float_max_int_above : (2 ^ 53 < float_max_int)%Z.
Proof. reflexivity. Qed.

Lemma float_pos_not_zero (x : float) :
  PrimFloat.ltb PrimFloat.zero x = true ->
  PrimFloat.eqb x PrimFloat.zero = false.
Proof.
  rewrite ltb_spec, FloatAxioms.eqb_spec.
  change (Prim2SF PrimFloat.zero) with (S754_zero false).
  unfold SFltb, SFeqb.
  destruct (Prim2SF x) as [s | s | | s m e]; simpl;
    try destruct s; simpl; congruence.
Qed.

Lemma float_neg_not_zero (x : float) :
  PrimFloat.ltb x PrimFloat.zero = true ->
  PrimFloat.eqb x PrimFloat.zero = false.
Proof.
  rewrite ltb_spec, FloatAxioms.eqb_spec.
  change (Prim2SF PrimFloat.zero) with (S754_zero false).
  unfold SFltb, SFeqb.
  destruct (Prim2SF x) as [s | s | | s m e]; simpl;
    try destruct s; simpl; congruence.
Qed.

#[export] Instance binary64_spec : ArithSpec float.
Proof.
  split.
  - intros z Hz. cbn. apply Z.ltb_lt.
    pose proof float_max_int_above. lia.
  - vm_compute. reflexivity.
  - vm_compute. reflexivity.
  - intros x. apply float_pos_not_zero.
  - intros x. apply float_neg_not_zero.
  - vm_compute. reflexivity.
  - vm_compute. reflexivity.
Qed.

Lemma Qltb_lt (x y : Q) : Qltb x y = true <-> (x < y)%Q.
Proof.
  unfold Qltb. rewrite negb_true_iff. split; intros H.
  - apply Qnot_le_lt. intros Hle. apply Qle_bool_iff in Hle. congruence.
  - destruct (Qle_bool y x) eqn:E; [|reflexivity].
    apply Qle_bool_iff in E. exfalso. revert E. apply Qlt_not_le. exact H.
Qed.

Lemma Qeq_bool_false (x y : Q) : ~ (x == y)%Q -> Qeq_bool x y = false.
Proof.
  intros H. destruct (Qeq_bool x y) eqn:E; [|reflexivity].
  apply Qeq_bool_iff in E. contradiction.
Qed.

#[export] Instance exact_spec : ArithSpec Q.
Proof.
  split.
  - reflexivity.
  - reflexivity.
  - reflexivity.
  - intros x H. apply Qltb_lt in H. cbn in *.
    apply Qeq_bool_false. intros E. rewrite E in H. revert H. apply Qlt_irrefl.
  - intros x H. apply Qltb_lt in H. cbn in *.
    apply Qeq_bool_false. intros E. rewrite E in H. revert H. apply Qlt_irrefl.
  - reflexivity.
  - reflexivity.
Qed.


(** ** Rounding to nearest in binary64 *)

Section FloatTheory.

Local Open Scope Z_scope.

Lemma digits2_size (m : positive) : digits2_pos m = Pos.size m.
Proof. induction m; simpl; congruence. Qed.

Lemma digits_bounds (m : positive) :
  2 ^ (Zpos (digits2_pos m) - 1) <= Zpos m < 2 ^ Zpos (digits2_pos m).
Proof.
  rewrite digits2_size.
  pose proof (Pos.size_gt m) as Hgt. pose proof (Pos.size_le m) as Hle.
  split.
  - apply Pos2Z.pos_le_pos in Hle. rewrite Pos2Z.inj_pow in Hle.
    replace (Zpos (Pos.size m)) with (Zpos (Pos.size m) - 1 + 1) in Hle by lia.
    rewrite Z.pow_add_r in Hle by lia. change (2 ^ 1) with 2 in Hle.
    lia.
  - apply Pos2Z.pos_lt_pos in Hgt. rewrite Pos2Z.inj_pow in Hgt. exact Hgt.
Qed.

Lemma Zdigits2_bounds (m : Z) :
  0 < m -> 2 ^ (Zdigits2 m - 1) <= m < 2 ^ Zdigits2 m.
Proof. destruct m; try lia. intros _. apply digits_bounds. Qed.

Lemma Zdigits2_pos (m : Z) : 0 < m -> 0 < Zdigits2 m.
Proof. destruct m; simpl; lia. Qed.

Lemma Zdigits2_unique (m d : Z) :
  2 ^ (d - 1) <= m < 2 ^ d -> 0 < m -> Zdigits2 m = d.
Proof.
  intros H Hm. pose proof (Zdigits2_bounds m Hm) as H'.
  pose proof (Zdigits2_pos m Hm) as Hp.
  assert (Hd : 0 < d).
  { destruct (Z_lt_le_dec 0 d) as [|Hd]; [assumption|].
    rewrite Z.pow_neg_r in H by lia.
    assert (2 ^ d <= 1).
    { destruct (Z.eq_dec d 0) as [->|]; [simpl; lia|].
      rewrite Z.pow_neg_r by lia. lia. }
    lia. }
  destruct (Z.lt_trichotomy (Zdigits2 m) d) as [Hlt | [Heq | Hgt]]; [| exact Heq |].
  - assert (2 ^ Zdigits2 m <= 2 ^ (d - 1)) by (apply Z.pow_le_mono_r; lia). lia.
  - assert (2 ^ d <= 2 ^ (Zdigits2 m - 1)) by (apply Z.pow_le_mono_r; lia). lia.
Qed.

Lemma fexp_eq (x : Z) : fexp prec emax x = Z.max (x - 53) (-1074).
Proof. reflexivity. Qed.

Lemma valid_bounds (m : positive) (e : Z) :
  bounded prec emax m e = true ->
  -1074 <= e <= 971 /\ Zpos m < 2 ^ 53 /\ (-1074 < e -> 2 ^ 52 <= Zpos m).
Proof.
  unfold bounded, canonical_mantissa. rewrite fexp_eq.
  intros H. apply andb_true_iff in H as (Hc & He).
  apply Z.eqb_eq in Hc. apply Z.leb_le in He. change (emax - prec) with 971 in He.
  pose proof (digits_bounds m) as Hd.
  set (d := Zpos (digits2_pos m)) in *.
  assert (Hd53 : d <= 53) by lia.
  split; [lia |]. split.
  - assert (2 ^ d <= 2 ^ 53) by (apply Z.pow_le_mono_r; lia). lia.
  - intros Hn. assert (d = 53) by lia. subst d. rewrite H in Hd.
    change (2 ^ (53 - 1)) with (2 ^ 52) in Hd. lia.
Qed.

Lemma pow2_pos (x : Z) : 0 <= x -> 0 < 2 ^ x.
Proof. intros. apply Z.pow_pos_nonneg; lia. Qed.

(** Order of valid non-negative finite floats is the order of their values. *)
Lemma SFcompare_units (f g : spec_float) :
  valid_binary f = true -> valid_binary g = true ->
  nonneg_finite f = true -> nonneg_finite g = true ->
  SFcompare f g = Some (units f ?= units g).
Proof.
  destruct f as [[] | [] | | [] m1 e1]; try discriminate;
    destruct g as [[] | [] | | [] m2 e2]; try discriminate;
    intros V1 V2 _ _; unfold valid_binary in V1, V2;
    unfold SFcompare, units.
  - reflexivity.
  - destruct (valid_bounds _ _ V2) as (He & _).
    pose proof (pow2_pos (e2 + 1074) ltac:(lia)). f_equal. symmetry. apply Z.compare_lt_iff.
    nia.
  - destruct (valid_bounds _ _ V1) as (He & _).
    pose proof (pow2_pos (e1 + 1074) ltac:(lia)). f_equal. symmetry. apply Z.compare_gt_iff.
    nia.
  - destruct (valid_bounds _ _ V1) as (He1 & Hm1 & Hn1).
    destruct (valid_bounds _ _ V2) as (He2 & Hm2 & Hn2).
    f_equal.
    destruct (Z.compare_spec e1 e2) as [-> | Hlt | Hgt].
    + rewrite Pos.compare_cont_spec. cbn [Pos.switch_Eq].
      pose proof (pow2_pos (e2 + 1074) ltac:(lia)).
      change (Pos.compare m1 m2) with (Zpos m1 ?= Zpos m2).
      symmetry. destruct (Z.compare_spec (Zpos m1) (Zpos m2)) as [E | L | G].
      * rewrite E. apply Z.compare_refl.
      * apply Z.compare_lt_iff. nia.
      * apply Z.compare_gt_iff. nia.
    + symmetry. apply Z.compare_lt_iff.
      replace (e2 + 1074) with ((e2 - e1 - 1) + 1 + (e1 + 1074)) by lia.
      rewrite (Z.pow_add_r 2 (e2 - e1 - 1 + 1) (e1 + 1074)),
        (Z.pow_add_r 2 (e2 - e1 - 1) 1) by lia.
      change (2 ^ 1) with 2.
      pose proof (pow2_pos (e1 + 1074) ltac:(lia)). pose proof (pow2_pos (e2 - e1 - 1) ltac:(lia)).
      specialize (Hn2 ltac:(lia)).
      assert (Zpos m1 * 2 ^ (e1 + 1074) < 2 ^ 53 * 2 ^ (e1 + 1074)) by nia.
      assert (2 ^ 52 * (2 ^ (e2 - e1 - 1) * 2 * 2 ^ (e1 + 1074))
              <= Zpos m2 * (2 ^ (e2 - e1 - 1) * 2 * 2 ^ (e1 + 1074))) by nia.
      change (2 ^ 53) with (2 ^ 52 * 2) in *.
      assert (2 ^ 52 * 2 * 2 ^ (e1 + 1074)
              <= 2 ^ 52 * (2 ^ (e2 - e1 - 1) * 2 * 2 ^ (e1 + 1074))) by nia.
      lia.
    + symmetry. apply Z.compare_gt_iff.
      replace (e1 + 1074) with ((e1 - e2 - 1) + 1 + (e2 + 1074)) by lia.
      rewrite (Z.pow_add_r 2 (e1 - e2 - 1 + 1) (e2 + 1074)),
        (Z.pow_add_r 2 (e1 - e2 - 1) 1) by lia.
      change (2 ^ 1) with 2.
      pose proof (pow2_pos (e2 + 1074) ltac:(lia)). pose proof (pow2_pos (e1 - e2 - 1) ltac:(lia)).
      specialize (Hn1 ltac:(lia)).
      assert (Zpos m2 * 2 ^ (e2 + 1074) < 2 ^ 53 * 2 ^ (e2 + 1074)) by nia.
      assert (2 ^ 52 * (2 ^ (e1 - e2 - 1) * 2 * 2 ^ (e2 + 1074))
              <= Zpos m1 * (2 ^ (e1 - e2 - 1) * 2 * 2 ^ (e2 + 1074))) by nia.
      change (2 ^ 53) with (2 ^ 52 * 2) in *.
      assert (2 ^ 52 * 2 * 2 ^ (e2 + 1074)
              <= 2 ^ 52 * (2 ^ (e1 - e2 - 1) * 2 * 2 ^ (e2 + 1074))) by nia.
      lia.
Qed.

(** ** Shifting right keeps the location *)

Lemma shr_1_qR (q R D : Z) :
  0 <= q -> 0 <= R < D ->
  shr_1 (shr_record_of_loc q (locR R D))
  = shr_record_of_loc (q / 2) (locR (q mod 2 * D + R) (2 * D)).
Proof.
  intros Hq HR.
  assert (Hdm : q = 2 * (q / 2) + q mod 2) by (apply Z.div_mod; lia).
  pose proof (Z.mod_pos_bound q 2 ltac:(lia)) as Hm.
  unfold locR.
  destruct q as [| [p | p |] | p]; try lia.
  - change (0 / 2) with 0. change (0 mod 2) with 0.
    repeat match goal with
           | |- context [Z.eqb ?a ?b] => destruct (Z.eqb_spec a b)
           | |- context [Z.compare ?a ?b] => destruct (Z.compare_spec a b)
           end; try lia; reflexivity.
  - (* 2p+1 *)
    assert (E1 : Z.pos p~1 / 2 = Z.pos p) by (symmetry; apply (Z.div_unique _ _ _ 1); lia).
    assert (E2 : Z.pos p~1 mod 2 = 1) by (symmetry; apply (Z.mod_unique _ _ (Z.pos p)); lia).
    rewrite E1, E2.
    repeat match goal with
           | |- context [Z.eqb ?a ?b] => destruct (Z.eqb_spec a b)
           | |- context [Z.compare ?a ?b] => destruct (Z.compare_spec a b)
           end; try lia; reflexivity.
  - assert (E1 : Z.pos p~0 / 2 = Z.pos p) by (symmetry; apply (Z.div_unique _ _ _ 0); lia).
    assert (E2 : Z.pos p~0 mod 2 = 0) by (symmetry; apply (Z.mod_unique _ _ (Z.pos p)); lia).
    rewrite E1, E2.
    repeat match goal with
           | |- context [Z.eqb ?a ?b] => destruct (Z.eqb_spec a b)
           | |- context [Z.compare ?a ?b] => destruct (Z.compare_spec a b)
           end; try lia; reflexivity.
  - change (1 / 2) with 0. change (1 mod 2) with 1.
    repeat match goal with
           | |- context [Z.eqb ?a ?b] => destruct (Z.eqb_spec a b)
           | |- context [Z.compare ?a ?b] => destruct (Z.compare_spec a b)
           end; try lia; reflexivity.
Qed.

Lemma shr_1_located (N D : Z) :
  0 <= N -> 0 < D -> shr_1 (located N D) = located N (2 * D).
Proof.
  intros HN HD. unfold located.
  rewrite shr_1_qR.
  - f_equal.
    + rewrite (Z.mul_comm 2 D). rewrite Z.div_div by lia. reflexivity.
    + f_equal. rewrite (Z.mul_comm 2 D) at 1.
      rewrite Z.rem_mul_r by lia. lia.
  - apply Z.div_pos; lia.
  - apply Z.mod_pos_bound. lia.
Qed.

Lemma iter_shr_located (p : positive) :
  forall N D : Z,
    0 <= N -> 0 < D ->
    iter_pos shr_1 p (located N D) = located N (D * 2 ^ Zpos p).
Proof.
  induction p as [p IH | p IH |]; intros N D HN HD; cbn [iter_pos].
  - rewrite shr_1_located by assumption.
    pose proof (pow2_pos (Zpos p) ltac:(lia)) as Hp.
    rewrite IH by lia. rewrite IH by nia.
    f_equal. replace (Zpos p~1) with (Zpos p + Zpos p + 1) by lia.
    rewrite !Z.pow_add_r by lia. change (2 ^ 1) with 2. ring.
  - pose proof (pow2_pos (Zpos p) ltac:(lia)) as Hp.
    rewrite IH by lia. rewrite IH by nia.
    f_equal. replace (Zpos p~0) with (Zpos p + Zpos p) by lia.
    rewrite !Z.pow_add_r by lia. ring.
  - rewrite shr_1_located by assumption. f_equal. change (2 ^ 1) with 2. ring.
Qed.

Lemma shr_located (N D e k : Z) :
  0 <= N -> 0 < D -> 0 <= k ->
  shr (located N D) e k = (located N (D * 2 ^ k), e + k).
Proof.
  intros HN HD Hk. unfold shr. destruct k as [| p | p]; try lia.
  - rewrite Z.mul_1_r, Z.add_0_r. reflexivity.
  - rewrite iter_shr_located by assumption. reflexivity.
Qed.

Lemma loc_of_record_of_loc (m : Z) (l : location) :
  loc_of_shr_record (shr_record_of_loc m l) = l.
Proof. destruct l as [| []]; reflexivity. Qed.

Lemma shr_m_record_of_loc (m : Z) (l : location) :
  shr_m (shr_record_of_loc m l) = m.
Proof. destruct l as [| []]; reflexivity. Qed.

(** ** Rounding to nearest even *)

Lemma rne_cases (m : Z) (l : location) :
  round_nearest_even m l = m \/ round_nearest_even m l = m + 1.
Proof. destruct l as [| []]; simpl; auto. destruct (Z.even m); auto. Qed.

Lemma rne_nearest (N D : Z) :
  0 <= N -> 0 < D ->
  nearest_even N D (round_nearest_even (N / D) (locR (N mod D) D)).
Proof.
  intros HN HD.
  pose proof (Z.div_mod N D ltac:(lia)) as E.
  pose proof (Z.mod_pos_bound N D HD) as HR.
  set (q := N / D) in *. set (R := N mod D) in *.
  unfold nearest_even, locR.
  destruct (Z.eqb_spec R 0) as [HR0 | HR0].
  - cbn [round_nearest_even]. replace (N - q * D) with 0 by lia.
    simpl. split; lia.
  - destruct (Z.compare_spec (2 * R) D) as [Heq | Hlt | Hgt];
      cbn [round_nearest_even].
    + destruct (Z.even q) eqn:Ev.
      * replace (N - q * D) with R by lia. split; [lia | auto].
      * replace (N - (q + 1) * D) with (R - D) by lia. split; [lia |].
        intros _. rewrite Z.even_add, Ev. reflexivity.
    + replace (N - q * D) with R by lia. split; lia.
    + replace (N - (q + 1) * D) with (R - D) by lia. split; lia.
Qed.

Lemma located_exact (n : Z) : located n 1 = shr_record_of_loc n loc_Exact.
Proof.
  unfold located. rewrite Z.div_1_r, Z.mod_1_r. reflexivity.
Qed.

(** The first shift brings the mantissa into the format. *)
Lemma first_shift (m e : Z) :
  0 <= m -> e <= fexp prec emax (Zdigits2 m + e) ->
  let k := fexp prec emax (Zdigits2 m + e) - e in
  let m1 := m / 2 ^ k in
  let e1 := e + k in
  -1074 <= e1 /\
  ((m1 = 0 /\ e1 = -1074) \/
   (0 < m1 /\ m1 < 2 ^ 53 /\ (e1 = -1074 \/ 2 ^ 52 <= m1))).
Proof.
  intros Hm Hpre. cbv zeta. rewrite fexp_eq in *.
  set (k := Z.max (Zdigits2 m + e - 53) (-1074) - e).
  set (m1 := m / 2 ^ k). set (e1 := e + k).
  assert (Hk : 0 <= k) by (unfold k; lia).
  pose proof (pow2_pos k Hk) as Hpk.
  assert (He1 : e1 = Z.max (Zdigits2 m + e - 53) (-1074)) by (unfold e1, k; lia).
  split; [lia |].
  destruct (Z.eq_dec m 0) as [-> | Hm0].
  { left. unfold m1. rewrite Z.div_0_l by lia. split; [reflexivity |].
    simpl in He1. lia. }
  assert (Hm' : 0 < m) by lia.
  pose proof (Zdigits2_bounds m Hm') as Hd.
  pose proof (Zdigits2_pos m Hm') as Hdp.
  set (d := Zdigits2 m) in *.
  destruct (Z_lt_le_dec k d) as [Hkd | Hkd].
  - (* some bits are left *)
    right.
    assert (Hlow : 2 ^ (d - 1 - k) <= m1).
    { unfold m1. apply Z.div_le_lower_bound; [lia |].
      rewrite <- Z.pow_add_r by lia. replace (k + (d - 1 - k)) with (d - 1) by lia.
      lia. }
    assert (Hup : m1 < 2 ^ (d - k)).
    { unfold m1. apply Z.div_lt_upper_bound; [lia |].
      rewrite <- Z.pow_add_r by lia. replace (k + (d - k)) with d by lia. lia. }
    pose proof (pow2_pos (d - 1 - k) ltac:(lia)).
    split; [lia |].
    assert (Hdk : d - k <= 53) by (unfold k; lia).
    split.
    + assert (2 ^ (d - k) <= 2 ^ 53) by (apply Z.pow_le_mono_r; lia). lia.
    + destruct (Z.eq_dec e1 (-1074)) as [| Hne]; [left; assumption | right].
      assert (d - k = 53) by (unfold k in *; lia).
      replace (d - 1 - k) with 52 in Hlow by lia. exact Hlow.
  - (* every bit is shifted out *)
    left. split.
    + unfold m1. apply Z.div_small. split; [lia |].
      assert (2 ^ d <= 2 ^ k) by (apply Z.pow_le_mono_r; lia). lia.
    + unfold k in Hkd. lia.
Qed.

(** The second shift only acts when rounding has carried into a new bit. *)
Lemma second_shift (n e1 : Z) :
  -1074 <= e1 -> 0 <= n <= 2 ^ 53 -> (e1 = -1074 \/ 2 ^ 52 <= n) ->
  shr_fexp prec emax n e1 loc_Exact
  = if n =? 2 ^ 53 then (shr_record_of_loc (2 ^ 52) loc_Exact, e1 + 1)
    else (shr_record_of_loc n loc_Exact, e1).
Proof.
  intros He Hn Hc. unfold shr_fexp. rewrite fexp_eq.
  destruct (Z.eqb_spec n (2 ^ 53)) as [-> | Hne].
  - replace (Zdigits2 (2 ^ 53)) with 54 by reflexivity.
    replace (Z.max (54 + e1 - 53) (-1074) - e1) with 1 by lia.
    reflexivity.
  - assert (Hk : Z.max (Zdigits2 n + e1 - 53) (-1074) - e1 <= 0).
    { destruct (Z.eq_dec n 0) as [-> | Hn0]; [simpl; lia |].
      pose proof (Zdigits2_bounds n ltac:(lia)) as Hd.
      assert (Zdigits2 n <= 53).
      { destruct (Z_le_gt_dec (Zdigits2 n) 53) as [| Hgt]; [assumption |].
        assert (2 ^ 53 <= 2 ^ (Zdigits2 n - 1)) by (apply Z.pow_le_mono_r; lia).
        lia. }
      lia. }
    unfold shr.
    destruct (Z.max (Zdigits2 n + e1 - 53) (-1074) - e1); try lia; reflexivity.
Qed.

Lemma canonical_of_bounds (p : positive) (e : Z) :
  -1074 <= e -> Zpos p < 2 ^ 53 -> (e = -1074 \/ 2 ^ 52 <= Zpos p) ->
  canonical_mantissa prec emax p e = true.
Proof.
  intros He Hp Hc. unfold canonical_mantissa. rewrite fexp_eq.
  apply Z.eqb_eq.
  pose proof (digits_bounds p) as Hd. set (d := Zpos (digits2_pos p)) in *.
  assert (H53 : d <= 53).
  { destruct (Z_le_gt_dec d 53) as [| Hgt]; [assumption |].
    assert (2 ^ 53 <= 2 ^ (d - 1)) by (apply Z.pow_le_mono_r; lia). lia. }
  destruct Hc as [-> | Hc]; [lia |].
  assert (53 <= d).
  { destruct (Z_le_gt_dec 53 d) as [| Hgt]; [assumption |].
    assert (2 ^ d <= 2 ^ 52) by (apply Z.pow_le_mono_r; lia). lia. }
  lia.
Qed.

Lemma finite_represents (n e1 : Z) :
  -1074 <= e1 -> 0 <= n <= 2 ^ 53 -> (e1 = -1074 \/ 2 ^ 52 <= n) ->
  represents
    (let '(mrs, e) := shr_fexp prec emax n e1 loc_Exact in
     match shr_m mrs with
     | Z0 => S754_zero false
     | Zpos m =>
         if e <=? emax - prec then S754_finite false m e
         else S754_infinity false
     | Zneg _ => S754_nan
     end)
    (n * 2 ^ (e1 + 1074)).
Proof.
  intros He Hn Hc. rewrite second_shift by assumption.
  change (emax - prec) with 971.
  pose proof (pow2_pos (e1 + 1074) ltac:(lia)) as Hp.
  destruct (Z.eqb_spec n (2 ^ 53)) as [-> | Hne].
  - cbn [shr_m shr_record_of_loc].
    change (2 ^ 52) with (Zpos (2 ^ 52)%positive) at 1.
    cbv iota.
    destruct (Z.leb_spec (e1 + 1) 971) as [Hle | Hgt].
    + split.
      * cbn [valid_binary]. unfold bounded. apply andb_true_iff. split.
        -- apply canonical_of_bounds; [lia | reflexivity | right; reflexivity].
        -- apply Z.leb_le. change (emax - prec) with 971. lia.
      * left. cbn [nonneg_finite units].
        replace (e1 + 1 + 1074) with (1 + (e1 + 1074)) by lia.
        rewrite (Z.pow_add_r 2 1 (e1 + 1074)) by lia.
        change (Zpos (2 ^ 52)%positive * (2 ^ 1 * 2 ^ (e1 + 1074)))
          with (2 ^ 52 * (2 * 2 ^ (e1 + 1074))).
        change (2 ^ 53) with (2 ^ 52 * 2).
        split; [| split; [reflexivity | ring]].
        assert (2 ^ (e1 + 1074) <= 2 ^ 2044) by (apply Z.pow_le_mono_r; lia).
        change (2 ^ 2098) with (2 ^ 52 * 2 * 2 ^ 2044 * 2). nia.
    + split; [reflexivity |]. right. split; [| reflexivity].
      assert (2 ^ 2045 <= 2 ^ (e1 + 1074)) by (apply Z.pow_le_mono_r; lia).
      change (2 ^ 2098) with (2 ^ 53 * 2 ^ 2045). nia.
  - rewrite shr_m_record_of_loc.
    destruct n as [| p | p]; try lia.
    + split; [reflexivity |]. left. split; [reflexivity |].
      split; reflexivity.
    + destruct (Z.leb_spec e1 971) as [Hle | Hgt].
      * split.
        -- cbn [valid_binary]. unfold bounded. apply andb_true_iff. split.
           ++ apply canonical_of_bounds; [lia | lia | exact Hc].
           ++ apply Z.leb_le. change (emax - prec) with 971. lia.
        -- left. cbn [nonneg_finite units].
           split; [| split; reflexivity].
           assert (2 ^ (e1 + 1074) <= 2 ^ 2045) by (apply Z.pow_le_mono_r; lia).
           change (2 ^ 2098) with (2 ^ 53 * 2 ^ 2045). nia.
      * split; [reflexivity |]. right. split; [| reflexivity].
        assert (2 ^ 2046 <= 2 ^ (e1 + 1074)) by (apply Z.pow_le_mono_r; lia).
        destruct Hc as [-> | Hc]; [lia |].
        change (2 ^ 2098) with (2 ^ 52 * 2 ^ 2046). nia.
Qed.

Lemma bra_correct (N D e : Z) :
  0 <= N -> 0 < D -> e <= fexp prec emax (Zdigits2 (N / D) + e) ->
  exists k n : Z,
    0 <= k /\ 0 <= n /\ 0 <= e + k + 1074 /\
    nearest_even N (D * 2 ^ k) n /\
    ((e + k + 1074 = 0 /\ N < 2 ^ 53 * (D * 2 ^ k)) \/
     (0 < e + k + 1074 /\
      2 ^ 52 * (D * 2 ^ k) <= N < 2 ^ 53 * (D * 2 ^ k))) /\
    represents
      (binary_round_aux prec emax false (N / D) e (locR (N mod D) D))
      (n * 2 ^ (e + k + 1074)).
Proof.
  intros HN HD Hpre.
  assert (Hm : 0 <= N / D) by (apply Z.div_pos; lia).
  pose proof (first_shift (N / D) e Hm Hpre) as H1. cbv zeta in H1.
  set (k := fexp prec emax (Zdigits2 (N / D) + e) - e) in *.
  assert (Hk : 0 <= k) by (unfold k; lia).
  pose proof (pow2_pos k Hk) as Hpk.
  set (D1 := D * 2 ^ k). assert (HD1 : 0 < D1) by (unfold D1; nia).
  assert (Em1 : N / D / 2 ^ k = N / D1) by (unfold D1; rewrite Z.div_div; lia).
  rewrite Em1 in H1. destruct H1 as (He1 & Hcases).
  pose proof (Z.div_mod N D1 ltac:(lia)) as EN.
  pose proof (Z.mod_pos_bound N D1 HD1) as HR.
  pose proof (rne_nearest N D1 HN HD1) as Hnear.
  pose proof (rne_cases (N / D1) (locR (N mod D1) D1)) as Hn.
  set (n := round_nearest_even (N / D1) (locR (N mod D1) D1)) in *.
  assert (Hbra : binary_round_aux prec emax false (N / D) e (locR (N mod D) D)
                 = let '(mrs, e') := shr_fexp prec emax n (e + k) loc_Exact in
                   match shr_m mrs with
                   | Z0 => S754_zero false
                   | Zpos m =>
                       if e' <=? emax - prec then S754_finite false m e'
                       else S754_infinity false
                   | Zneg _ => S754_nan
                   end).
  { unfold binary_round_aux. unfold shr_fexp at 1. fold k.
    change (shr_record_of_loc (N / D) (locR (N mod D) D)) with (located N D).
    rewrite shr_located by assumption. fold D1.
    unfold located. rewrite shr_m_record_of_loc, loc_of_record_of_loc.
    reflexivity. }
  exists k, n.
  split; [exact Hk |]. split; [lia |]. split; [lia |].
  split; [exact Hnear |]. split.
  - destruct Hcases as [(Hz & He) | (Hpos & Hlt & Hc)].
    + left. split; [lia |]. nia.
    + destruct (Z.eq_dec (e + k) (-1074)) as [He | He].
      * left. split; [lia |]. nia.
      * right. split; [lia |]. destruct Hc as [Hc | Hc]; [lia |]. nia.
  - rewrite Hbra. replace (e + k + 1074) with ((e + k) + 1074) by lia.
    apply finite_represents; [exact He1 | |].
    + destruct Hcases as [(Hz & He) | (Hpos & Hlt & Hc)]; lia.
    + destruct Hcases as [(Hz & He) | (Hpos & Hlt & [Hc | Hc])]; [left; exact He | left; exact Hc | right; lia].
Qed.

(** ** Rounding as a relation on rationals *)

Ltac push_inj :=
  unfold Z.sub;
  repeat (rewrite inject_Z_plus || rewrite inject_Z_mult
          || rewrite inject_Z_opp).

Lemma inject_pow2_pos (c : Z) : 0 <= c -> (0 < inject_Z (2 ^ c))%Q.
Proof.
  intros Hc. change 0%Q with (inject_Z 0). rewrite <- Zlt_Qlt.
  apply pow2_pos. exact Hc.
Qed.

Lemma rounds_of_fraction (N D n c : Z) (u : Q) :
  0 <= N -> 0 < D -> 0 <= n -> 0 <= c ->
  (u * inject_Z D == inject_Z (N * 2 ^ c))%Q ->
  nearest_even N D n ->
  ((c = 0 /\ N < 2 ^ 53 * D) \/
   (0 < c /\ 2 ^ 52 * D <= N < 2 ^ 53 * D)) ->
  rounds u (n * 2 ^ c).
Proof.
  intros HN HD Hn Hc Hu (Hnear & Htie) Hgrid.
  exists n, c. split; [exact Hn |]. split; [exact Hc |]. split; [reflexivity |].
  pose proof (inject_pow2_pos c Hc) as HP.
  assert (Hd : (0 < inject_Z D)%Q)
    by (change 0%Q with (inject_Z 0); rewrite <- Zlt_Qlt; exact HD).
  rewrite inject_Z_mult in Hu.
  set (d := inject_Z D) in *. set (P := inject_Z (2 ^ c)) in *.
  set (Nq := inject_Z N) in *.
  split.
  - destruct Hgrid as [(-> & Hlt) | (Hc0 & Hle & Hlt)].
    + left. split; [reflexivity |].
      rewrite Zlt_Qlt in Hlt. rewrite inject_Z_mult in Hlt.
      fold Nq d in Hlt. change (2 ^ 0) with 1 in P.
      change P with 1%Q in Hu.
      set (B := inject_Z (2 ^ 53)) in *. clearbody B Nq d. nra.
    + right. split; [exact Hc0 |].
      rewrite Zle_Qle in Hle. rewrite Zlt_Qlt in Hlt.
      rewrite inject_Z_mult in Hle, Hlt. fold Nq d in Hle, Hlt.
      rewrite !Z.pow_add_r by lia. rewrite !inject_Z_mult. fold P.
      set (B := inject_Z (2 ^ 53)) in *. set (A := inject_Z (2 ^ 52)) in *.
      clearbody A B P Nq d. split; nra.
  - assert (Habs : -D <= 2 * (N - n * D) <= D) by lia.
    destruct Habs as (H1 & H2).
    rewrite Zle_Qle in H1, H2.
    assert (EY : (inject_Z (2 * (N - n * D)) == 2 * (Nq - inject_Z n * d))%Q).
    { push_inj. unfold Nq, d. ring. }
    rewrite EY in H1, H2. rewrite inject_Z_opp in H1. fold d in H1, H2.
    rewrite inject_Z_mult. fold P.
    set (nq := inject_Z n) in *.
    split.
    + clearbody P Nq d nq. split; nra.
    + intros Hcase. apply Htie.
      assert (Hq : (2 * (Nq - nq * d) == d \/ 2 * (Nq - nq * d) == - d)%Q).
      { clearbody P Nq d nq. destruct Hcase as [E | E]; [left | right]; nra. }
      assert (Hz : 2 * (N - n * D) = D \/ 2 * (N - n * D) = - D).
      { destruct Hq as [E | E]; [left | right]; rewrite <- EY in E;
          unfold d in E; try rewrite <- inject_Z_opp in E;
          apply (proj1 (inject_Z_injective _ _)) in E; exact E. }
      lia.
Qed.

Lemma rounds_ext (u u' : Q) (z : Z) : (u == u')%Q -> rounds u z -> rounds u' z.
Proof.
  intros E (n & c & Hn & Hc & Hz & Hgrid & Hnear & Htie).
  exists n, c. repeat (split; [assumption |]).
  split; [| split].
  - destruct Hgrid as [(H0 & H) | (H0 & H)]; [left | right];
      (split; [exact H0 |]); rewrite <- E; exact H.
  - rewrite <- E. exact Hnear.
  - rewrite <- E. exact Htie.
Qed.

Lemma grid_split (c : Z) :
  0 <= c ->
  (inject_Z (2 ^ (c + 52)) == inject_Z (2 ^ 52) * inject_Z (2 ^ c))%Q /\
  (inject_Z (2 ^ (c + 53)) == inject_Z (2 ^ 53) * inject_Z (2 ^ c))%Q.
Proof.
  intros Hc. rewrite <- !inject_Z_mult, <- !Z.pow_add_r by lia.
  rewrite (Z.add_comm 52 c), (Z.add_comm 53 c). split; reflexivity.
Qed.

(** The mantissa of a rounding lies between [0] and [2^53], and from [2^52]
    on above the subnormal range. *)
Lemma rounds_mantissa (u : Q) (n c : Z) :
  0 <= c ->
  (- inject_Z (2 ^ c) <= 2 * (u - inject_Z (n * 2 ^ c)))%Q ->
  (2 * (u - inject_Z (n * 2 ^ c)) <= inject_Z (2 ^ c))%Q ->
  ((u < inject_Z (2 ^ 53) * inject_Z (2 ^ c))%Q -> n <= 2 ^ 53) /\
  ((inject_Z (2 ^ 52) * inject_Z (2 ^ c) <= u)%Q -> 2 ^ 52 <= n).
Proof.
  intros Hc H1 H2. pose proof (inject_pow2_pos c Hc) as HP.
  rewrite inject_Z_mult in H1, H2.
  set (P := inject_Z (2 ^ c)) in *. split; intros Hu.
  - destruct (Z_le_gt_dec n (2 ^ 53)) as [| Hgt]; [assumption | exfalso].
    assert (Hq : 2 ^ 53 + 1 <= n) by lia.
    rewrite Zle_Qle, inject_Z_plus in Hq.
    set (nq := inject_Z n) in *. set (B := inject_Z (2 ^ 53)) in *.
    change (inject_Z 1) with 1%Q in Hq.
    clearbody P nq B. nra.
  - destruct (Z_le_gt_dec (2 ^ 52) n) as [| Hgt]; [assumption | exfalso].
    assert (Hq : n + 1 <= 2 ^ 52) by lia.
    rewrite Zle_Qle, inject_Z_plus in Hq.
    set (nq := inject_Z n) in *. set (A := inject_Z (2 ^ 52)) in *.
    change (inject_Z 1) with 1%Q in Hq.
    clearbody P nq A. nra.
Qed.

Lemma rounds_mono (u u' : Q) (z z' : Z) :
  rounds u z -> rounds u' z' -> (u <= u')%Q -> z <= z'.
Proof.
  intros (n & c & Hn & Hc & -> & Hgrid & (H1 & H2) & Htie)
         (n' & c' & Hn' & Hc' & -> & Hgrid' & (H1' & H2') & Htie') Hu.
  pose proof (inject_pow2_pos c Hc) as HP.
  pose proof (inject_pow2_pos c' Hc') as HP'.
  pose proof (pow2_pos c Hc) as HPz. pose proof (pow2_pos c' Hc') as HPz'.
  destruct (grid_split c Hc) as (G52 & G53).
  destruct (grid_split c' Hc') as (G52' & G53').
  destruct (rounds_mantissa u n c Hc H1 H2) as (Hup & Hlow).
  destruct (rounds_mantissa u' n' c' Hc' H1' H2') as (Hup' & Hlow').
  assert (Hlt53 : (u < inject_Z (2 ^ 53) * inject_Z (2 ^ c))%Q).
  { destruct Hgrid as [(-> & H) | (_ & _ & H)].
    - change (inject_Z (2 ^ 0)) with 1%Q. lra.
    - rewrite <- G53. exact H. }
  assert (Hlt53' : (u' < inject_Z (2 ^ 53) * inject_Z (2 ^ c'))%Q).
  { destruct Hgrid' as [(-> & H) | (_ & _ & H)].
    - change (inject_Z (2 ^ 0)) with 1%Q. lra.
    - rewrite <- G53'. exact H. }
  destruct (Z.lt_trichotomy c c') as [Hlt | [<- | Hgt]].
  - (* the binade of [u] is below the binade of [u'] *)
    specialize (Hup Hlt53).
    assert (Hn52 : 2 ^ 52 <= n').
    { apply Hlow'. destruct Hgrid' as [(-> & _) | (_ & H & _)]; [lia |].
      rewrite <- G52'. exact H. }
    assert (Hpow : 2 ^ 53 * 2 ^ c <= 2 ^ 52 * 2 ^ c').
    { rewrite <- !Z.pow_add_r by lia. apply Z.pow_le_mono_r; lia. }
    nia.
  - (* same grid *)
    destruct (Z_le_gt_dec n n') as [Hle | Hgt]; [nia | exfalso].
    rewrite inject_Z_mult in *.
    assert (Hq : n' + 1 <= n) by lia.
    rewrite Zle_Qle, inject_Z_plus in Hq. change (inject_Z 1) with 1%Q in Hq.
    set (P := inject_Z (2 ^ c)) in *.
    assert (HX : (inject_Z n' * P + P <= inject_Z n * P)%Q) by nra.
    assert (E1 : (2 * (u - inject_Z n * P) == - P)%Q) by lra.
    assert (E2 : (2 * (u' - inject_Z n' * P) == P)%Q) by lra.
    assert (E3 : (inject_Z n * P == inject_Z n' * P + P)%Q) by lra.
    assert (En : n = n' + 1).
    { destruct (Z.eq_dec n (n' + 1)) as [| Hne]; [assumption | exfalso].
      assert (Hq2 : n' + 2 <= n) by lia.
      rewrite Zle_Qle, inject_Z_plus in Hq2.
      change (inject_Z 2) with 2%Q in Hq2. nra. }
    specialize (Htie (or_intror E1)). specialize (Htie' (or_introl E2)).
    rewrite En, Z.even_add, Htie' in Htie. discriminate Htie.
  - (* impossible: [u] would be above [u'] *)
    exfalso.
    assert (H52 : (inject_Z (2 ^ 52) * inject_Z (2 ^ c) <= u)%Q).
    { destruct Hgrid as [(-> & _) | (_ & H & _)]; [lia |].
      rewrite <- G52. exact H. }
    assert (Hpow : 2 ^ 53 * 2 ^ c' <= 2 ^ 52 * 2 ^ c).
    { rewrite <- !Z.pow_add_r by lia. apply Z.pow_le_mono_r; lia. }
    rewrite Zle_Qle, !inject_Z_mult in Hpow. lra.
Qed.

Lemma rounds_unique (u : Q) (z z' : Z) : rounds u z -> rounds u z' -> z = z'.
Proof.
  intros H H'.
  pose proof (rounds_mono u u z z' H H' ltac:(lra)).
  pose proof (rounds_mono u u z' z H' H ltac:(lra)). lia.
Qed.

(** A valid float is its own rounding. *)
Lemma rounds_self (f : spec_float) :
  valid_binary f = true -> nonneg_finite f = true ->
  rounds (inject_Z (units f)) (units f).
Proof.
  destruct f as [[] | [] | | [] m e]; try discriminate; intros V _.
  - exists 0, 0. cbn [units].
    split; [lia |]. split; [lia |]. split; [reflexivity |].
    split; [left; split; reflexivity |].
    change (inject_Z (2 ^ 0)) with 1%Q. change (inject_Z 0) with 0%Q.
    split; [split; lra |]. intros _. reflexivity.
  - unfold valid_binary in V. destruct (valid_bounds m e V) as (He & Hm & Hnorm).
    pose proof (pow2_pos (e + 1074) ltac:(lia)) as HP.
    pose proof (inject_pow2_pos (e + 1074) ltac:(lia)) as HPq.
    exists (Zpos m), (e + 1074). cbn [units].
    split; [lia |]. split; [lia |]. split; [reflexivity |].
    destruct (grid_split (e + 1074) ltac:(lia)) as (G52 & G53).
    split; [| split].
    + destruct (Z.eq_dec (e + 1074) 0) as [E0 | E0].
      * left. split; [exact E0 |]. rewrite E0.
        rewrite <- Zlt_Qlt. change (2 ^ 0) with 1. lia.
      * right. split; [lia |]. rewrite G52, G53, <- !inject_Z_mult.
        rewrite <- Zle_Qle, <- Zlt_Qlt. specialize (Hnorm ltac:(lia)). nia.
    + split; lra.
    + intros [E | E]; lra.
Qed.

(** ** Floats and the values they stand for *)

Lemma represents_self (f : spec_float) :
  valid_binary f = true -> nonneg_finite f = true -> represents f (units f).
Proof.
  intros V Hf. split; [exact V |]. left. split; [| split; [exact Hf | reflexivity]].
  destruct f as [[] | [] | | [] m e]; try discriminate; cbn [units].
  - reflexivity.
  - unfold valid_binary in V. destruct (valid_bounds m e V) as (He & Hm & _).
    assert (2 ^ (e + 1074) <= 2 ^ 2045) by (apply Z.pow_le_mono_r; lia).
    pose proof (pow2_pos (e + 1074) ltac:(lia)).
    change (2 ^ 2098) with (2 ^ 53 * 2 ^ 2045). nia.
Qed.

Lemma represents_le (r r' : spec_float) (z z' : Z) :
  represents r z -> represents r' z' -> z <= z' -> SFleb r r' = true.
Proof.
  intros (V & [(Hz & Hf & Hu) | (Hz & ->)]) (V' & [(Hz' & Hf' & Hu') | (Hz' & ->)]) Hle.
  - unfold SFleb. rewrite (SFcompare_units r r' V V' Hf Hf'), Hu, Hu'.
    destruct (Z.compare_spec z z'); try reflexivity. lia.
  - destruct r as [[] | [] | | [] m e]; try discriminate; reflexivity.
  - lia.
  - reflexivity.
Qed.

Lemma represents_lt (r r' : spec_float) (z z' : Z) :
  represents r z -> represents r' z' -> z < z' -> z < 2 ^ 2098 ->
  SFltb r r' = true.
Proof.
  intros (V & [(Hz & Hf & Hu) | (Hz & ->)]) (V' & [(Hz' & Hf' & Hu') | (Hz' & ->)]) Hlt Hfin;
    try lia.
  - unfold SFltb. rewrite (SFcompare_units r r' V V' Hf Hf'), Hu, Hu'.
    destruct (Z.compare_spec z z'); try reflexivity; lia.
  - destruct r as [[] | [] | | [] m e]; try discriminate; reflexivity.
Qed.

Lemma units_nonneg (f : spec_float) : valid_binary f = true -> 0 <= units f.
Proof.
  destruct f as [[] | [] | | [] m e]; cbn [units]; lia.
Qed.

Lemma finite_units_pos (m : positive) (e : Z) :
  bounded prec emax m e = true -> 0 < units (S754_finite false m e).
Proof.
  intros V. destruct (valid_bounds m e V) as (He & _). cbn [units].
  pose proof (pow2_pos (e + 1074) ltac:(lia)). nia.
Qed.

Lemma frac_eq (A B T d : Z) :
  0 < T -> A * d = B * T ->
  (inject_Z A / inject_Z T * inject_Z d == inject_Z B)%Q.
Proof.
  intros HT E.
  assert (HTq : ~ (inject_Z T == 0)%Q).
  { intros H. change 0%Q with (inject_Z 0) in H.
    apply (proj1 (inject_Z_injective _ _)) in H. lia. }
  assert (Eq : (inject_Z A * inject_Z d == inject_Z B * inject_Z T)%Q)
    by (rewrite <- !inject_Z_mult, E; reflexivity).
  setoid_replace (inject_Z A / inject_Z T * inject_Z d)%Q
    with (inject_Z A * inject_Z d / inject_Z T)%Q by (field; exact HTq).
  rewrite Eq. field. exact HTq.
Qed.

Lemma rounds_zero : rounds 0 0.
Proof. exact (rounds_self (S754_zero false) eq_refl eq_refl). Qed.

(** *** Multiplication *)

Lemma mul_pre (mx my : positive) (ex ey : Z) :
  bounded prec emax mx ex = true -> bounded prec emax my ey = true ->
  ex + ey <= fexp prec emax (Zdigits2 (Zpos (mx * my)) + (ex + ey)).
Proof.
  intros Vx Vy.
  destruct (valid_bounds _ _ Vx) as (Hex & Hmx & Hnx).
  destruct (valid_bounds _ _ Vy) as (Hey & Hmy & Hny).
  rewrite fexp_eq.
  destruct (Z_le_gt_dec (ex + ey) (-1074)) as [| Hgt]; [lia |].
  assert (H52 : 2 ^ 52 <= Zpos (mx * my)).
  { rewrite Pos2Z.inj_mul.
    destruct (Z.eq_dec ex (-1074)) as [-> | Hx].
    - specialize (Hny ltac:(lia)). nia.
    - specialize (Hnx ltac:(lia)). nia. }
  pose proof (Zdigits2_bounds (Zpos (mx * my)) ltac:(lia)) as Hd.
  assert (53 <= Zdigits2 (Zpos (mx * my))).
  { destruct (Z_le_gt_dec 53 (Zdigits2 (Zpos (mx * my)))) as [| Hlt]; [assumption |].
    assert (2 ^ Zdigits2 (Zpos (mx * my)) <= 2 ^ 52) by (apply Z.pow_le_mono_r; lia).
    lia. }
  lia.
Qed.

Lemma SFmul_rounds (f g : spec_float) :
  valid_binary f = true -> valid_binary g = true ->
  nonneg_finite f = true -> nonneg_finite g = true ->
  exists z : Z,
    rounds (inject_Z (units f) * inject_Z (units g) / inject_Z (2 ^ 1074)) z /\
    represents (SFmul prec emax f g) z.
Proof.
  intros Vf Vg Hf Hg.
  assert (Hzero : forall u : Q, (u == 0)%Q ->
            exists z, rounds u z /\ represents (S754_zero false) z).
  { intros u E. exists 0. split.
    - apply (rounds_ext 0); [symmetry; exact E | exact rounds_zero].
    - exact (represents_self (S754_zero false) eq_refl eq_refl). }
  destruct f as [[] | [] | | [] mx ex]; try discriminate;
    destruct g as [[] | [] | | [] my ey]; try discriminate;
    cbn [SFmul xorb units]; try (apply Hzero; unfold Qdiv; ring).
  unfold valid_binary in Vf, Vg.
  destruct (valid_bounds _ _ Vf) as (Hex & _).
  destruct (valid_bounds _ _ Vg) as (Hey & _).
  pose proof (bra_correct (Zpos (mx * my)) 1 (ex + ey) ltac:(lia) ltac:(lia))
    as H.
  rewrite Z.div_1_r, Z.mod_1_r in H. change (locR 0 1) with loc_Exact in H.
  destruct (H (mul_pre mx my ex ey Vf Vg))
    as (k & n & Hk & Hn & Hc & Hnear & Hgrid & Hrep).
  exists (n * 2 ^ (ex + ey + k + 1074)). split; [| exact Hrep].
  apply (rounds_of_fraction (Zpos (mx * my)) (1 * 2 ^ k)); try assumption; try lia.
  rewrite <- inject_Z_mult. apply frac_eq; [reflexivity |].
  rewrite Pos2Z.inj_mul.
  replace (ex + ey + k + 1074) with ((ex + 1074) + (ey + 1074) + k - 1074) by lia.
  assert (E : 2 ^ (ex + 1074 + (ey + 1074) + k - 1074) * 2 ^ 1074
              = 2 ^ (ex + 1074) * 2 ^ (ey + 1074) * 2 ^ k).
  { rewrite <- !Z.pow_add_r by lia. f_equal. lia. }
  nia.
Qed.

(** *** Division *)

Lemma new_location_locR (nb k : Z) :
  0 <= k < nb -> new_location nb k = locR k nb.
Proof.
  intros Hk. unfold new_location, new_location_even, new_location_odd, locR.
  destruct (Z.even nb) eqn:Ev; [reflexivity |].
  destruct (Z.eqb_spec k 0) as [-> | Hk0]; [reflexivity |].
  - assert (Hodd : Z.odd nb = true) by (rewrite <- Z.negb_even, Ev; reflexivity).
    apply Z.odd_spec in Hodd. destruct Hodd as (j & ->).
    destruct (Z.compare_spec (2 * k + 1) (2 * j + 1));
      destruct (Z.compare_spec (2 * k) (2 * j + 1)); try lia; reflexivity.
Qed.

Lemma div_core (mx my : positive) (ex ey : Z) :
  let e' := Z.min (fexp prec emax (Zdigits2 (Zpos mx) + ex
                                   - (Zdigits2 (Zpos my) + ey)))
                  (ex - ey) in
  let N := Zpos mx * 2 ^ (ex - ey - e') in
  SFdiv_core_binary prec emax (Zpos mx) ex (Zpos my) ey
  = (N / Zpos my, e', locR (N mod Zpos my) (Zpos my)).
Proof.
  intros e' N. unfold SFdiv_core_binary. fold e'.
  assert (Hs : 0 <= ex - ey - e') by (unfold e'; lia).
  assert (Em : match ex - ey - e' with
               | 0 => Zpos mx
               | Zpos _ => Z.shiftl (Zpos mx) (ex - ey - e')
               | Zneg _ => 0
               end = N).
  { unfold N. destruct (ex - ey - e') as [| p | p] eqn:E; try lia.
    rewrite Z.shiftl_mul_pow2 by lia. reflexivity. }
  rewrite Em.
  pose proof (Z.mod_pos_bound N (Zpos my) ltac:(lia)) as HR.
  unfold Z.modulo, Z.div in *.
  destruct (Z.div_eucl N (Zpos my)) as (q, r). cbn [fst snd] in *.
  rewrite new_location_locR by exact HR. reflexivity.
Qed.

Lemma div_pre (mx my : positive) (ex ey e' : Z) :
  e' = Z.min (fexp prec emax (Zdigits2 (Zpos mx) + ex
                              - (Zdigits2 (Zpos my) + ey)))
             (ex - ey) ->
  e' <= fexp prec emax
          (Zdigits2 (Zpos mx * 2 ^ (ex - ey - e') / Zpos my) + e').
Proof.
  rewrite !fexp_eq.
  pose proof (Zdigits2_bounds (Zpos mx) ltac:(lia)) as Hd1.
  pose proof (Zdigits2_bounds (Zpos my) ltac:(lia)) as Hd2.
  pose proof (Zdigits2_pos (Zpos mx) ltac:(lia)) as Hp1.
  pose proof (Zdigits2_pos (Zpos my) ltac:(lia)) as Hp2.
  set (d1 := Zdigits2 (Zpos mx)) in *. set (d2 := Zdigits2 (Zpos my)) in *.
  intros He'.
  set (s := ex - ey - e').
  assert (Hs : 0 <= s) by (unfold s; lia).
  pose proof (pow2_pos s Hs) as Hps.
  set (N := Zpos mx * 2 ^ s).
  assert (HN : 2 ^ (d1 - 1 + s) <= N).
  { unfold N. rewrite Z.pow_add_r by lia. nia. }
  assert (Hq0 : 0 <= N / Zpos my) by (apply Z.div_pos; nia).
  destruct (Z.eq_dec (N / Zpos my) 0) as [E0 | Hne].
  - rewrite E0. cbn [Zdigits2].
    assert (Hlt : N < Zpos my).
    { apply Z.div_small_iff in E0; lia. }
    assert (Hpow : 2 ^ (d1 - 1 + s) < 2 ^ d2) by lia.
    apply Z.pow_lt_mono_r_iff in Hpow; try lia.
  - assert (Hqpos : 0 < N / Zpos my) by lia.
    pose proof (Zdigits2_bounds _ Hqpos) as Hdq.
    pose proof (Zdigits2_pos _ Hqpos) as Hpq.
    set (dq := Zdigits2 (N / Zpos my)) in *.
    assert (Hdq' : d1 + s - d2 <= dq).
    { destruct (Z_le_gt_dec (d1 + s - d2) dq) as [| Hgt]; [assumption | exfalso].
      assert (Ht : 0 <= d1 - 1 + s - d2) by lia.
      assert (Hlow : 2 ^ (d1 - 1 + s - d2) <= N / Zpos my).
      { apply Z.div_le_lower_bound; [lia |].
        assert (H : Zpos my * 2 ^ (d1 - 1 + s - d2)
                    <= 2 ^ d2 * 2 ^ (d1 - 1 + s - d2)).
        { pose proof (pow2_pos (d1 - 1 + s - d2) Ht). nia. }
        rewrite <- Z.pow_add_r in H by lia.
        replace (d2 + (d1 - 1 + s - d2)) with (d1 - 1 + s) in H by lia. lia. }
      assert (2 ^ dq <= 2 ^ (d1 - 1 + s - d2)) by (apply Z.pow_le_mono_r; lia).
      lia. }
    unfold s in *. lia.
Qed.

Lemma SFdiv_rounds (f g : spec_float) :
  valid_binary f = true -> valid_binary g = true ->
  nonneg_finite f = true -> nonneg_finite g = true ->
  0 < units g ->
  exists z : Z,
    rounds (inject_Z (units f) * inject_Z (2 ^ 1074) / inject_Z (units g)) z /\
    represents (SFdiv prec emax f g) z.
Proof.
  intros Vf Vg Hf Hg Hpos.
  destruct g as [[] | [] | | [] my ey]; try discriminate;
    try (cbn [units] in Hpos; lia).
  destruct f as [[] | [] | | [] mx ex]; try discriminate.
  { cbn [SFdiv xorb units]. exists 0. split.
    - apply (rounds_ext 0); [unfold Qdiv; ring | exact rounds_zero].
    - exact (represents_self (S754_zero false) eq_refl eq_refl). }
  unfold valid_binary in Vf, Vg.
  destruct (valid_bounds _ _ Vf) as (Hex & _).
  destruct (valid_bounds _ _ Vg) as (Hey & _).
  cbn [SFdiv xorb]. rewrite div_core. cbv zeta.
  pose proof (div_pre mx my ex ey _ eq_refl) as Hpre.
  set (e' := Z.min (fexp prec emax (Zdigits2 (Zpos mx) + ex
                                    - (Zdigits2 (Zpos my) + ey)))
                   (ex - ey)) in *.
  set (N := Zpos mx * 2 ^ (ex - ey - e')) in *.
  assert (Hs : 0 <= ex - ey - e') by (unfold e'; lia).
  pose proof (pow2_pos _ Hs) as Hps.
  destruct (bra_correct N (Zpos my) e' ltac:(unfold N; nia) ltac:(lia) Hpre)
    as (k & n & Hk & Hn & Hc & Hnear & Hgrid & Hrep).
  exists (n * 2 ^ (e' + k + 1074)). split; [| exact Hrep].
  pose proof (pow2_pos k Hk) as Hpk.
  apply (rounds_of_fraction N (Zpos my * 2 ^ k)); try assumption; try nia.
  cbn [units]. rewrite <- inject_Z_mult.
  apply frac_eq; [pose proof (pow2_pos (ey + 1074) ltac:(lia)); nia |].
  unfold N.
  assert (E : 2 ^ (ex + 1074) * 2 ^ 1074 * 2 ^ k
              = 2 ^ (ex - ey - e') * 2 ^ (e' + k + 1074) * 2 ^ (ey + 1074)).
  { rewrite <- !Z.pow_add_r by lia. f_equal. lia. }
  nia.
Qed.

(** *** Rounding an integer mantissa: addition, subtraction, conversion *)

Lemma iter_xO (d m : positive) :
  Zpos (Pos.iter xO m d) = Zpos m * 2 ^ Zpos d.
Proof.
  change (Pos.iter xO m d) with (shift_pos d m).
  rewrite Zpower.shift_pos_correct. rewrite Zpower.Zpower_pos_nat.
  rewrite Zpower.Zpower_nat_Z, positive_nat_Z. ring.
Qed.

Lemma shl_align_spec (m : positive) (e e' : Z) :
  exists (mz : positive) (ez : Z),
    shl_align m e e' = (mz, ez) /\ ez = Z.min e e' /\
    Zpos mz = Zpos m * 2 ^ (e - ez).
Proof.
  unfold shl_align. destruct (e' - e) as [| d | d] eqn:E.
  - exists m, e. split; [reflexivity |]. split; [lia |].
    replace (e - e) with 0 by lia. lia.
  - exists m, e. split; [reflexivity |]. split; [lia |].
    replace (e - e) with 0 by lia. lia.
  - exists (Pos.iter xO m d), e'. split; [reflexivity |]. split; [lia |].
    rewrite iter_xO. f_equal. f_equal. lia.
Qed.

Lemma Zdigits2_shift (m j : Z) :
  0 < m -> 0 <= j -> Zdigits2 (m * 2 ^ j) = Zdigits2 m + j.
Proof.
  intros Hm Hj. pose proof (Zdigits2_bounds m Hm) as Hd.
  pose proof (Zdigits2_pos m Hm) as Hp. pose proof (pow2_pos j Hj) as Hpj.
  apply Zdigits2_unique; [| nia].
  replace (Zdigits2 m + j - 1) with (Zdigits2 m - 1 + j) by lia.
  rewrite !Z.pow_add_r by lia. nia.
Qed.

Lemma binary_round_rounds (S : positive) (e : Z) :
  -1074 <= e ->
  exists z : Z,
    rounds (inject_Z (Zpos S * 2 ^ (e + 1074))) z /\
    represents (binary_round prec emax false S e) z.
Proof.
  intros He. unfold binary_round.
  destruct (shl_align_spec S e (fexp prec emax (Zpos (digits2_pos S) + e)))
    as (mz & ez & -> & Hez & Hmz).
  change (Zpos (digits2_pos S)) with (Zdigits2 (Zpos S)) in Hez.
  assert (Hj : 0 <= e - ez) by lia.
  pose proof (pow2_pos _ Hj) as Hpj.
  assert (Hpre : ez <= fexp prec emax (Zdigits2 (Zpos mz) + ez)).
  { rewrite Hmz, Zdigits2_shift by lia.
    replace (Zdigits2 (Zpos S) + (e - ez) + ez) with (Zdigits2 (Zpos S) + e) by lia.
    lia. }
  pose proof (bra_correct (Zpos mz) 1 ez ltac:(lia) ltac:(lia)) as H.
  rewrite Z.div_1_r, Z.mod_1_r in H. change (locR 0 1) with loc_Exact in H.
  destruct (H Hpre) as (k & n & Hk & Hn & Hc & Hnear & Hgrid & Hrep).
  exists (n * 2 ^ (ez + k + 1074)). split; [| exact Hrep].
  apply (rounds_of_fraction (Zpos mz) (1 * 2 ^ k)); try assumption; try lia.
  rewrite <- !inject_Z_mult. rewrite Hmz.
  assert (E : 2 ^ (e + 1074) * 2 ^ k = 2 ^ (e - ez) * 2 ^ (ez + k + 1074)).
  { rewrite <- !Z.pow_add_r by lia. f_equal. lia. }
  apply (proj2 (inject_Z_injective _ _)). nia.
Qed.

Lemma aligned_units (m : positive) (e ez : Z) :
  -1074 <= ez <= e ->
  Zpos (fst (shl_align m e ez)) * 2 ^ (ez + 1074) = Zpos m * 2 ^ (e + 1074).
Proof.
  intros He. destruct (shl_align_spec m e ez) as (mz & ez' & -> & Hez & Hmz).
  cbn [fst]. rewrite Hmz. replace ez' with ez by lia.
  rewrite <- Z.mul_assoc, <- Z.pow_add_r by lia. f_equal. f_equal. lia.
Qed.

Lemma SFadd_rounds (f g : spec_float) :
  valid_binary f = true -> valid_binary g = true ->
  nonneg_finite f = true -> nonneg_finite g = true ->
  exists z : Z,
    rounds (inject_Z (units f + units g)) z /\
    represents (SFadd prec emax f g) z.
Proof.
  intros Vf Vg Hf Hg.
  destruct f as [[] | [] | | [] mx ex]; try discriminate;
    destruct g as [[] | [] | | [] my ey]; try discriminate.
  - exists 0. split; [exact rounds_zero |].
    exact (represents_self (S754_zero false) eq_refl eq_refl).
  - cbn [SFadd]. exists (units (S754_finite false my ey)).
    rewrite Z.add_0_l. split; [apply rounds_self | apply represents_self]; assumption.
  - cbn [SFadd]. exists (units (S754_finite false mx ex)).
    rewrite Z.add_0_r. split; [apply rounds_self | apply represents_self]; assumption.
  - unfold valid_binary in Vf, Vg.
    destruct (valid_bounds _ _ Vf) as (Hex & _).
    destruct (valid_bounds _ _ Vg) as (Hey & _).
    cbn [SFadd cond_Zopp units].
    set (ez := Z.min ex ey).
    pose proof (aligned_units mx ex ez ltac:(unfold ez; lia)) as Ex.
    pose proof (aligned_units my ey ez ltac:(unfold ez; lia)) as Ey.
    set (a := fst (shl_align mx ex ez)) in *.
    set (b := fst (shl_align my ey ez)) in *.
    change (Zpos a + Zpos b) with (Zpos (a + b)). cbn [binary_normalize].
    destruct (binary_round_rounds (a + b) ez ltac:(unfold ez; lia))
      as (z & Hz & Hrep).
    exists z. split; [| exact Hrep].
    replace (Zpos mx * 2 ^ (ex + 1074) + Zpos my * 2 ^ (ey + 1074))
      with (Zpos (a + b) * 2 ^ (ez + 1074)); [exact Hz |].
    rewrite Pos2Z.inj_add. lia.
Qed.

Lemma SFsub_rounds (f g : spec_float) :
  valid_binary f = true -> valid_binary g = true ->
  nonneg_finite f = true -> nonneg_finite g = true ->
  units g <= units f ->
  exists z : Z,
    rounds (inject_Z (units f - units g)) z /\
    represents (SFsub prec emax f g) z.
Proof.
  intros Vf Vg Hf Hg Hle.
  destruct f as [[] | [] | | [] mx ex]; try discriminate;
    destruct g as [[] | [] | | [] my ey]; try discriminate.
  - exists 0. split; [exact rounds_zero |].
    exact (represents_self (S754_zero false) eq_refl eq_refl).
  - exfalso. pose proof (finite_units_pos my ey Vg). cbn [units] in *. lia.
  - cbn [SFsub]. exists (units (S754_finite false mx ex)).
    rewrite Z.sub_0_r. split; [apply rounds_self | apply represents_self]; assumption.
  - unfold valid_binary in Vf, Vg.
    destruct (valid_bounds _ _ Vf) as (Hex & _).
    destruct (valid_bounds _ _ Vg) as (Hey & _).
    cbn [SFsub cond_Zopp units] in *.
    set (ez := Z.min ex ey).
    pose proof (aligned_units mx ex ez ltac:(unfold ez; lia)) as Ex.
    pose proof (aligned_units my ey ez ltac:(unfold ez; lia)) as Ey.
    set (a := fst (shl_align mx ex ez)) in *.
    set (b := fst (shl_align my ey ez)) in *.
    pose proof (pow2_pos (ez + 1074) ltac:(unfold ez; lia)) as Hp.
    destruct (Zpos a - Zpos b) as [| p | p] eqn:E.
    + cbn [binary_normalize]. exists 0. split.
      * replace (Zpos mx * 2 ^ (ex + 1074) - Zpos my * 2 ^ (ey + 1074)) with 0 by nia.
        exact rounds_zero.
      * exact (represents_self (S754_zero false) eq_refl eq_refl).
    + cbn [binary_normalize].
      destruct (binary_round_rounds p ez ltac:(unfold ez; lia))
        as (z & Hz & Hrep).
      exists z. split; [| exact Hrep].
      replace (Zpos mx * 2 ^ (ex + 1074) - Zpos my * 2 ^ (ey + 1074))
        with (Zpos p * 2 ^ (ez + 1074)); [exact Hz |].
      rewrite <- E. lia.
    + exfalso. nia.
Qed.

(** ** Primitive floats *)

Lemma Rnd_mul (x y : float) :
  fin x = true -> fin y = true ->
  Rnd (x * y) (inject_Z (F2Z x) * inject_Z (F2Z y) / inject_Z (2 ^ 1074)).
Proof.
  intros Hx Hy. unfold Rnd. rewrite mul_spec.
  apply SFmul_rounds; try apply Prim2SF_valid; assumption.
Qed.

Lemma Rnd_div (x y : float) :
  fin x = true -> fin y = true -> 0 < F2Z y ->
  Rnd (x / y) (inject_Z (F2Z x) * inject_Z (2 ^ 1074) / inject_Z (F2Z y)).
Proof.
  intros Hx Hy Hpos. unfold Rnd. rewrite div_spec.
  apply SFdiv_rounds; try apply Prim2SF_valid; assumption.
Qed.

Lemma Rnd_add (x y : float) :
  fin x = true -> fin y = true ->
  Rnd (x + y) (inject_Z (F2Z x + F2Z y)).
Proof.
  intros Hx Hy. unfold Rnd. rewrite add_spec.
  apply SFadd_rounds; try apply Prim2SF_valid; assumption.
Qed.

Lemma Rnd_sub (x y : float) :
  fin x = true -> fin y = true -> F2Z y <= F2Z x ->
  Rnd (x - y) (inject_Z (F2Z x - F2Z y)).
Proof.
  intros Hx Hy Hle. unfold Rnd. rewrite sub_spec.
  apply SFsub_rounds; try apply Prim2SF_valid; assumption.
Qed.

Lemma Rnd_of_int (k : Z) :
  0 <= k -> Rnd (Z2float k) (inject_Z (k * 2 ^ 1074)).
Proof.
  intros Hk. unfold Rnd, Z2float.
  destruct k as [| p | p]; try lia.
  - cbn [binary_normalize]. rewrite Prim2SF_SF2Prim by reflexivity.
    exists 0. split; [exact rounds_zero |].
    exact (represents_self (S754_zero false) eq_refl eq_refl).
  - cbn [binary_normalize].
    destruct (binary_round_rounds p 0 ltac:(lia)) as (z & Hz & Hrep).
    rewrite Prim2SF_SF2Prim by (destruct Hrep as (V & _); exact V).
    exists z. split; [exact Hz | exact Hrep].
Qed.

Lemma Rnd_exact (x : float) : fin x = true -> Rnd x (inject_Z (F2Z x)).
Proof.
  intros Hx. exists (F2Z x). split.
  - apply rounds_self; [apply Prim2SF_valid | exact Hx].
  - apply represents_self; [apply Prim2SF_valid | exact Hx].
Qed.

Lemma Rnd_ext (x : float) (u u' : Q) : (u == u')%Q -> Rnd x u -> Rnd x u'.
Proof. intros E (z & Hz & Hr). exists z. split; [exact (rounds_ext u u' z E Hz) | exact Hr]. Qed.

(** Rounding is monotone. *)
Lemma Rnd_le (x x' : float) (u u' : Q) :
  Rnd x u -> Rnd x' u' -> (u <= u')%Q -> PrimFloat.leb x x' = true.
Proof.
  intros (z & Hz & Hr) (z' & Hz' & Hr') Hu. rewrite leb_spec.
  apply (represents_le _ _ z z' Hr Hr').
  exact (rounds_mono u u' z z' Hz Hz' Hu).
Qed.

(** A rounding below a finite double is finite. *)
Lemma Rnd_fin (x b : float) (u : Q) :
  Rnd x u -> fin b = true -> (u <= inject_Z (F2Z b))%Q ->
  fin x = true /\ F2Z x <= F2Z b.
Proof.
  intros (z & Hz & Hr) Hb Hu.
  pose proof (rounds_self (Prim2SF b) (Prim2SF_valid b) Hb) as Hself.
  pose proof (rounds_mono _ _ _ _ Hz Hself Hu) as Hle.
  destruct (represents_self (Prim2SF b) (Prim2SF_valid b) Hb)
    as (_ & [(Hlt & _) | (Hge & E)]).
  - destruct Hr as (_ & [(_ & Hf & Hunits) | (Hge & _)]).
    + unfold fin, F2Z. rewrite Hunits. split; [exact Hf | exact Hle].
    + fold (F2Z b) in *. lia.
  - unfold fin in Hb. rewrite E in Hb. discriminate Hb.
Qed.

(** The value of a finite rounding. *)
Lemma Rnd_value (x : float) (u : Q) :
  Rnd x u -> fin x = true -> rounds u (F2Z x).
Proof.
  intros (z & Hz & (_ & [(_ & _ & Hunits) | (_ & E)])) Hx.
  - unfold F2Z. rewrite Hunits. exact Hz.
  - unfold fin in Hx. rewrite E in Hx. discriminate Hx.
Qed.

Lemma Rnd_fin_le (x x' : float) (u u' : Q) :
  Rnd x u -> Rnd x' u' -> (u <= u')%Q -> fin x' = true ->
  fin x = true /\ F2Z x <= F2Z x'.
Proof.
  intros H H' Hu Hx'.
  pose proof (Rnd_value x' u' H' Hx') as Hz'.
  destruct H as (z & Hz & Hr).
  pose proof (rounds_mono _ _ _ _ Hz Hz' Hu) as Hle.
  destruct (represents_self (Prim2SF x') (Prim2SF_valid x') Hx')
    as (_ & [(Hlt & _) | (Hge & E)]).
  - destruct Hr as (_ & [(_ & Hf & Hunits) | (Hge & _)]).
    + unfold fin, F2Z. rewrite Hunits. split; [exact Hf | exact Hle].
    + fold (F2Z x') in *. lia.
  - unfold fin in Hx'. rewrite E in Hx'. discriminate Hx'.
Qed.

Lemma fin_leb (x y : float) :
  fin x = true -> fin y = true ->
  (PrimFloat.leb x y = true <-> F2Z x <= F2Z y).
Proof.
  intros Hx Hy. rewrite leb_spec. unfold SFleb, F2Z.
  rewrite (SFcompare_units _ _ (Prim2SF_valid x) (Prim2SF_valid y) Hx Hy).
  destruct (Z.compare_spec (units (Prim2SF x)) (units (Prim2SF y)));
    split; intros; try reflexivity; try lia; discriminate.
Qed.

Lemma fin_ltb (x y : float) :
  fin x = true -> fin y = true ->
  (PrimFloat.ltb x y = true <-> F2Z x < F2Z y).
Proof.
  intros Hx Hy. rewrite ltb_spec. unfold SFltb, F2Z.
  rewrite (SFcompare_units _ _ (Prim2SF_valid x) (Prim2SF_valid y) Hx Hy).
  destruct (Z.compare_spec (units (Prim2SF x)) (units (Prim2SF y)));
    split; intros; try reflexivity; try lia; discriminate.
Qed.

Lemma F2Z_nonneg (x : float) : 0 <= F2Z x.
Proof. apply units_nonneg, Prim2SF_valid. Qed.

(** A double between a positive finite one and a finite one is finite and
    positive. *)
Lemma fin_between (lo x hi : float) :
  fin lo = true -> 0 < F2Z lo -> fin hi = true ->
  PrimFloat.leb lo x = true -> PrimFloat.leb x hi = true -> fin x = true.
Proof.
  unfold fin, F2Z. rewrite !leb_spec. unfold SFleb.
  destruct (Prim2SF lo) as [[] | [] | | [] ml el]; cbn [nonneg_finite units];
    try discriminate; try lia;
    destruct (Prim2SF hi) as [[] | [] | | [] mh eh]; try discriminate;
    destruct (Prim2SF x) as [[] | [] | | [] m e]; cbn; try discriminate;
    try reflexivity.
Qed.

(** *** Overflow threshold and relative error *)

Lemma rounds_below_overflow (u : Q) (z : Z) :
  rounds u z -> (u < inject_Z (2 ^ 2098 - 2 ^ 2044))%Q -> z < 2 ^ 2098.
Proof.
  intros (n & c & Hn & Hc & -> & Hgrid & (H1 & H2) & Htie) Hu.
  pose proof (inject_pow2_pos c Hc) as HP.
  destruct (grid_split c Hc) as (G52 & G53).
  destruct (rounds_mantissa u n c Hc H1 H2) as (Hup & _).
  assert (Hlt53 : (u < inject_Z (2 ^ 53) * inject_Z (2 ^ c))%Q).
  { destruct Hgrid as [(-> & H) | (_ & _ & H)].
    - change (inject_Z (2 ^ 0)) with 1%Q. lra.
    - rewrite <- G53. exact H. }
  specialize (Hup Hlt53).
  destruct (Z_le_gt_dec c 2044) as [Hc44 | Hc45].
  - assert (2 ^ c <= 2 ^ 2044) by (apply Z.pow_le_mono_r; lia).
    pose proof (pow2_pos c Hc).
    change (2 ^ 2098) with (2 ^ 53 * 2 ^ 2044 * 2). nia.
  - destruct Hgrid as [(-> & _) | (_ & Hlow & _)]; [lia |].
    assert (Hc98 : c + 52 < 2098).
    { destruct (Z_lt_ge_dec (c + 52) 2098) as [| Hge]; [assumption | exfalso].
      assert (Hp : 2 ^ 2098 <= 2 ^ (c + 52)) by (apply Z.pow_le_mono_r; lia).
      rewrite Zle_Qle in Hp.
      assert (Hq : (inject_Z (2 ^ 2098 - 2 ^ 2044) < inject_Z (2 ^ 2098))%Q)
        by (rewrite <- Zlt_Qlt; reflexivity).
      lra. }
    assert (c = 2045) by lia. subst c.
    destruct (Z.eq_dec n (2 ^ 53)) as [-> | Hne].
    + exfalso.
      assert (E : (2 * inject_Z (2 ^ 2098 - 2 ^ 2044) + inject_Z (2 ^ 2045)
                   == 2 * inject_Z (2 ^ 53 * 2 ^ 2045))%Q).
      { change 2%Q with (inject_Z 2).
        rewrite <- !inject_Z_mult, <- inject_Z_plus.
        apply (proj2 (inject_Z_injective _ _)). reflexivity. }
      lra.
    + change (2 ^ 2098) with (2 ^ 53 * 2 ^ 2045).
      pose proof (pow2_pos 2045 ltac:(lia)). nia.
Qed.

Lemma rounds_rel (u : Q) (z : Z) :
  rounds u z -> (inject_Z (2 ^ 53) <= u)%Q ->
  (inject_Z (2 ^ 53) * (inject_Z z - u) <= u /\
   inject_Z (2 ^ 53) * (u - inject_Z z) <= u)%Q.
Proof.
  intros (n & c & Hn & Hc & -> & Hgrid & (H1 & H2) & _) Hu.
  destruct Hgrid as [(-> & H) | (Hc0 & Hlow & _)]; [lra |].
  destruct (grid_split c Hc) as (G52 & _). rewrite G52 in Hlow.
  pose proof (inject_pow2_pos c Hc) as HP.
  assert (E : (inject_Z (2 ^ 53) == 2 * inject_Z (2 ^ 52))%Q) by reflexivity.
  assert (HT : (0 < inject_Z (2 ^ 52))%Q) by reflexivity.
  rewrite E.
  set (P := inject_Z (2 ^ c)) in *. set (zz := inject_Z (n * 2 ^ c)) in *.
  set (T := inject_Z (2 ^ 52)) in *.
  split.
  - assert (T * (2 * (zz - u)) <= T * P)%Q
      by (apply Qmult_le_l; [exact HT | lra]).
    lra.
  - assert (T * (2 * (u - zz)) <= T * P)%Q
      by (apply Qmult_le_l; [exact HT | lra]).
    lra.
Qed.

(** A rounding below the overflow threshold is finite. *)
Lemma Rnd_fin_bound (x : float) (u : Q) :
  Rnd x u -> (u < inject_Z (2 ^ 2098 - 2 ^ 2044))%Q ->
  fin x = true /\ rounds u (F2Z x).
Proof.
  intros (z & Hz & Hr) Hu.
  pose proof (rounds_below_overflow u z Hz Hu) as Hlt.
  destruct Hr as (_ & [(_ & Hf & Hunits) | (Hge & _)]); [| lia].
  unfold fin, F2Z. rewrite Hunits. split; assumption.
Qed.

Lemma Rnd_rel (x : float) (u : Q) :
  Rnd x u -> fin x = true -> (inject_Z (2 ^ 53) <= u)%Q ->
  (inject_Z (2 ^ 53) * (inject_Z (F2Z x) - u) <= u /\
   inject_Z (2 ^ 53) * (u - inject_Z (F2Z x)) <= u)%Q.
Proof.
  intros H Hx Hu. apply rounds_rel; [| exact Hu].
  apply Rnd_value; assumption.
Qed.

(** *** Integers *)

Lemma of_int_fin (k : Z) :
  0 <= k < 2 ^ 1024 - 2 ^ 970 ->
  fin (Z2float k) = true /\
  rounds (inject_Z (k * 2 ^ 1074)) (F2Z (Z2float k)).
Proof.
  intros (Hk & Hlt). apply Rnd_fin_bound; [apply Rnd_of_int; exact Hk |].
  rewrite <- Zlt_Qlt.
  change (2 ^ 2098 - 2 ^ 2044) with ((2 ^ 1024 - 2 ^ 970) * 2 ^ 1074).
  apply Z.mul_lt_mono_pos_r; [reflexivity | exact Hlt].
Qed.

Lemma of_int_mono (k k' : Z) :
  0 <= k <= k' -> k' < 2 ^ 1024 - 2 ^ 970 ->
  fin (Z2float k) = true /\ fin (Z2float k') = true /\
  F2Z (Z2float k) <= F2Z (Z2float k').
Proof.
  intros (Hk & Hle) Hlt.
  destruct (of_int_fin k ltac:(lia)) as (Hf & Hr).
  destruct (of_int_fin k' ltac:(lia)) as (Hf' & Hr').
  split; [exact Hf |]. split; [exact Hf' |].
  apply (rounds_mono _ _ _ _ Hr Hr').
  rewrite <- Zle_Qle. apply Z.mul_le_mono_nonneg_r; [| exact Hle].
  apply Z.lt_le_incl. reflexivity.
Qed.

Lemma of_int_pos (k : Z) :
  0 < k < 2 ^ 1024 - 2 ^ 970 -> 0 < F2Z (Z2float k).
Proof.
  intros (Hk & Hlt).
  destruct (of_int_fin k ltac:(lia)) as (_ & Hr).
  assert (H1 : rounds (inject_Z (1 * 2 ^ 1074)) (2 ^ 1074)).
  { exact (rounds_self (S754_finite false 4503599627370496 (-52))
                       eq_refl eq_refl). }
  pose proof (rounds_mono _ _ _ _ H1 Hr) as H.
  assert (0 < 2 ^ 1074) by reflexivity.
  assert (inject_Z (1 * 2 ^ 1074) <= inject_Z (k * 2 ^ 1074))%Q.
  { rewrite <- Zle_Qle. apply Z.mul_le_mono_nonneg_r; lia. }
  specialize (H H2). lia.
Qed.

End FloatTheory.


(** ** Signs

    Rounding does not look at the sign: changing the sign of an operand of a
    product or of a quotient changes the sign of the result. *)

Section FloatSigns.

Local Open Scope Z_scope.






End FloatSigns.
(** ** The exception monad *)

Lemma bind_Ok_inv {A B : Type} (m : res A) (k : A -> res B) (b : B) :
  bind m k = Ok b -> exists a, m = Ok a /\ k a = Ok b.
Proof.
  destruct m as [a | e]; simpl; intros H; [eauto | discriminate].
Qed.

Ltac bind_inv H :=
  let a := fresh "v" in
  let Ha := fresh "E" in
  apply bind_Ok_inv in H; destruct H as (a & Ha & H).

Lemma mapM_length {A B : Type} (f : A -> res B) (l : list A) (bs : list B) :
  mapM f l = Ok bs -> List.length bs = List.length l.
Proof.
  revert bs; induction l as [| a l IH]; simpl; intros bs H.
  - injection H as <-. reflexivity.
  - bind_inv H. bind_inv H. injection H as <-. simpl. f_equal. auto.
Qed.

Lemma mapM_nth {A B : Type} (f : A -> res B) (l : list A) (bs : list B)
  (k : nat) (a : A) :
  mapM f l = Ok bs -> nth_error l k = Some a ->
  exists b, nth_error bs k = Some b /\ f a = Ok b.
Proof.
  revert bs k; induction l as [| x l IH]; simpl; intros bs k H Hk.
  - destruct k; discriminate.
  - bind_inv H. bind_inv H. injection H as <-.
    destruct k as [| k]; simpl in *.
    + injection Hk as ->. eauto.
    + eauto.
Qed.

Lemma mapM_total {A B : Type} (f : A -> res B) (l : list A) :
  (forall a, In a l -> exists b, f a = Ok b) -> exists bs, mapM f l = Ok bs.
Proof.
  induction l as [| x l IH]; simpl; intros H.
  - eauto.
  - destruct (H x) as (b & Hb); [auto |].
    destruct IH as (bs & Hbs); [auto |].
    rewrite Hb, Hbs. simpl. eauto.
Qed.

Lemma mapM_spec {A B : Type} (f : A -> res B) (P : A -> B -> Prop)
  (l : list A) :
  (forall a, In a l -> exists b, f a = Ok b /\ P a b) ->
  exists bs, mapM f l = Ok bs /\ Forall2 P l bs.
Proof.
  induction l as [| x l IH]; simpl; intros H.
  - exists []. split; [reflexivity | constructor].
  - destruct (H x) as (b & Hb & Pb); [auto |].
    destruct IH as (bs & Hbs & Pbs); [auto |].
    rewrite Hb, Hbs. simpl. exists (b :: bs).
    split; [reflexivity | constructor; assumption].
Qed.

Lemma Forall2_nth {A B : Type} (P : A -> B -> Prop) (l : list A)
  (bs : list B) (k : nat) (a : A) :
  Forall2 P l bs -> nth_error l k = Some a ->
  exists b, nth_error bs k = Some b /\ P a b.
Proof.
  intros H. revert k. induction H as [| x y l bs Hxy H IH]; intros k Hk.
  - destruct k; discriminate.
  - destruct k as [| k]; simpl in *.
    + injection Hk as ->. eauto.
    + eauto.
Qed.

Lemma Forall2_length_eq {A B : Type} (P : A -> B -> Prop) (l : list A)
  (bs : list B) :
  Forall2 P l bs -> List.length bs = List.length l.
Proof. induction 1; simpl; congruence. Qed.

Lemma Forall2_constant {A B C : Type} (g : B -> C) (c : C) (l : list A)
  (bs : list B) :
  Forall2 (fun _ b => g b = c) l bs -> map g bs = repeat c (List.length l).
Proof. induction 1; simpl; congruence. Qed.

Lemma nth_error_eq_lists {A : Type} (l l' : list A) :
  List.length l = List.length l' ->
  (forall (k : nat) (y y' : A),
     nth_error l k = Some y -> nth_error l' k = Some y' -> y = y') ->
  l = l'.
Proof.
  revert l'; induction l as [| x l IH]; intros [| x' l'] Hlen H;
    try discriminate; [reflexivity |].
  f_equal.
  - apply (H 0%nat); reflexivity.
  - apply IH; [simpl in Hlen; congruence |].
    intros k y y' Hy Hy'. apply (H (S k)); assumption.
Qed.

Lemma nth_error_in_range {A : Type} (l : list A) (n k : nat) :
  List.length l = n -> (k < n)%nat -> exists x, nth_error l k = Some x.
Proof.
  intros Hlen Hk. destruct (nth_error l k) as [x |] eqn:E; [eauto |].
  apply nth_error_None in E. lia.
Qed.

Lemma nth_error_lt {A : Type} (l : list A) (n k : nat) (x : A) :
  List.length l = n -> nth_error l k = Some x -> (k < n)%nat.
Proof.
  intros Hlen Hk. rewrite <- Hlen. apply nth_error_Some. congruence.
Qed.

Arguments nth_error_in_range {A l n k} _ _.
Arguments nth_error_lt {A l n k x} _ _.
(** ** The formula engine *)

Section Engine.

Context {F : Type} {AF : Arith F} {AS : ArithSpec F}.
Local Open Scope py_scope.

Lemma fits_100 : int_fits 100 = true.
Proof. apply small_int_fits. cbn. lia. Qed.

Lemma fits_1 : int_fits 1 = true.
Proof. apply small_int_fits. cbn. lia. Qed.

Lemma fits_7758 : int_fits 7758 = true.
Proof. apply small_int_fits. cbn. lia. Qed.

(** A percentage divided by [100]: no exception, and the kind of the
    percentage. *)
Lemma percent_py (x : F) :
  truediv (PyFloat x) (PyInt 100) = Ok (PyFloat (fraction x)).
Proof.
  unfold truediv. simpl. rewrite fits_100. simpl.
  rewrite hundred_not_zero. reflexivity.
Qed.

Lemma percent_np (x : F) :
  truediv (NpFloat x) (PyInt 100) = Ok (NpFloat (fraction x)).
Proof. unfold truediv. simpl. rewrite fits_100. reflexivity. Qed.

Lemma one_minus_py (x : F) :
  sub (PyInt 1) (PyFloat x) = Ok (PyFloat (fsub (of_int 1) x)).
Proof. unfold sub, arith. simpl. rewrite fits_1. reflexivity. Qed.

Lemma one_minus_np (x : F) :
  sub (PyInt 1) (NpFloat x) = Ok (NpFloat (fsub (of_int 1) x)).
Proof. unfold sub, arith. simpl. rewrite fits_1. reflexivity. Qed.

(** The engine on the values of the form, step by step. *)
Lemma calculate_form (a h : Z) (por ws fvf rf : F) :
  int_fits (7758 * a * h) = true ->
  is_zero fvf = false ->
  let o := volumetric (of_int (7758 * a * h)) (fraction por) (fraction ws)
                      fvf in
  calculate (form a h por ws fvf rf)
  = Ok {| porosity_decimal := PyFloat (fraction por);
          water_saturation_decimal := PyFloat (fraction ws);
          recovery_factor_decimal := PyFloat (fraction rf);
          ooip := PyFloat o;
          recoverable_reserves := PyFloat (fmul o (fraction rf)) |}.
Proof.
  intros Hfit Hz. unfold calculate, form. cbn [area thickness porosity
    water_saturation oil_fvf recovery_factor].
  unfold binop at 1. cbn [bind]. rewrite percent_py. cbn [bind].
  unfold binop at 1. cbn [bind]. rewrite percent_py. cbn [bind].
  unfold binop at 1. cbn [bind]. rewrite percent_py. cbn [bind].
  unfold binop. cbn [bind]. rewrite one_minus_py. cbn [bind].
  unfold mul, arith, truediv. cbn [bind to_float is_np orb float_of].
  rewrite Hfit. cbn [bind]. rewrite Hz. reflexivity.
Qed.

(** A zero oil FVF: the division of line 124 raises. *)
Lemma calculate_zero_fvf (a h : Z) (por ws fvf rf : F) :
  int_fits (7758 * a * h) = true ->
  is_zero fvf = true ->
  calculate (form a h por ws fvf rf) = Raise ZeroDivisionError.
Proof.
  intros Hfit Hz. unfold calculate, form. cbn [area thickness porosity
    water_saturation oil_fvf recovery_factor].
  unfold binop at 1. cbn [bind]. rewrite percent_py. cbn [bind].
  unfold binop at 1. cbn [bind]. rewrite percent_py. cbn [bind].
  unfold binop at 1. cbn [bind]. rewrite percent_py. cbn [bind].
  unfold binop. cbn [bind]. rewrite one_minus_py. cbn [bind].
  unfold mul, arith, truediv. cbn [bind to_float is_np orb float_of].
  rewrite Hfit. cbn [bind]. rewrite Hz. reflexivity.
Qed.

(** C1. For the values of the form with [oil_fvf > 0] (and an integer
    product [7758 * area * thickness] that converts to a float) the engine
    returns [ooip = 7758 * area * thickness * porosity * (1 - water_saturation)
    / oil_fvf] on the fractions [percent / 100], and
    [recoverable = ooip * recovery_factor], with exactly these operations in
    this order. *)
Theorem formula_engine_exact (a h : Z) (por ws fvf rf : F) :
  int_fits (7758 * a * h) = true ->
  fltb (of_int 0) fvf = true ->
  exists r : Results F,
    calculate (form a h por ws fvf rf) = Ok r /\
    ooip r = PyFloat (volumetric (of_int (7758 * a * h)) (fraction por)
                                 (fraction ws) fvf) /\
    recoverable_reserves r
    = PyFloat (fmul (value_of (ooip r)) (fraction rf)).
Proof.
  intros Hfit Hpos. apply positive_not_zero in Hpos.
  eexists. split; [apply calculate_form; assumption |].
  split; reflexivity.
Qed.

(** The page with a zero oil FVF: the exception of line 124 ends the run
    before any tab is computed. *)
Lemma page_zero_fvf (a h : Z) (por ws fvf rf : F)
  (param_to_analyze param1 param2 : Param) :
  int_fits (7758 * a * h) = true ->
  is_zero fvf = true ->
  page (form a h por ws fvf rf) param_to_analyze param1 param2
  = Raise ZeroDivisionError.
Proof.
  intros Hfit Hz. unfold page.
  rewrite calculate_zero_fvf by assumption. reflexivity.
Qed.

(** No validation, in every arithmetic: a negative oil FVF goes through like
    any other non-zero value, a zero raises. *)
Lemma no_validation_form (a h : Z) (por ws fvf rf : F) :
  int_fits (7758 * a * h) = true ->
  (fltb fvf (of_int 0) = true ->
   exists r : Results F,
     calculate (form a h por ws fvf rf) = Ok r /\
     ooip r = PyFloat (volumetric (of_int (7758 * a * h)) (fraction por)
                                  (fraction ws) fvf) /\
     recoverable_reserves r
     = PyFloat (fmul (value_of (ooip r)) (fraction rf))) /\
  (is_zero fvf = true ->
   calculate (form a h por ws fvf rf) = Raise ZeroDivisionError).
Proof.
  intros Hfit. split.
  - intros Hneg. apply negative_not_zero in Hneg.
    eexists. split; [apply calculate_form; assumption |].
    split; reflexivity.
  - intros Hz. apply calculate_zero_fvf; assumption.
Qed.

End Engine.

Example reference_case :
  fmap (fun r => (ooip r, recoverable_reserves r)) (calculate reference)
  = Ok (PyFloat 44757692.307692304%float, PyFloat 13427307.69230769%float).
Proof. vm_compute. reflexivity. Qed.

Lemma formula_engine_exact_witness :
  int_fits (F := float) (7758 * 1000 * 50) = true /\
  fltb (of_int 0) 1.3%float = true /\
  exists r : Results float,
    calculate reference = Ok r /\
    ooip r = PyFloat (volumetric (of_int (7758 * 1000 * 50)) (fraction 20)
                                 (fraction 25) 1.3)%float /\
    recoverable_reserves r
    = PyFloat (fmul (value_of (ooip r)) (fraction 30%float)).
Proof.
  split; [vm_compute; reflexivity |].
  split; [vm_compute; reflexivity |].
  apply (formula_engine_exact (F := float) 1000 50 20 25 1.3 30)%float;
    vm_compute; reflexivity.
Defined.

(** Against the claim as first stated: a negative oil FVF goes through the
    engine and comes back as a negative OOIP, no error. *)
Lemma negative_fvf_accepted :
  PrimFloat.leb (-1.3) 0 = true /\
  fmap (fun r => (ooip r, recoverable_reserves r))
       (calculate (form 1000 50 20 25 (-1.3) 30)%float)
  = Ok (PyFloat (-44757692.307692304)%float,
        PyFloat (-13427307.69230769)%float).
Proof. split; vm_compute; reflexivity. Qed.

(** ** The formula in exact arithmetic *)

Section ExactEngine.

Local Open Scope Q_scope.

Lemma Qdiv_100 (x : Q) : x / 100 = x * (1 # 100).
Proof. reflexivity. Qed.

Lemma exact_not_zero (x : Q) : ~ x == 0 -> is_zero (F := Q) x = false.
Proof. apply Qeq_bool_false. Qed.

(** The OOIP of the form values as a rational number. *)
Lemma returned_ooip_exact (a h : Z) (por ws fvf rf : Q) :
  ~ fvf == 0 ->
  returned_ooip (form a h por ws fvf rf)
  = Some (inject_Z (7758 * a * h) * (por / 100) * (1 - ws / 100) / fvf).
Proof.
  intros Hf. unfold returned_ooip.
  rewrite calculate_form by (reflexivity || (apply exact_not_zero; exact Hf)).
  reflexivity.
Qed.

Lemma product_positive (a h : Z) :
  (0 < a)%Z -> (0 < h)%Z -> 0 < inject_Z (7758 * a * h).
Proof.
  intros Ha Hh. change 0 with (inject_Z 0). rewrite <- Zlt_Qlt. nia.
Qed.

Lemma numerator_positive (k por ws : Q) :
  0 < k -> 0 < por -> ws < 100 -> 0 < k * (por / 100) * (1 - ws / 100).
Proof.
  intros Hk Hp Hw. rewrite !Qdiv_100.
  repeat apply Qmult_lt_0_compat; lra.
Qed.

Lemma ooip_decreasing_fvf (k por ws f f' : Q) :
  0 < k -> 0 < por -> ws < 100 -> 0 < f -> f < f' ->
  k * (por / 100) * (1 - ws / 100) / f'
  < k * (por / 100) * (1 - ws / 100) / f.
Proof.
  intros Hk Hp Hw Hf Hff.
  pose proof (numerator_positive _ _ _ Hk Hp Hw) as Hn.
  unfold Qdiv at 1 4. apply Qmult_lt_l; [exact Hn |].
  apply -> Qinv_lt_contravar; [exact Hff | lra | exact Hf].
Qed.

Lemma ooip_decreasing_ws (k por ws ws' f : Q) :
  0 < k -> 0 < por -> 0 < f -> ws < ws' ->
  k * (por / 100) * (1 - ws' / 100) / f
  < k * (por / 100) * (1 - ws / 100) / f.
Proof.
  intros Hk Hp Hf Hw. rewrite !Qdiv_100.
  unfold Qdiv. apply Qmult_lt_r; [apply Qinv_lt_0_compat; exact Hf |].
  apply Qmult_lt_l; [apply Qmult_lt_0_compat; lra | lra].
Qed.

Lemma ooip_increasing_product (k k' por ws f : Q) :
  k < k' -> 0 < por -> ws < 100 -> 0 < f ->
  k * (por / 100) * (1 - ws / 100) / f
  < k' * (por / 100) * (1 - ws / 100) / f.
Proof.
  intros Hk Hp Hw Hf. rewrite !Qdiv_100.
  unfold Qdiv. apply Qmult_lt_r; [apply Qinv_lt_0_compat; exact Hf |].
  apply Qmult_lt_r; [lra |].
  apply Qmult_lt_r; [lra | exact Hk].
Qed.

Lemma ooip_increasing_porosity (k por por' ws f : Q) :
  0 < k -> por < por' -> ws < 100 -> 0 < f ->
  k * (por / 100) * (1 - ws / 100) / f
  < k * (por' / 100) * (1 - ws / 100) / f.
Proof.
  intros Hk Hp Hw Hf. rewrite !Qdiv_100.
  unfold Qdiv. apply Qmult_lt_r; [apply Qinv_lt_0_compat; exact Hf |].
  apply Qmult_lt_r; [lra |].
  apply Qmult_lt_l; [exact Hk | lra].
Qed.

Lemma positive_not_eq_zero (x : Q) : 0 < x -> ~ x == 0.
Proof. intros H E. rewrite E in H. revert H. apply Qlt_irrefl. Qed.

(** In exact arithmetic and on valid inputs, the OOIP the engine returns is
    strictly decreasing in the oil FVF and in the water saturation, strictly
    increasing in the area, the thickness and the porosity, and does not
    depend on the recovery factor. *)
Lemma ooip_strictly_monotone_exact (a h : Z) (por ws fvf rf : Q) :
  form_valid a h por ws fvf rf ->
  exists o : Q,
    returned_ooip (form a h por ws fvf rf) = Some o /\
    (forall fvf' : Q, form_valid a h por ws fvf' rf -> fvf < fvf' ->
       exists o', returned_ooip (form a h por ws fvf' rf) = Some o' /\
                  o' < o) /\
    (forall ws' : Q, form_valid a h por ws' fvf rf -> ws < ws' ->
       exists o', returned_ooip (form a h por ws' fvf rf) = Some o' /\
                  o' < o) /\
    (forall a' : Z, form_valid a' h por ws fvf rf -> (a < a')%Z ->
       exists o', returned_ooip (form a' h por ws fvf rf) = Some o' /\
                  o < o') /\
    (forall h' : Z, form_valid a h' por ws fvf rf -> (h < h')%Z ->
       exists o', returned_ooip (form a h' por ws fvf rf) = Some o' /\
                  o < o') /\
    (forall por' : Q, form_valid a h por' ws fvf rf -> por < por' ->
       exists o', returned_ooip (form a h por' ws fvf rf) = Some o' /\
                  o < o') /\
    (forall rf' : Q, returned_ooip (form a h por ws fvf rf') = Some o).
Proof.
  intros (Ha & Hh & (Hp & Hp') & (Hw & Hw') & Hf & Hr).
  pose proof (product_positive _ _ Ha Hh) as Hk.
  pose proof (positive_not_eq_zero _ Hf) as Hf0.
  eexists. split; [apply returned_ooip_exact; exact Hf0 |].
  repeat split.
  - intros fvf' (_ & _ & _ & _ & Hf' & _) Hlt.
    eexists. split;
      [apply returned_ooip_exact, positive_not_eq_zero; exact Hf' |].
    apply ooip_decreasing_fvf; assumption.
  - intros ws' _ Hlt.
    eexists. split; [apply returned_ooip_exact; exact Hf0 |].
    apply ooip_decreasing_ws; assumption.
  - intros a' _ Hlt.
    eexists. split; [apply returned_ooip_exact; exact Hf0 |].
    apply ooip_increasing_product; try assumption.
    rewrite <- Zlt_Qlt. nia.
  - intros h' _ Hlt.
    eexists. split; [apply returned_ooip_exact; exact Hf0 |].
    apply ooip_increasing_product; try assumption.
    rewrite <- Zlt_Qlt. nia.
  - intros por' _ Hlt.
    eexists. split; [apply returned_ooip_exact; exact Hf0 |].
    apply ooip_increasing_porosity; assumption.
  - intros rf'. apply returned_ooip_exact; exact Hf0.
Qed.

End ExactEngine.

(** Rounding.  In binary64 two oil FVF one unit in the last place apart,
    1.7000000000000002 and 1.7000000000000004, give the same OOIP
    34226470.58823529 for the other inputs of the reference case: the two
    quotients round to the same double.  The order of the returned floats is
    not strict. *)
Lemma binary64_ooip_tie :
  PrimFloat.ltb 0x1.b333333333334p+0 0x1.b333333333335p+0 = true /\
  returned_ooip (form 1000 50 20 25 0x1.b333333333334p+0 30)%float
  = Some 0x1.0520934b4b4b4p+25%float /\
  returned_ooip (form 1000 50 20 25 0x1.b333333333335p+0 30)%float
  = Some 0x1.0520934b4b4b4p+25%float.
Proof. repeat split; vm_compute; reflexivity. Qed.

(** ** numpy.linspace *)

Section Linspace.

Context {F : Type} {AF : Arith F}.

Lemma linspace_samples (start stop : F) (n : nat) :
  linspace start stop n
  = let y := map (linspace_sample start stop n) (seq 0 n) in
    if (1 <? n)%nat
    then removelast y ++ [fmul stop (of_decimal 1 1)]
    else y.
Proof.
  unfold linspace, arange, linspace_sample. cbv zeta.
  assert (E : forall l : list nat,
    map (fun v => fadd v (fmul start (of_decimal 1 1)))
      (if (0 <? Z.of_nat n - 1)%Z
       then
         if is_zero (fdiv (fsub (fmul stop (of_decimal 1 1))
                                (fmul start (of_decimal 1 1)))
                          (of_int (Z.of_nat n - 1)))
         then map (fun v => fmul (fdiv v (of_int (Z.of_nat n - 1)))
                              (fsub (fmul stop (of_decimal 1 1))
                                    (fmul start (of_decimal 1 1))))
                  (map (fun k => of_int (Z.of_nat k)) l)
         else map (fun v => fmul v
                    (fdiv (fsub (fmul stop (of_decimal 1 1))
                                (fmul start (of_decimal 1 1)))
                          (of_int (Z.of_nat n - 1))))
                  (map (fun k => of_int (Z.of_nat k)) l)
       else map (fun v => fmul v (fsub (fmul stop (of_decimal 1 1))
                                       (fmul start (of_decimal 1 1))))
                (map (fun k => of_int (Z.of_nat k)) l))
    = map (fun k =>
        fadd (if (0 <? Z.of_nat n - 1)%Z
              then
                if is_zero (fdiv (fsub (fmul stop (of_decimal 1 1))
                                       (fmul start (of_decimal 1 1)))
                                 (of_int (Z.of_nat n - 1)))
                then fmul (fdiv (of_int (Z.of_nat k))
                                (of_int (Z.of_nat n - 1)))
                          (fsub (fmul stop (of_decimal 1 1))
                                (fmul start (of_decimal 1 1)))
                else fmul (of_int (Z.of_nat k))
                          (fdiv (fsub (fmul stop (of_decimal 1 1))
                                      (fmul start (of_decimal 1 1)))
                                (of_int (Z.of_nat n - 1)))
              else fmul (of_int (Z.of_nat k))
                        (fsub (fmul stop (of_decimal 1 1))
                              (fmul start (of_decimal 1 1))))
             (fmul start (of_decimal 1 1))) l).
  { intros l.
    destruct (0 <? Z.of_nat n - 1)%Z;
      [destruct (is_zero _) |]; rewrite !map_map; reflexivity. }
  rewrite E. reflexivity.
Qed.

Lemma linspace_length (start stop : F) (n : nat) :
  List.length (linspace start stop n) = n.
Proof.
  rewrite linspace_samples. cbv zeta.
  destruct (1 <? n)%nat eqn:E.
  - apply Nat.ltb_lt in E.
    rewrite length_app, removelast_firstn_len, length_firstn, length_map,
      length_seq. simpl. lia.
  - rewrite length_map, length_seq. reflexivity.
Qed.

(** With at least two samples: the last is [stop], the others are the
    computed samples. *)
Lemma linspace_nth (start stop : F) (n k : nat) :
  (1 < n)%nat -> (k < n)%nat ->
  nth_error (linspace start stop n) k
  = Some (if (k =? n - 1)%nat then fmul stop (of_decimal 1 1)
          else linspace_sample start stop n k).
Proof.
  intros Hn Hk. rewrite linspace_samples. cbv zeta.
  apply Nat.ltb_lt in Hn as E. rewrite E.
  assert (L : List.length
                (removelast (map (linspace_sample start stop n) (seq 0 n)))
              = (n - 1)%nat).
  { rewrite removelast_firstn_len, length_firstn, length_map, length_seq.
    lia. }
  destruct (k =? n - 1)%nat eqn:Ek.
  - apply Nat.eqb_eq in Ek. subst k.
    rewrite nth_error_app2 by lia. rewrite L, Nat.sub_diag. reflexivity.
  - apply Nat.eqb_neq in Ek.
    rewrite nth_error_app1 by lia.
    rewrite removelast_firstn_len, nth_error_firstn, length_map, length_seq.
    assert (Ek' : (k <? Nat.pred n)%nat = true) by (apply Nat.ltb_lt; lia).
    rewrite Ek', nth_error_map, nth_error_seq.
    apply Nat.ltb_lt in Hk as ->. reflexivity.
Qed.

End Linspace.

(** ** Tab 1: the sweep *)

Section SweepGeneric.

Context {F : Type} {AF : Arith F} {AS : ArithSpec F}.
Local Open Scope py_scope.

Lemma widget_fits (a h : Z) :
  widget_ints a h ->
  int_fits a = true /\ int_fits h = true /\ int_fits (7758 * a) = true /\
  int_fits (7758 * a * h) = true.
Proof.
  intros ((Ha & Ha') & (Hh & Hh')).
  assert (B : (775800000000 <= 2 ^ 53)%Z) by (cbn; lia).
  repeat split; apply small_int_fits; nia.
Qed.

Lemma calculate_form_inv (a h : Z) (por ws fvf rf : F) (r : Results F) :
  widget_ints a h ->
  calculate (form a h por ws fvf rf) = Ok r ->
  is_zero fvf = false /\
  r = {| porosity_decimal := PyFloat (fraction por);
         water_saturation_decimal := PyFloat (fraction ws);
         recovery_factor_decimal := PyFloat (fraction rf);
         ooip := PyFloat (volumetric (of_int (7758 * a * h)) (fraction por)
                                     (fraction ws) fvf);
         recoverable_reserves :=
           PyFloat (fmul (volumetric (of_int (7758 * a * h)) (fraction por)
                                     (fraction ws) fvf) (fraction rf)) |}.
Proof.
  intros Hw H. destruct (widget_fits a h Hw) as (_ & _ & _ & Hfit).
  destruct (is_zero fvf) eqn:Hz.
  - rewrite calculate_zero_fvf in H by assumption. discriminate.
  - rewrite calculate_form in H by assumption. injection H as <-.
    split; reflexivity.
Qed.

End SweepGeneric.

(** Evaluation of an expression of the script: unfold the operators and
    resolve the conversions of the small integers. *)
Ltac py_eval :=
  repeat (progress (
    cbn [binop bind fmap mul sub add arith truediv to_float is_np orb
         float_of fst snd estimate value_of
         area thickness porosity water_saturation oil_fvf recovery_factor
         porosity_decimal water_saturation_decimal recovery_factor_decimal
         ooip recoverable_reserves variable with_variable form];
    rewrite ?fits_100, ?fits_1, ?fits_7758, ?hundred_not_zero)).

Section SweepPoints.

Context {F : Type} {AF : Arith F} {AS : ArithSpec F}.
Local Open Scope py_scope.

(** One pass of the loop is one run of the engine on the inputs with the
    swept variable replaced. *)
Lemma sweep_point_engine (a h : Z) (por ws fvf rf : F) (r : Results F)
  (p : Param) (x : F) :
  widget_ints a h ->
  calculate (form a h por ws fvf rf) = Ok r ->
  exists r' : Results F,
    calculate (with_variable (form a h por ws fvf rf) p (NpFloat x)) = Ok r' /\
    sweep_point (form a h por ws fvf rf) r p (NpFloat x) = Ok (estimate r').
Proof.
  intros Hw Hr.
  destruct (calculate_form_inv _ _ _ _ _ _ _ Hw Hr) as (Hz & ->).
  destruct (widget_fits a h Hw) as (Ha & Hh & Hka & Hkah).
  unfold calculate, sweep_point.
  destruct p; py_eval; rewrite ?Ha, ?Hh, ?Hka, ?Hkah; py_eval;
    rewrite ?Hz; py_eval; eexists; split; reflexivity.
Qed.

End SweepPoints.

Section SweepStructure.

Context {F : Type} {AF : Arith F} {AS : ArithSpec F}.
Local Open Scope py_scope.

Lemma per_param_Ok {A : Type} (entry : Param -> res A) (f : Param -> A) :
  (forall p, entry p = Ok (f p)) ->
  exists g, per_param entry = Ok g /\ forall p, g p = f p.
Proof.
  intros H. unfold per_param. rewrite !H. cbn [bind].
  eexists. split; [reflexivity |]. intros []; reflexivity.
Qed.

(** A widget variable times a float literal. *)
Lemma scaled_variable (a h : Z) (por ws fvf rf : F) (p : Param)
  (m : Z) (d : positive) :
  widget_ints a h ->
  binop mul (Ok (variable (form a h por ws fvf rf) p))
            (Ok (PyFloat (of_decimal m d)))
  = Ok (PyFloat (fmul (value_of (variable (form a h por ws fvf rf) p))
                      (of_decimal m d))).
Proof.
  intros Hw. destruct (widget_fits a h Hw) as (Ha & Hh & _).
  destruct p; py_eval; rewrite ?Ha, ?Hh; reflexivity.
Qed.

Lemma param_ranges_form (a h : Z) (por ws fvf rf : F) :
  widget_ints a h ->
  exists ranges,
    param_ranges (form a h por ws fvf rf) = Ok ranges /\
    forall p,
      ranges p
      = linspace (fmul (value_of (variable (form a h por ws fvf rf) p))
                       (sweep_low p))
                 (fmul (value_of (variable (form a h por ws fvf rf) p))
                       (sweep_high p))
                 100.
Proof.
  intros Hw. unfold param_ranges. apply per_param_Ok.
  intros p. unfold np_linspace.
  destruct p; rewrite !scaled_variable by exact Hw; reflexivity.
Qed.

(** The sweep runs to its end; it has one hundred points, and each point is
    the engine run on the inputs with the swept variable replaced. *)
Lemma sweep_structure (a h : Z) (por ws fvf rf : F) (r : Results F)
  (p : Param) :
  widget_ints a h ->
  calculate (form a h por ws fvf rf) = Ok r ->
  exists s : Sweep F,
    sensitivity (form a h por ws fvf rf) r p = Ok s /\
    sweep_values s
    = linspace (fmul (value_of (variable (form a h por ws fvf rf) p))
                     (sweep_low p))
               (fmul (value_of (variable (form a h por ws fvf rf) p))
                     (sweep_high p))
               100 /\
    List.length (sweep_values s) = 100%nat /\
    List.length (ooip_values s) = 100%nat /\
    List.length (recoverable_values s) = 100%nat /\
    forall (k : nat) (x : F),
      nth_error (sweep_values s) k = Some x ->
      exists r' : Results F,
        calculate (with_variable (form a h por ws fvf rf) p (NpFloat x))
        = Ok r' /\
        nth_error (ooip_values s) k = Some (ooip r') /\
        nth_error (recoverable_values s) k = Some (recoverable_reserves r').
Proof.
  intros Hw Hr.
  destruct (param_ranges_form a h por ws fvf rf Hw) as (ranges & Eranges & Hranges).
  destruct (mapM_total
              (fun value => sweep_point (form a h por ws fvf rf) r p
                                        (NpFloat value))
              (ranges p)) as (points & Epoints).
  { intros x _.
    destruct (sweep_point_engine a h por ws fvf rf r p x Hw Hr)
      as (r' & _ & E).
    eauto. }
  unfold sensitivity. rewrite Eranges. cbn [bind]. rewrite Epoints.
  cbn [bind]. eexists. split; [reflexivity |].
  cbn [sweep_values ooip_values recoverable_values].
  pose proof (mapM_length _ _ _ Epoints) as Hlen.
  rewrite !length_map, Hlen, Hranges, linspace_length.
  repeat split; try reflexivity.
  intros k x Hk. rewrite <- Hranges in Hk.
  destruct (mapM_nth _ _ _ k x Epoints Hk) as (b & Hb & Eb).
  destruct (sweep_point_engine a h por ws fvf rf r p x Hw Hr)
    as (r' & Er' & E).
  exists r'. split; [exact Er' |].
  rewrite E in Eb. injection Eb as <-.
  rewrite !nth_error_map, Hb. split; reflexivity.
Qed.

End SweepStructure.

(** ** The sweep in exact arithmetic *)

Section SweepExact.

Local Open Scope Q_scope.

Lemma linspace_sample_exact (s e : Q) (n k : nat) :
  (1 < n)%nat ->
  linspace_sample s e n k
  == s + inject_Z (Z.of_nat k) * (e - s) / inject_Z (Z.of_nat n - 1).
Proof.
  intros Hn. unfold linspace_sample. cbv zeta.
  assert (Hd : (0 <? Z.of_nat n - 1)%Z = true) by (apply Z.ltb_lt; lia).
  rewrite Hd.
  assert (Hm : ~ inject_Z (Z.of_nat n - 1) == 0).
  { apply positive_not_eq_zero. change 0 with (inject_Z 0).
    rewrite <- Zlt_Qlt. lia. }
  cbn [fmul fadd fsub fdiv of_int of_decimal is_zero exact].
  destruct (Qeq_bool _ _); field; exact Hm.
Qed.

Lemma linspace_evenly_spaced (s e : Q) (n : nat) :
  (1 < n)%nat -> evenly_spaced (linspace s e n) s e n.
Proof.
  intros Hn. split; [apply linspace_length |].
  intros k x Hk.
  assert (Hkn : (k < n)%nat).
  { rewrite <- (linspace_length s e n). apply nth_error_Some. congruence. }
  rewrite linspace_nth in Hk by assumption. injection Hk as <-.
  destruct (k =? n - 1)%nat eqn:E.
  - apply Nat.eqb_eq in E. subst k.
    replace (Z.of_nat (n - 1)) with (Z.of_nat n - 1)%Z by lia.
    assert (Hm : ~ inject_Z (Z.of_nat n - 1) == 0).
    { apply positive_not_eq_zero. change 0 with (inject_Z 0).
      rewrite <- Zlt_Qlt. lia. }
    cbn [fmul of_decimal exact]. field. exact Hm.
  - apply linspace_sample_exact. exact Hn.
Qed.

Lemma evenly_spaced_ascending (l : list Q) (first last : Q) (n : nat) :
  (1 < n)%nat -> first <= last -> evenly_spaced l first last n ->
  ascending l.
Proof.
  intros Hn Hle (_ & H) k x y Hx Hy.
  rewrite (H _ _ Hx), (H _ _ Hy).
  assert (Hm : 0 < inject_Z (Z.of_nat n - 1)).
  { change 0 with (inject_Z 0). rewrite <- Zlt_Qlt. lia. }
  replace (Z.of_nat (S k)) with (Z.of_nat k + 1)%Z by lia.
  rewrite inject_Z_plus.
  apply Qinv_lt_0_compat in Hm.
  unfold Qdiv. set (t := / inject_Z (Z.of_nat n - 1)) in *.
  set (c := inject_Z (Z.of_nat k)).
  assert (0 <= (last - first) * t).
  { apply Qmult_le_0_compat; lra. }
  change (inject_Z 1) with 1. lra.
Qed.

Lemma evenly_spaced_spans (l : list Q) (first last : Q) (n : nat) :
  (1 < n)%nat -> evenly_spaced l first last n -> spans l first last.
Proof.
  intros Hn (Hlen & H). unfold spans. rewrite Hlen.
  destruct (nth_error l 0) as [x |] eqn:Ex;
    [| apply nth_error_None in Ex; lia].
  destruct (nth_error l (n - 1)) as [y |] eqn:Ey;
    [| apply nth_error_None in Ey; lia].
  exists x, y. repeat split.
  - rewrite (H _ _ Ex). change (inject_Z (Z.of_nat 0)) with 0.
    unfold Qdiv. lra.
  - rewrite (H _ _ Ey).
    replace (Z.of_nat (n - 1)) with (Z.of_nat n - 1)%Z by lia.
    assert (Hm : ~ inject_Z (Z.of_nat n - 1) == 0).
    { apply positive_not_eq_zero. change 0 with (inject_Z 0).
      rewrite <- Zlt_Qlt. lia. }
    field. exact Hm.
Qed.

(** The sweep values of an exact run. *)
Lemma sweep_values_exact (a h : Z) (por ws fvf rf : Q) (r : Results Q)
  (p : Param) (s : Sweep Q) :
  widget_ints a h ->
  0 <= por -> 0 <= ws -> 0 <= fvf -> 0 <= rf ->
  sensitivity (form a h por ws fvf rf) r p = Ok s ->
  let b := value_of (variable (form a h por ws fvf rf) p) in
  evenly_spaced (sweep_values s) (b * sweep_low p) (b * sweep_high p) 100 /\
  spans (sweep_values s) (b * sweep_low p) (b * sweep_high p) /\
  ascending (sweep_values s).
Proof.
  intros Hw Hp Hws Hf Hrf Hs b.
  destruct (param_ranges_form a h por ws fvf rf Hw)
    as (ranges & Eranges & Hranges).
  unfold sensitivity in Hs. rewrite Eranges in Hs. cbn [bind] in Hs.
  bind_inv Hs. injection Hs as <-. cbn [sweep_values].
  rewrite Hranges.
  pose proof (linspace_evenly_spaced (b * sweep_low p) (b * sweep_high p) 100)
    as Hev.
  assert (H100 : (1 < 100)%nat) by lia.
  specialize (Hev H100).
  split; [exact Hev |].
  split; [exact (evenly_spaced_spans _ _ _ 100 H100 Hev) |].
  apply (evenly_spaced_ascending _ (b * sweep_low p) (b * sweep_high p) 100
                                 H100); [| exact Hev].
  assert (Hb : 0 <= b).
  { destruct Hw as ((Ha & _) & (Hh & _)).
    unfold b. destruct p; cbn [variable form area thickness porosity
      water_saturation oil_fvf recovery_factor value_of of_int exact];
      try assumption;
      change 0 with (inject_Z 0); rewrite <- Zle_Qle; lia. }
  destruct p; cbn [sweep_low sweep_high of_decimal exact]; nra.
Qed.

End SweepExact.

Lemma reference_widget_ints : widget_ints 1000 50.
Proof. unfold widget_ints. lia. Defined.

(** The six sweeps of the reference case in binary64: one hundred values
    each, in ascending order, from 0.5 x base to 1.5 x base (0.8 and 1.2 for
    the oil FVF). *)
Example reference_sweeps_ascending :
  forallb reference_sweep_check
          [Area; Thickness; Porosity; WaterSaturation; OilFVF; RecoveryFactor]
  = true.
Proof. vm_compute. reflexivity. Qed.

(** ** The engine and a non-positive oil FVF *)

(** A float the oil-FVF widget lets through is neither zero nor negative. *)
Lemma oil_fvf_widget_positive (fvf : float) :
  oil_fvf_widget fvf = true ->
  PrimFloat.eqb fvf PrimFloat.zero = false /\
  PrimFloat.ltb fvf PrimFloat.zero = false /\
  PrimFloat.ltb PrimFloat.zero fvf = true.
Proof.
  unfold oil_fvf_widget, between. intros H.
  apply andb_true_iff in H as (H & _). revert H.
  rewrite leb_spec, FloatAxioms.eqb_spec, !ltb_spec.
  change (Prim2SF PrimFloat.zero) with (S754_zero false).
  change (Prim2SF 1) with (S754_finite false 4503599627370496 (-52)).
  unfold SFleb, SFeqb, SFltb.
  destruct (Prim2SF fvf) as [s | s | | s m e]; simpl;
    try destruct s; simpl; try discriminate; auto.
Qed.

(** C8 (as amended).  The engine does not validate [oil_fvf].  In every
    arithmetic a negative [oil_fvf] goes through like any other non-zero
    value: the engine returns [ooip], the quotient of the formula, and
    [recoverable = ooip * recovery_factor], no error; for [oil_fvf = 0] the
    division of line 124 raises [ZeroDivisionError].  In exact arithmetic,
    with the other inputs valid, the two figures returned for a negative
    [oil_fvf] are negative.  The only guard in the script is the oil-FVF
    widget: a float between its bounds 1.0 and 2.5 is neither zero nor
    negative, and the engine returns for it. *)
Theorem formula_engine_no_validation :
  (forall (F : Type) (AF : Arith F) (AS : ArithSpec F) (a h : Z)
          (por ws fvf rf : F),
     int_fits (7758 * a * h) = true ->
     (fltb fvf (of_int 0) = true ->
      exists r : Results F,
        calculate (form a h por ws fvf rf) = Ok r /\
        ooip r = PyFloat (volumetric (of_int (7758 * a * h)) (fraction por)
                                     (fraction ws) fvf) /\
        recoverable_reserves r
        = PyFloat (fmul (value_of (ooip r)) (fraction rf))) /\
     (is_zero fvf = true ->
      calculate (form a h por ws fvf rf) = Raise ZeroDivisionError)) /\
  (forall (a h : Z) (por ws fvf rf : Q),
     form_valid a h por ws (- fvf) rf ->
     exists r : Results Q,
       calculate (form a h por ws fvf rf) = Ok r /\
       (value_of (ooip r) < 0)%Q /\
       (value_of (recoverable_reserves r) < 0)%Q) /\
  (forall (a h : Z) (por ws fvf rf : float),
     widget_ints a h ->
     oil_fvf_widget fvf = true ->
     is_zero fvf = false /\
     fltb fvf (of_int 0) = false /\
     exists r : Results float, calculate (form a h por ws fvf rf) = Ok r).
Proof.
  split; [| split].
  - intros F AF AS a h por ws fvf rf. apply no_validation_form.
  - intros a h por ws fvf rf (Ha & Hh & (Hp & Hp') & (Hw & Hw') & Hf & Hr).
    assert (Hf0 : ~ (fvf == 0)%Q) by (intros E; rewrite E in Hf; lra).
    eexists. split.
    { apply calculate_form; [reflexivity | apply exact_not_zero; exact Hf0]. }
    cbn [ooip recoverable_reserves value_of].
    unfold volumetric, fraction. cbn [fmul fdiv fsub of_int exact].
    pose proof (numerator_positive _ por ws (product_positive _ _ Ha Hh)
                                   Hp Hw') as Hn.
    change (inject_Z 100) with 100%Q. change (inject_Z 1) with 1%Q.
    set (n := (inject_Z (7758 * a * h) * (por / 100) * (1 - ws / 100))%Q)
      in *.
    assert (Hinv : (0 < / - fvf)%Q) by (apply Qinv_lt_0_compat; exact Hf).
    assert (E : (n / fvf == - (n * / - fvf))%Q)
      by (field; exact Hf0).
    assert (Ho : (n / fvf < 0)%Q).
    { rewrite E. pose proof (Qmult_lt_0_compat _ _ Hn Hinv). lra. }
    split; [exact Ho |].
    rewrite Qdiv_100.
    assert (Hr' : (0 < rf * (1 # 100))%Q) by lra.
    set (o := (n / fvf)%Q) in *. clearbody o. nra.
  - intros a h por ws fvf rf Hw Hfvf.
    destruct (oil_fvf_widget_positive fvf Hfvf) as (Hz & Hneg & _).
    destruct (widget_fits (F := float) a h Hw) as (_ & _ & _ & Hfit).
    split; [exact Hz |]. split; [exact Hneg |].
    eexists. apply calculate_form; assumption.
Qed.

Lemma formula_engine_no_validation_witness :
  (exists r : Results float,
     calculate (form 1000 50 20 25 (-1.3) 30)%float = Ok r /\
     ooip r = PyFloat (volumetric (of_int (7758 * 1000 * 50)) (fraction 20)
                                  (fraction 25) (-1.3))%float /\
     recoverable_reserves r
     = PyFloat (fmul (value_of (ooip r)) (fraction 30%float))) /\
  calculate (form 1000 50 20 25 0 30)%float = Raise ZeroDivisionError /\
  (exists r : Results Q,
     calculate (form 1000 50 20 25 (- (13 # 10)) 30) = Ok r /\
     (value_of (ooip r) < 0)%Q /\
     (value_of (recoverable_reserves r) < 0)%Q) /\
  (is_zero 1.3%float = false /\
   fltb 1.3%float (of_int 0) = false /\
   exists r : Results float, calculate reference = Ok r).
Proof.
  split; [| split; [| split]].
  - refine (proj1 (proj1 formula_engine_no_validation float binary64
                     binary64_spec 1000%Z 50%Z 20%float 25%float
                     (-1.3)%float 30%float _) _);
      vm_compute; reflexivity.
  - refine (proj2 (proj1 formula_engine_no_validation float binary64
                     binary64_spec 1000%Z 50%Z 20%float 25%float
                     0%float 30%float _) _);
      vm_compute; reflexivity.
  - refine (proj1 (proj2 formula_engine_no_validation) 1000%Z 50%Z 20%Q 25%Q
              (- (13 # 10))%Q 30%Q _).
    unfold form_valid. repeat split; (lia || reflexivity).
  - refine (proj2 (proj2 formula_engine_no_validation) 1000%Z 50%Z 20%float
              25%float 1.3%float 30%float reference_widget_ints _).
    vm_compute. reflexivity.
Defined.

(** ** Tab 2: the tornado *)

Section TornadoGeneric.

Context {F : Type} {AF : Arith F} {AS : ArithSpec F}.
Local Open Scope py_scope.

Lemma per_param_spec {A : Type} (entry : Param -> res A)
  (P : Param -> A -> Prop) :
  (forall p, exists e, entry p = Ok e /\ P p e) ->
  exists g, per_param entry = Ok g /\ forall p, P p (g p).
Proof.
  intros H. unfold per_param.
  destruct (H Area) as (a & -> & Pa).
  destruct (H Thickness) as (h & -> & Ph).
  destruct (H Porosity) as (p & -> & Pp).
  destruct (H WaterSaturation) as (w & -> & Pw).
  destruct (H OilFVF) as (b & -> & Pb).
  destruct (H RecoveryFactor) as (f & -> & Pf).
  cbn [bind]. eexists. split; [reflexivity |].
  intros []; assumption.
Qed.

Lemma param_low_values_form (a h : Z) (por ws fvf rf : F) :
  widget_ints a h ->
  exists lows,
    param_low_values (form a h por ws fvf rf) = Ok lows /\
    forall p,
      lows p = PyFloat (fmul (value_of (variable (form a h por ws fvf rf) p))
                             (of_decimal 8 10)).
Proof.
  intros Hw. destruct (widget_fits a h Hw) as (Ha & Hh & _).
  unfold param_low_values, variation_percent. apply per_param_Ok.
  intros p. rewrite <- one_minus_variation.
  destruct p; py_eval; rewrite ?Ha, ?Hh; reflexivity.
Qed.

Lemma param_high_values_form (a h : Z) (por ws fvf rf : F) :
  widget_ints a h ->
  exists highs,
    param_high_values (form a h por ws fvf rf) = Ok highs /\
    forall p,
      highs p = PyFloat (fmul (value_of (variable (form a h por ws fvf rf) p))
                              (of_decimal 12 10)).
Proof.
  intros Hw. destruct (widget_fits a h Hw) as (Ha & Hh & _).
  unfold param_high_values, variation_percent. apply per_param_Ok.
  intros p. rewrite <- one_plus_variation.
  destruct p; py_eval; rewrite ?Ha, ?Hh; reflexivity.
Qed.

(** One pass of the tornado loop, when neither perturbed oil FVF is zero. *)
Lemma tornado_entry_form (a h : Z) (por ws fvf rf : F) (r : Results F)
  (lows highs : Param -> num F) (p : Param) :
  widget_ints a h ->
  calculate (form a h por ws fvf rf) = Ok r ->
  is_zero (fmul fvf (of_decimal 8 10)) = false ->
  is_zero (fmul fvf (of_decimal 12 10)) = false ->
  (forall q,
     lows q = PyFloat (fmul (value_of (variable (form a h por ws fvf rf) q))
                            (of_decimal 8 10))) ->
  (forall q,
     highs q = PyFloat (fmul (value_of (variable (form a h por ws fvf rf) q))
                             (of_decimal 12 10))) ->
  exists e : Tornado F,
    tornado_entry (form a h por ws fvf rf) r lows highs p = Ok e /\
    tornado_entry_spec (form a h por ws fvf rf) p e /\
    tornado_recoverable_spec r rf p e.
Proof.
  intros Hw Hr Hz8 Hz12 Hlows Hhighs.
  destruct (calculate_form_inv _ _ _ _ _ _ _ Hw Hr) as (Hz & ->).
  destruct (widget_fits a h Hw) as (Ha & Hh & Hka & Hkah).
  unfold tornado_entry_spec, tornado_recoverable_spec, perturbed, calculate,
    tornado_entry, low_factor, high_factor.
  destruct p;
    repeat (progress (py_eval;
                      rewrite ?Hlows, ?Hhighs, ?Ha, ?Hh, ?Hka, ?Hkah, ?Hz,
                        ?Hz8, ?Hz12));
    (eexists; split; [reflexivity |];
     split; [do 2 eexists; repeat split; reflexivity
            | repeat split; reflexivity]).
Qed.

(** The tornado runs to its end when neither perturbed oil FVF is zero, and
    every entry is as specified. *)
Lemma tornado_form (a h : Z) (por ws fvf rf : F) (r : Results F) :
  widget_ints a h ->
  calculate (form a h por ws fvf rf) = Ok r ->
  is_zero (fmul fvf (of_decimal 8 10)) = false ->
  is_zero (fmul fvf (of_decimal 12 10)) = false ->
  exists t : Param -> Tornado F,
    tornado (form a h por ws fvf rf) r = Ok t /\
    forall p,
      tornado_entry_spec (form a h por ws fvf rf) p (t p) /\
      tornado_recoverable_spec r rf p (t p).
Proof.
  intros Hw Hr Hz8 Hz12.
  destruct (param_low_values_form a h por ws fvf rf Hw) as (lows & El & Hl).
  destruct (param_high_values_form a h por ws fvf rf Hw) as (highs & Eh & Hh).
  unfold tornado. rewrite El, Eh. cbn [bind].
  apply per_param_spec with
    (P := fun p e => tornado_entry_spec (form a h por ws fvf rf) p e /\
                     tornado_recoverable_spec r rf p e).
  intros p.
  apply tornado_entry_form; assumption.
Qed.

End TornadoGeneric.

Section TornadoClaims.

Context {F : Type} {AF : Arith F} {AS : ArithSpec F}.

Lemma perturbed_form (a h : Z) (por ws fvf rf : F) (p : Param) (c : F) :
  perturbed (form a h por ws fvf rf) p c
  = match p with
    | Area => with_variable (form a h por ws fvf rf) Area
                            (PyFloat (fmul (of_int a) c))
    | Thickness => with_variable (form a h por ws fvf rf) Thickness
                                 (PyFloat (fmul (of_int h) c))
    | Porosity => form a h (fmul por c) ws fvf rf
    | WaterSaturation => form a h por (fmul ws c) fvf rf
    | OilFVF => form a h por ws (fmul fvf c) rf
    | RecoveryFactor => form a h por ws fvf (fmul rf c)
    end.
Proof. destruct p; reflexivity. Qed.

(** C4. With the variation 0.2 the tornado evaluates, for the oil FVF, the
    entry labelled low at base x 1.2 and the entry labelled high at base x
    0.8; for the recovery factor the recoverable figures are base OOIP times
    the perturbed recovery fraction; for every other parameter they are the
    entry's own low and high OOIP times the base recovery fraction.  (The
    loop runs to its end when neither perturbed oil FVF is zero.) *)
Theorem tornado_evaluator (a h : Z) (por ws fvf rf : F) (r : Results F) :
  widget_ints a h ->
  calculate (form a h por ws fvf rf) = Ok r ->
  is_zero (fmul fvf (of_decimal 8 10)) = false ->
  is_zero (fmul fvf (of_decimal 12 10)) = false ->
  exists t : Param -> Tornado F,
    tornado (form a h por ws fvf rf) r = Ok t /\
    (exists rl rh : Results F,
       calculate (form a h por ws (fmul fvf (of_decimal 12 10)) rf) = Ok rl /\
       ooip_low (t OilFVF) = ooip rl /\
       calculate (form a h por ws (fmul fvf (of_decimal 8 10)) rf) = Ok rh /\
       ooip_high (t OilFVF) = ooip rh) /\
    recoverable_low (t RecoveryFactor)
    = PyFloat (fmul (value_of (ooip r))
                    (fraction (fmul rf (of_decimal 8 10)))) /\
    recoverable_high (t RecoveryFactor)
    = PyFloat (fmul (value_of (ooip r))
                    (fraction (fmul rf (of_decimal 12 10)))) /\
    forall p : Param,
      p <> RecoveryFactor ->
      recoverable_low (t p)
      = PyFloat (fmul (value_of (ooip_low (t p))) (fraction rf)) /\
      recoverable_high (t p)
      = PyFloat (fmul (value_of (ooip_high (t p))) (fraction rf)).
Proof.
  intros Hw Hr Hz8 Hz12.
  destruct (tornado_form a h por ws fvf rf r Hw Hr Hz8 Hz12) as (t & Et & Ht).
  exists t. split; [exact Et |].
  split; [| split; [| split]].
  - destruct (Ht OilFVF) as ((rl & rh & El & Eh & Hl & _ & Hh & _) & _).
    rewrite perturbed_form in El, Eh.
    exists rl, rh. repeat split; assumption.
  - destruct (Ht RecoveryFactor) as (_ & _ & _ & Hl & _). exact Hl.
  - destruct (Ht RecoveryFactor) as (_ & _ & _ & _ & Hh). exact Hh.
  - intros p Hp. destruct (Ht p) as (_ & Hrec).
    destruct p; try exact Hrec. contradiction.
Qed.


End TornadoClaims.

(** The reference case in binary64: the water-saturation entry labelled low
    is above the one labelled high, the oil-FVF entries are in order. *)
Example reference_tornado_order : reference_tornado_check = true.
Proof. vm_compute. reflexivity. Qed.

Lemma tornado_evaluator_witness :
  exists t : Param -> Tornado float,
    tornado reference reference_results = Ok t /\
    (exists rl rh : Results float,
       calculate (form 1000 50 20 25 (fmul 1.3 (of_decimal 12 10)) 30)%float
       = Ok rl /\
       ooip_low (t OilFVF) = ooip rl /\
       calculate (form 1000 50 20 25 (fmul 1.3 (of_decimal 8 10)) 30)%float
       = Ok rh /\
       ooip_high (t OilFVF) = ooip rh) /\
    recoverable_low (t RecoveryFactor)
    = PyFloat (fmul (value_of (ooip reference_results))
                    (fraction (fmul 30%float (of_decimal 8 10)))) /\
    recoverable_high (t RecoveryFactor)
    = PyFloat (fmul (value_of (ooip reference_results))
                    (fraction (fmul 30%float (of_decimal 12 10)))) /\
    forall p : Param,
      p <> RecoveryFactor ->
      recoverable_low (t p)
      = PyFloat (fmul (value_of (ooip_low (t p))) (fraction 30%float)) /\
      recoverable_high (t p)
      = PyFloat (fmul (value_of (ooip_high (t p))) (fraction 30%float)).
Proof.
  apply (tornado_evaluator (F := float) 1000%Z 50%Z 20%float 25%float
                           1.3%float 30%float reference_results).
  - exact reference_widget_ints.
  - vm_compute. reflexivity.
  - vm_compute. reflexivity.
  - vm_compute. reflexivity.
Defined.

(** ** The tornado in exact arithmetic *)

Section TornadoExact.

Local Open Scope Q_scope.


Lemma scaled_not_zero (x c : Q) : 0 < x -> 0 < c -> ~ x * c == 0.
Proof.
  intros Hx Hc. apply positive_not_eq_zero. apply Qmult_lt_0_compat; assumption.
Qed.


End TornadoExact.

Lemma reference_exact_valid : form_valid 1000 50 20 25 (13 # 10) 30.
Proof. unfold form_valid. repeat split; (lia || reflexivity). Defined.


(** ** Tab 3: the matrix *)

Section MatrixGeneric.

Context {F : Type} {AF : Arith F} {AS : ArithSpec F}.
Local Open Scope py_scope.

Lemma matrix_range_form (a h : Z) (por ws fvf rf : F) (p : Param) :
  widget_ints a h ->
  matrix_range (form a h por ws fvf rf) p
  = Ok (linspace (fmul (value_of (variable (form a h por ws fvf rf) p))
                       (of_decimal 8 10))
                 (fmul (value_of (variable (form a h por ws fvf rf) p))
                       (of_decimal 12 10))
                 10).
Proof.
  intros Hw. unfold matrix_range, np_linspace.
  rewrite !scaled_variable by exact Hw. reflexivity.
Qed.

(** One pass of the inner loop. *)
Lemma matrix_cell_form (a h : Z) (por ws fvf rf : F) (r : Results F)
  (param1 param2 : Param) (p1 p2 : F) :
  widget_ints a h ->
  calculate (form a h por ws fvf rf) = Ok r ->
  exists cell : F * F,
    bind (matrix_cell (form a h por ws fvf rf) r param1 param2
                      (NpFloat p1) (NpFloat p2)) store
    = Ok cell /\
    cell_spec (form a h por ws fvf rf) r param1 param2 p1 p2 cell.
Proof.
  intros Hw Hr.
  destruct (calculate_form_inv _ _ _ _ _ _ _ Hw Hr) as (Hz & ->).
  destruct (widget_fits a h Hw) as (Ha & Hh & Hka & Hkah).
  unfold cell_spec, both, calculate, matrix_cell, store.
  destruct param1, param2; cbn [ordered index Nat.ltb Nat.leb];
    repeat (progress (py_eval; rewrite ?Ha, ?Hh, ?Hka, ?Hkah, ?Hz));
    eexists; (split; [reflexivity |]);
    try reflexivity; eexists; split; reflexivity.
Qed.

End MatrixGeneric.

Section MatrixStructure.

Context {F : Type} {AF : Arith F} {AS : ArithSpec F}.
Local Open Scope py_scope.

(** The two loops run to their end; the grids are ten by ten and every cell
    is as [cell_spec] says. *)
Lemma matrix_form (a h : Z) (por ws fvf rf : F) (r : Results F)
  (param1 param2 : Param) :
  widget_ints a h ->
  calculate (form a h por ws fvf rf) = Ok r ->
  exists (m : Matrix F) (cells : list (list (F * F))),
    matrix (form a h por ws fvf rf) r param1 param2 = Ok m /\
    param1_range m
    = linspace (fmul (value_of (variable (form a h por ws fvf rf) param1))
                     (of_decimal 8 10))
               (fmul (value_of (variable (form a h por ws fvf rf) param1))
                     (of_decimal 12 10))
               10 /\
    param2_range m
    = linspace (fmul (value_of (variable (form a h por ws fvf rf) param2))
                     (of_decimal 8 10))
               (fmul (value_of (variable (form a h por ws fvf rf) param2))
                     (of_decimal 12 10))
               10 /\
    ooip_matrix m = map (map fst) cells /\
    recoverable_matrix m = map (map snd) cells /\
    Forall2 (fun p1 row =>
               Forall2 (cell_spec (form a h por ws fvf rf) r param1 param2 p1)
                       (param2_range m) row)
            (param1_range m) cells.
Proof.
  intros Hw Hr. unfold matrix.
  rewrite !matrix_range_form by exact Hw. cbn [bind].
  set (range1 :=
         linspace
           (fmul (value_of (variable (form a h por ws fvf rf) param1))
                 (of_decimal 8 10)) _ 10).
  set (range2 :=
         linspace
           (fmul (value_of (variable (form a h por ws fvf rf) param2))
                 (of_decimal 8 10)) _ 10).
  destruct (mapM_spec
              (fun p1 =>
                 mapM (fun p2 =>
                         bind (matrix_cell (form a h por ws fvf rf) r
                                           param1 param2
                                           (NpFloat p1) (NpFloat p2))
                              (fun cell => store cell))
                      range2)
              (fun p1 row =>
                 Forall2 (cell_spec (form a h por ws fvf rf) r param1 param2
                                    p1)
                         range2 row)
              range1) as (cells & Ecells & Hcells).
  { intros p1 _. apply mapM_spec. intros p2 _.
    apply matrix_cell_form; assumption. }
  rewrite Ecells. cbn [bind].
  eexists. exists cells. split; [reflexivity |].
  cbn [param1_range param2_range ooip_matrix recoverable_matrix].
  repeat split; try reflexivity. exact Hcells.
Qed.

Lemma same_parameter_not_ordered (p : Param) : ordered p p = false.
Proof. destruct p; reflexivity. Qed.

(** A pair that is not one of the fifteen ordered ones falls to the last
    branch: every cell of the OOIP grid is the base-case OOIP. *)
Lemma matrix_unordered_flat (a h : Z) (por ws fvf rf : F) (r : Results F)
  (param1 param2 : Param) :
  widget_ints a h ->
  calculate (form a h por ws fvf rf) = Ok r ->
  ordered param1 param2 = false ->
  exists m : Matrix F,
    matrix (form a h por ws fvf rf) r param1 param2 = Ok m /\
    ooip_matrix m = repeat (repeat (value_of (ooip r)) 10) 10.
Proof.
  intros Hw Hr Hord.
  destruct (matrix_form a h por ws fvf rf r param1 param2 Hw Hr)
    as (m & cells & Em & E1 & E2 & Eo & _ & Hcells).
  exists m. split; [exact Em |].
  rewrite Eo.
  assert (L1 : List.length (param1_range m) = 10%nat)
    by (rewrite E1; apply linspace_length).
  assert (L2 : List.length (param2_range m) = 10%nat)
    by (rewrite E2; apply linspace_length).
  assert (G : map (map fst) cells
              = repeat (repeat (value_of (ooip r))
                               (List.length (param2_range m)))
                       (List.length (param1_range m))).
  2: { rewrite G, L1, L2. reflexivity. }
  apply (Forall2_constant (map fst)).
  eapply Forall2_impl; [| exact Hcells].
  intros p1 row Hrow. cbv beta.
  apply (Forall2_constant fst).
  eapply Forall2_impl; [| exact Hrow].
  intros p2 cell Hcell. unfold cell_spec in Hcell.
  rewrite Hord in Hcell. exact Hcell.
Qed.

(** For one of the fifteen ordered pairs, cell (j, k) of both grids is the
    engine run with both variables replaced by their j-th and k-th swept
    values. *)
Lemma matrix_ordered_cells (a h : Z) (por ws fvf rf : F) (r : Results F)
  (param1 param2 : Param) :
  widget_ints a h ->
  calculate (form a h por ws fvf rf) = Ok r ->
  ordered param1 param2 = true ->
  exists m : Matrix F,
    matrix (form a h por ws fvf rf) r param1 param2 = Ok m /\
    List.length (param1_range m) = 10%nat /\
    List.length (param2_range m) = 10%nat /\
    List.length (ooip_matrix m) = 10%nat /\
    List.length (recoverable_matrix m) = 10%nat /\
    forall (j k : nat) (p1 p2 : F),
      nth_error (param1_range m) j = Some p1 ->
      nth_error (param2_range m) k = Some p2 ->
      exists (r' : Results F) (orow rrow : list F),
        calculate (both (form a h por ws fvf rf) param1 param2 p1 p2)
        = Ok r' /\
        List.length orow = 10%nat /\
        List.length rrow = 10%nat /\
        nth_error (ooip_matrix m) j = Some orow /\
        nth_error orow k = Some (value_of (ooip r')) /\
        nth_error (recoverable_matrix m) j = Some rrow /\
        nth_error rrow k = Some (value_of (recoverable_reserves r')).
Proof.
  intros Hw Hr Hord.
  destruct (matrix_form a h por ws fvf rf r param1 param2 Hw Hr)
    as (m & cells & Em & E1 & E2 & Eo & Er & Hcells).
  exists m. split; [exact Em |].
  assert (L1 : List.length (param1_range m) = 10%nat)
    by (rewrite E1; apply linspace_length).
  assert (L2 : List.length (param2_range m) = 10%nat)
    by (rewrite E2; apply linspace_length).
  pose proof (Forall2_length_eq _ _ _ Hcells) as Lc.
  split; [exact L1 |]. split; [exact L2 |].
  split; [rewrite Eo, length_map; congruence |].
  split; [rewrite Er, length_map; congruence |].
  intros j k p1 p2 Hj Hk.
  destruct (Forall2_nth _ _ _ j p1 Hcells Hj) as (row & Hrow & Prow).
  destruct (Forall2_nth _ _ _ k p2 Prow Hk) as (cell & Hcell & Pcell).
  pose proof (Forall2_length_eq _ _ _ Prow) as Lr.
  unfold cell_spec in Pcell. rewrite Hord in Pcell.
  destruct Pcell as (r' & Er' & ->).
  exists r', (map fst row), (map snd row).
  rewrite Eo, Er, !nth_error_map, Hrow, Hcell, !length_map.
  cbn [option_map fst snd].
  repeat split; (exact Er' || reflexivity || congruence).
Qed.

(** C6. With the same parameter on both axes the matrix raises nothing and
    every cell of the OOIP grid is the base-case OOIP. *)
Theorem matrix_same_parameter (a h : Z) (por ws fvf rf : F) (r : Results F)
  (p : Param) :
  widget_ints a h ->
  calculate (form a h por ws fvf rf) = Ok r ->
  exists m : Matrix F,
    matrix (form a h por ws fvf rf) r p p = Ok m /\
    ooip_matrix m = repeat (repeat (value_of (ooip r)) 10) 10.
Proof.
  intros Hw Hr.
  apply matrix_unordered_flat; try assumption.
  apply same_parameter_not_ordered.
Qed.

End MatrixStructure.

Lemma matrix_same_parameter_witness :
  exists m : Matrix float,
    matrix reference reference_results Porosity Porosity = Ok m /\
    ooip_matrix m
    = repeat (repeat (value_of (ooip reference_results)) 10) 10.
Proof.
  apply (matrix_same_parameter (F := float) 1000%Z 50%Z 20%float 25%float
                               1.3%float 30%float reference_results Porosity).
  - exact reference_widget_ints.
  - vm_compute. reflexivity.
Defined.

(** C5, where the code departs from it.  With Thickness chosen first and Area
    second, in the reference case: the first swept values are 40 ft and 800
    acres, the engine run with both gives 28,644,923 bbl, and the cell (0,0) -
    like every cell of the OOIP grid - holds the base-case 44,757,692 bbl. *)
Theorem matrix_reversed_pair_flat :
  exists m : Matrix float,
    matrix reference reference_results Thickness Area = Ok m /\
    nth_error (param1_range m) 0 = Some 40%float /\
    nth_error (param2_range m) 0 = Some 800%float /\
    returned_ooip (both reference Thickness Area 40%float 800%float)
    = Some 28644923.076923076%float /\
    ooip_matrix m = repeat (repeat 44757692.307692304%float 10) 10.
Proof.
  eexists. split; [vm_compute; reflexivity |].
  repeat split; vm_compute; reflexivity.
Qed.

(** The same pair in the order the code spells out. *)
Example matrix_ordered_pair_cell :
  exists m : Matrix float,
    matrix reference reference_results Area Thickness = Ok m /\
    option_map (fun row => nth_error row 0) (nth_error (ooip_matrix m) 0)
    = Some (Some 28644923.076923076%float).
Proof.
  eexists. split; [vm_compute; reflexivity |]. vm_compute. reflexivity.
Qed.

(** ** The recovery factor never reaches an OOIP *)

Section Independence.

Context {F : Type} {AF : Arith F} {AS : ArithSpec F}.
Local Open Scope py_scope.

Lemma calculate_ooip_only (i : Inputs F) (r : Results F) :
  calculate i = Ok r -> ooip_only i = Ok (ooip r).
Proof.
  unfold calculate, ooip_only. intros H.
  bind_inv H. rewrite E. cbn [bind].
  bind_inv H. rewrite E0. cbn [bind].
  bind_inv H. bind_inv H. rewrite E2.
  bind_inv H. injection H as <-. reflexivity.
Qed.

Lemma ooip_only_recovery_factor (i : Inputs F) (v : num F) :
  ooip_only (with_variable i RecoveryFactor v) = ooip_only i.
Proof. reflexivity. Qed.

(** Two runs of the engine on inputs that differ in the recovery factor only
    return the same OOIP. *)
Lemma engine_ooip_agree (i1 i2 : Inputs F) (r1 r2 : Results F) :
  ooip_only i1 = ooip_only i2 ->
  calculate i1 = Ok r1 -> calculate i2 = Ok r2 -> ooip r1 = ooip r2.
Proof.
  intros E H1 H2.
  apply calculate_ooip_only in H1. apply calculate_ooip_only in H2.
  rewrite E, H2 in H1. injection H1 as H1. symmetry. exact H1.
Qed.

Lemma sweep_ooip_independent (a h : Z) (por ws fvf rf rf' : F)
  (r r' : Results F) (p : Param) :
  widget_ints a h ->
  calculate (form a h por ws fvf rf) = Ok r ->
  calculate (form a h por ws fvf rf') = Ok r' ->
  exists s s' : Sweep F,
    sensitivity (form a h por ws fvf rf) r p = Ok s /\
    sensitivity (form a h por ws fvf rf') r' p = Ok s' /\
    ooip_values s' = ooip_values s /\
    (p = RecoveryFactor -> ooip_values s = repeat (ooip r) 100).
Proof.
  intros Hw Hr Hr'.
  destruct (sweep_structure a h por ws fvf rf r p Hw Hr)
    as (s & Es & Ev & Lv & Lo & _ & Hs).
  destruct (sweep_structure a h por ws fvf rf' r' p Hw Hr')
    as (s' & Es' & Ev' & Lv' & Lo' & _ & Hs').
  exists s, s'. split; [exact Es |]. split; [exact Es' |]. split.
  - apply nth_error_eq_lists; [congruence |].
    intros k y' y Hy' Hy.
    pose proof (nth_error_lt Lo Hy) as Hk.
    destruct (nth_error_in_range Lv Hk) as (x & Hx).
    destruct (nth_error_in_range Lv' Hk) as (x' & Hx').
    destruct (Hs k x Hx) as (r1 & E1 & O1 & _).
    destruct (Hs' k x' Hx') as (r2 & E2 & O2 & _).
    rewrite Hy in O1. rewrite Hy' in O2.
    injection O1 as ->. injection O2 as ->.
    refine (engine_ooip_agree _ _ _ _ _ E2 E1).
    destruct p; try reflexivity;
      (assert (x' = x) as ->
         by (rewrite Ev in Hx; rewrite Ev' in Hx'; cbn in Hx, Hx';
             congruence));
      reflexivity.
  - intros ->.
    apply nth_error_eq_lists; [rewrite repeat_length; exact Lo |].
    intros k y y' Hy Hy'.
    pose proof (nth_error_lt Lo Hy) as Hk.
    rewrite nth_error_repeat in Hy' by exact Hk. injection Hy' as <-.
    destruct (nth_error_in_range Lv Hk) as (x & Hx).
    destruct (Hs k x Hx) as (r1 & E1 & O1 & _).
    rewrite Hy in O1. injection O1 as ->.
    refine (engine_ooip_agree _ _ _ _ _ E1 Hr). reflexivity.
Qed.

Lemma ooip_only_perturbed (a h : Z) (por ws fvf rf rf' : F) (p : Param)
  (c : F) :
  ooip_only (perturbed (form a h por ws fvf rf') p c)
  = ooip_only (perturbed (form a h por ws fvf rf) p c).
Proof. destruct p; reflexivity. Qed.

Lemma tornado_ooip_independent (a h : Z) (por ws fvf rf rf' : F)
  (r r' : Results F) :
  widget_ints a h ->
  calculate (form a h por ws fvf rf) = Ok r ->
  calculate (form a h por ws fvf rf') = Ok r' ->
  is_zero (fmul fvf (of_decimal 8 10)) = false ->
  is_zero (fmul fvf (of_decimal 12 10)) = false ->
  exists t t' : Param -> Tornado F,
    tornado (form a h por ws fvf rf) r = Ok t /\
    tornado (form a h por ws fvf rf') r' = Ok t' /\
    (forall p, ooip_low (t' p) = ooip_low (t p) /\
               ooip_high (t' p) = ooip_high (t p)) /\
    ooip_low (t RecoveryFactor) = ooip r /\
    ooip_high (t RecoveryFactor) = ooip r.
Proof.
  intros Hw Hr Hr' Hz8 Hz12.
  destruct (tornado_form a h por ws fvf rf r Hw Hr Hz8 Hz12) as (t & Et & Ht).
  destruct (tornado_form a h por ws fvf rf' r' Hw Hr' Hz8 Hz12)
    as (t' & Et' & Ht').
  exists t, t'. split; [exact Et |]. split; [exact Et' |]. split.
  - intros p.
    destruct (Ht p) as ((rl & rh & El & Eh & Hl & _ & Hh & _) & _).
    destruct (Ht' p) as ((rl' & rh' & El' & Eh' & Hl' & _ & Hh' & _) & _).
    rewrite Hl, Hl', Hh, Hh'. split.
    + exact (engine_ooip_agree _ _ _ _ (ooip_only_perturbed _ _ _ _ _ _ _ _ _)
                               El' El).
    + exact (engine_ooip_agree _ _ _ _ (ooip_only_perturbed _ _ _ _ _ _ _ _ _)
                               Eh' Eh).
  - destruct (Ht RecoveryFactor) as (_ & Hl & Hh & _). split; assumption.
Qed.

Lemma ordered_first_not_rf (param1 param2 : Param) :
  ordered param1 param2 = true -> param1 <> RecoveryFactor.
Proof. destruct param1, param2; cbn; congruence. Qed.

Lemma ooip_only_both (a h : Z) (por ws fvf rf rf' : F)
  (param1 param2 : Param) (p1 p2 p2' : F) :
  ordered param1 param2 = true ->
  (param2 <> RecoveryFactor -> p2' = p2) ->
  ooip_only (both (form a h por ws fvf rf') param1 param2 p1 p2')
  = ooip_only (both (form a h por ws fvf rf) param1 param2 p1 p2).
Proof.
  intros Hord Hp2.
  destruct param1, param2; try discriminate Hord; try reflexivity;
    rewrite Hp2 by discriminate; reflexivity.
Qed.

Lemma matrix_ooip_independent (a h : Z) (por ws fvf rf rf' : F)
  (r r' : Results F) (param1 param2 : Param) :
  widget_ints a h ->
  calculate (form a h por ws fvf rf) = Ok r ->
  calculate (form a h por ws fvf rf') = Ok r' ->
  exists m m' : Matrix F,
    matrix (form a h por ws fvf rf) r param1 param2 = Ok m /\
    matrix (form a h por ws fvf rf') r' param1 param2 = Ok m' /\
    ooip_matrix m' = ooip_matrix m.
Proof.
  intros Hw Hr Hr'.
  assert (Hbase : ooip r' = ooip r).
  { exact (engine_ooip_agree (form a h por ws fvf rf') (form a h por ws fvf rf)
                             r' r eq_refl Hr' Hr). }
  destruct (ordered param1 param2) eqn:Hord.
  - destruct (matrix_ordered_cells a h por ws fvf rf r param1 param2 Hw Hr Hord)
      as (m & Em & L1 & L2 & Lo & _ & Hm).
    destruct (matrix_ordered_cells a h por ws fvf rf' r' param1 param2 Hw Hr'
                                   Hord)
      as (m' & Em' & L1' & L2' & Lo' & _ & Hm').
    exists m, m'. split; [exact Em |]. split; [exact Em' |].
    apply nth_error_eq_lists; [congruence |].
    intros j row' row Hrow' Hrow.
    pose proof (nth_error_lt Lo Hrow) as Hj.
    destruct (nth_error_in_range L1 Hj) as (p1 & Hp1).
    destruct (nth_error_in_range L1' Hj) as (p1' & Hp1').
    assert (Ep1 : p1' = p1).
    { pose proof (ordered_first_not_rf _ _ Hord) as Hrf.
      destruct (matrix_form a h por ws fvf rf r param1 param2 Hw Hr)
        as (m0 & c0 & Em0 & E1 & _).
      destruct (matrix_form a h por ws fvf rf' r' param1 param2 Hw Hr')
        as (m0' & c0' & Em0' & E1' & _).
      rewrite Em in Em0. injection Em0 as <-.
      rewrite Em' in Em0'. injection Em0' as <-.
      rewrite E1 in Hp1. rewrite E1' in Hp1'.
      destruct param1; try contradiction; cbn in Hp1, Hp1'; congruence. }
    subst p1'.
    assert (Lrow : List.length row = 10%nat /\ List.length row' = 10%nat).
    { destruct (nth_error_in_range (k := 0%nat) L2 ltac:(lia)) as (q & Hq).
      destruct (nth_error_in_range (k := 0%nat) L2' ltac:(lia)) as (q' & Hq').
      destruct (Hm j 0%nat p1 q Hp1 Hq) as (_ & o & _ & _ & Lq & _ & Eo & _).
      destruct (Hm' j 0%nat p1 q' Hp1' Hq') as (_ & o' & _ & _ & Lq' & _ & Eo' & _).
      rewrite Hrow in Eo. rewrite Hrow' in Eo'.
      injection Eo as <-. injection Eo' as <-. split; assumption. }
    destruct Lrow as (Lrow & Lrow').
    apply nth_error_eq_lists; [congruence |].
    intros k y' y Hy' Hy.
    pose proof (nth_error_lt Lrow Hy) as Hk.
    destruct (nth_error_in_range L2 Hk) as (p2 & Hp2).
    destruct (nth_error_in_range L2' Hk) as (p2' & Hp2').
    destruct (Hm j k p1 p2 Hp1 Hp2) as (r1 & o & _ & E1 & _ & _ & Eo & Ek & _).
    destruct (Hm' j k p1 p2' Hp1' Hp2')
      as (r2 & o' & _ & E2 & _ & _ & Eo' & Ek' & _).
    rewrite Hrow in Eo. rewrite Hrow' in Eo'.
    injection Eo as <-. injection Eo' as <-.
    rewrite Hy in Ek. rewrite Hy' in Ek'.
    injection Ek as ->. injection Ek' as ->.
    f_equal.
    refine (engine_ooip_agree _ _ _ _ _ E2 E1).
    apply ooip_only_both; [exact Hord |].
    intros Hrf.
    destruct (matrix_form a h por ws fvf rf r param1 param2 Hw Hr)
      as (m0 & c0 & Em0 & _ & E2r & _).
    destruct (matrix_form a h por ws fvf rf' r' param1 param2 Hw Hr')
      as (m0' & c0' & Em0' & _ & E2r' & _).
    rewrite Em in Em0. injection Em0 as <-.
    rewrite Em' in Em0'. injection Em0' as <-.
    rewrite E2r in Hp2. rewrite E2r' in Hp2'.
    destruct param2; try contradiction; cbn in Hp2, Hp2'; congruence.
  - destruct (matrix_unordered_flat a h por ws fvf rf r param1 param2 Hw Hr
                                    Hord) as (m & Em & Eo).
    destruct (matrix_unordered_flat a h por ws fvf rf' r' param1 param2 Hw Hr'
                                    Hord) as (m' & Em' & Eo').
    exists m, m'. split; [exact Em |]. split; [exact Em' |].
    rewrite Eo, Eo', Hbase. reflexivity.
Qed.

(** C2. No OOIP the page computes depends on the recovery factor.  For two
    states of the form that differ in the recovery factor only: the engine
    returns the same OOIP; every sweep has the same OOIP sequence, and the
    sweep over the recovery factor has every entry equal to the base-case
    OOIP; every tornado entry has the same low and high OOIP, and the entry of
    the recovery factor has both equal to the base-case OOIP; every matrix has
    the same OOIP grid. *)
Theorem ooip_independent_of_recovery_factor (a h : Z) (por ws fvf rf rf' : F)
  (r r' : Results F) :
  widget_ints a h ->
  calculate (form a h por ws fvf rf) = Ok r ->
  calculate (form a h por ws fvf rf') = Ok r' ->
  is_zero (fmul fvf (of_decimal 8 10)) = false ->
  is_zero (fmul fvf (of_decimal 12 10)) = false ->
  ooip r' = ooip r /\
  (forall p : Param,
     exists s s' : Sweep F,
       sensitivity (form a h por ws fvf rf) r p = Ok s /\
       sensitivity (form a h por ws fvf rf') r' p = Ok s' /\
       ooip_values s' = ooip_values s) /\
  (exists s : Sweep F,
     sensitivity (form a h por ws fvf rf) r RecoveryFactor = Ok s /\
     ooip_values s = repeat (ooip r) 100) /\
  (exists t t' : Param -> Tornado F,
     tornado (form a h por ws fvf rf) r = Ok t /\
     tornado (form a h por ws fvf rf') r' = Ok t' /\
     (forall p : Param,
        ooip_low (t' p) = ooip_low (t p) /\
        ooip_high (t' p) = ooip_high (t p)) /\
     ooip_low (t RecoveryFactor) = ooip r /\
     ooip_high (t RecoveryFactor) = ooip r) /\
  (forall param1 param2 : Param,
     exists m m' : Matrix F,
       matrix (form a h por ws fvf rf) r param1 param2 = Ok m /\
       matrix (form a h por ws fvf rf') r' param1 param2 = Ok m' /\
       ooip_matrix m' = ooip_matrix m).
Proof.
  intros Hw Hr Hr' Hz8 Hz12.
  split; [| split; [| split; [| split]]].
  - exact (engine_ooip_agree (form a h por ws fvf rf') (form a h por ws fvf rf)
                             r' r eq_refl Hr' Hr).
  - intros p.
    destruct (sweep_ooip_independent a h por ws fvf rf rf' r r' p Hw Hr Hr')
      as (s & s' & Es & Es' & E & _).
    exists s, s'. repeat split; assumption.
  - destruct (sweep_ooip_independent a h por ws fvf rf rf' r r' RecoveryFactor
                                     Hw Hr Hr')
      as (s & _ & Es & _ & _ & E).
    exists s. split; [exact Es | exact (E eq_refl)].
  - exact (tornado_ooip_independent a h por ws fvf rf rf' r r' Hw Hr Hr' Hz8
                                    Hz12).
  - intros param1 param2.
    exact (matrix_ooip_independent a h por ws fvf rf rf' r r' param1 param2
                                   Hw Hr Hr').
Qed.

End Independence.

Lemma ooip_independent_of_recovery_factor_witness :
  ooip reference_45_results = ooip reference_results /\
  (forall p : Param,
     exists s s' : Sweep float,
       sensitivity reference reference_results p = Ok s /\
       sensitivity reference_45 reference_45_results p = Ok s' /\
       ooip_values s' = ooip_values s) /\
  (exists s : Sweep float,
     sensitivity reference reference_results RecoveryFactor = Ok s /\
     ooip_values s = repeat (ooip reference_results) 100) /\
  (exists t t' : Param -> Tornado float,
     tornado reference reference_results = Ok t /\
     tornado reference_45 reference_45_results = Ok t' /\
     (forall p : Param,
        ooip_low (t' p) = ooip_low (t p) /\
        ooip_high (t' p) = ooip_high (t p)) /\
     ooip_low (t RecoveryFactor) = ooip reference_results /\
     ooip_high (t RecoveryFactor) = ooip reference_results) /\
  (forall param1 param2 : Param,
     exists m m' : Matrix float,
       matrix reference reference_results param1 param2 = Ok m /\
       matrix reference_45 reference_45_results param1 param2 = Ok m' /\
       ooip_matrix m' = ooip_matrix m).
Proof.
  apply (ooip_independent_of_recovery_factor
           (F := float) 1000%Z 50%Z 20%float 25%float 1.3%float 30%float
           45%float reference_results reference_45_results).
  - exact reference_widget_ints.
  - vm_compute. reflexivity.
  - vm_compute. reflexivity.
  - vm_compute. reflexivity.
  - vm_compute. reflexivity.
Defined.

(** ** Sheet names *)

Section SheetNames.

Local Open Scope string_scope.

Lemma append_inj_l (s a b : string) : s ++ a = s ++ b -> a = b.
Proof.
  induction s as [| c s IH]; simpl; intros H; [exact H |].
  injection H as H. auto.
Qed.

Lemma str_inj (i j : nat) : str i = str j -> i = j.
Proof.
  unfold str. intros H. apply Unsigned.to_uint_inj.
  assert (E : Some (Nat.to_uint i) = Some (Nat.to_uint j)).
  { rewrite <- !NilEmpty.usu. rewrite H. reflexivity. }
  injection E as E. exact E.
Qed.

Lemma suffixed_inj (name : string) (i j : nat) :
  suffixed name i = suffixed name j -> i = j.
Proof.
  unfold suffixed. intros H.
  apply append_inj_l in H. apply (append_inj_l "_") in H.
  apply str_inj. exact H.
Qed.

Lemma mem_In (x : string) (l : list string) : mem x l = true <-> In x l.
Proof.
  unfold mem. rewrite existsb_exists. split.
  - intros (y & Hy & E). apply String.eqb_eq in E. subst. exact Hy.
  - intros H. exists x. split; [exact H | apply String.eqb_refl].
Qed.

Lemma mem_not_In (x : string) (l : list string) :
  mem x l = false <-> ~ In x l.
Proof.
  rewrite <- mem_In. destruct (mem x l); split; congruence.
Qed.

(** The loop stops: among more candidates than there are used names one is
    free. *)
Lemma first_free_stops (name : string) (used_names : list string) :
  forall (fuel i : nat) (l : list string),
    (forall j, (i <= j)%nat -> In (suffixed name j) used_names ->
               In (suffixed name j) l) ->
    (List.length l < fuel)%nat ->
    exists j, first_free fuel name used_names i = Some j /\
              (i <= j)%nat /\ ~ In (suffixed name j) used_names.
Proof.
  induction fuel as [| fuel IH]; intros i l Hl Hlen; [lia |].
  simpl. destruct (mem (suffixed name i) used_names) eqn:E.
  - apply mem_In in E.
    destruct (IH (S i) (remove string_dec (suffixed name i) l))
      as (j & Hj & Hij & Hfree).
    + intros j Hij Hin. apply in_in_remove.
      * intros Heq. apply suffixed_inj in Heq. lia.
      * apply Hl; [lia | exact Hin].
    + pose proof (remove_length_lt string_dec l (suffixed name i)
                                   (Hl i (Nat.le_refl i) E)).
      lia.
    + exists j. repeat split; [exact Hj | lia | exact Hfree].
  - exists i. repeat split; [lia | apply mem_not_In; exact E].
Qed.

(** The function returns for every input, and the name it returns was not
    in [used_names]; it comes back appended to the list. *)
Lemma get_unique_sheet_name_returns (base_name : string)
  (used_names : list string) :
  exists name : string,
    get_unique_sheet_name base_name used_names
    = Some (name, (used_names ++ [name])%list) /\
    ~ In name used_names.
Proof.
  unfold get_unique_sheet_name, get_unique_sheet_name_fuel. cbv zeta.
  set (name := substring 0 31 _).
  destruct (mem name used_names) eqn:E; cbn [negb].
  - destruct (first_free_stops name used_names (S (List.length used_names)) 1
                               used_names)
      as (j & Hj & _ & Hfree).
    + intros j _ H. exact H.
    + lia.
    + rewrite Hj. eexists. split; [reflexivity | exact Hfree].
  - exists name. split; [reflexivity | apply mem_not_In; exact E].
Qed.

Lemma substring_length_le (n : nat) (s : string) :
  (String.length (substring 0 n s) <= n)%nat.
Proof.
  revert s; induction n as [| n IH]; intros [| c s]; simpl; try lia.
  specialize (IH s). lia.
Qed.

(** The returned name has at most 31 characters when the cut name is free;
    otherwise it is a used name of at most 31 characters followed by [_] and
    a number. *)
Lemma get_unique_sheet_name_length (base_name : string)
  (used_names : list string) (name : string) (used' : list string) :
  get_unique_sheet_name base_name used_names = Some (name, used') ->
  (String.length name <= 31)%nat
  \/ exists (prefix : string) (i : nat),
       name = suffixed prefix i /\ (String.length prefix <= 31)%nat /\
       In prefix used_names.
Proof.
  unfold get_unique_sheet_name, get_unique_sheet_name_fuel. cbv zeta.
  set (short := substring 0 31 _).
  assert (Hshort : (String.length short <= 31)%nat)
    by apply substring_length_le.
  destruct (mem short used_names) eqn:E; cbn [negb].
  - destruct (first_free _ _ _ _) as [i |]; [| discriminate].
    intros H. injection H as <- _.
    right. exists short, i.
    repeat split; [exact Hshort | apply mem_In; exact E].
  - intros H. injection H as <- _. left. exact Hshort.
Qed.

End SheetNames.


(** The sheet names of one export: no collision, every name within 31
    characters. *)
Example export_sheet_names :
  get_unique_sheet_name "Recoverable Matrix - Area vs Thickness"
    ["Base Case"; "Single Parameter Sensitivity"; "Tornado Plot Data";
     "OOIP Matrix - Area vs Thickness"]%string
  = Some ("Recoverable Matrix - Area vs Th"%string,
          ["Base Case"; "Single Parameter Sensitivity"; "Tornado Plot Data";
           "OOIP Matrix - Area vs Thickness";
           "Recoverable Matrix - Area vs Th"]%string).
Proof. vm_compute. reflexivity. Qed.

(** ** More on sheet names *)

Section SheetNamesMore.

Local Open Scope string_scope.

Lemma all_distinct_NoDup (l : list string) :
  all_distinct l = true -> NoDup l.
Proof.
  induction l as [| x l IH]; simpl; intros H; [constructor |].
  apply andb_true_iff in H as (Hx & Hl).
  constructor; [| auto].
  apply negb_true_iff in Hx. apply mem_not_In. exact Hx.
Qed.

(** X1. [get_unique_sheet_name] returns for every name and every list: the
    [while] loop ends.  The name returned is not in the list it was given,
    and the list afterwards is the old one with that name appended; a list
    without duplicates stays without duplicates. *)
Theorem get_unique_sheet_name_fresh (base_name : string)
  (used_names : list string) :
  exists name : string,
    get_unique_sheet_name base_name used_names
    = Some (name, (used_names ++ [name])%list) /\
    ~ In name used_names /\
    (NoDup used_names -> NoDup (used_names ++ [name])%list).
Proof.
  destruct (get_unique_sheet_name_returns base_name used_names)
    as (name & E & Hfresh).
  exists name. repeat split; [exact E | exact Hfresh |].
  intros Hnd. apply NoDup_app; [exact Hnd | repeat constructor; simpl; tauto |].
  intros x Hx [<- | []]. exact (Hfresh Hx).
Qed.










Lemma replace_absent (old new : ascii) (s : string) :
  ~ In old (list_ascii_of_string s) -> replace old new s = s.
Proof.
  induction s as [| x s IH]; simpl; intros H; [reflexivity |].
  destruct (Ascii.eqb x old) eqn:E.
  - apply Ascii.eqb_eq in E. tauto.
  - f_equal. apply IH. tauto.
Qed.

Lemma replaced_valid (olds : list ascii) (s : string) :
  (forall c, In c (list_ascii_of_string s) -> ~ In c olds) ->
  fold_left (fun s char => replace char "_" s) olds s = s.
Proof.
  induction olds as [| o olds IH]; simpl; intros H; [reflexivity |].
  rewrite replace_absent.
  - apply IH. intros c Hc Hin. exact (H c Hc (or_intror Hin)).
  - intros Hin. exact (H o Hin (or_introl eq_refl)).
Qed.

Lemma substring_short (n : nat) (s : string) :
  (String.length s <= n)%nat -> substring 0 n s = s.
Proof.
  revert s; induction n as [| n IH]; intros [| x s]; simpl; intros H;
    try reflexivity; try lia.
  f_equal. apply IH. lia.
Qed.

(** X3. A name that is already fit for Excel - at most 31 characters, none of
    them refused - and not yet used comes back unchanged. *)
Theorem get_unique_sheet_name_unchanged (base_name : string)
  (used_names : list string) :
  (String.length base_name <= 31)%nat ->
  valid_name base_name ->
  ~ In base_name used_names ->
  get_unique_sheet_name base_name used_names
  = Some (base_name, (used_names ++ [base_name])%list).
Proof.
  intros Hlen Hvalid Hfree.
  unfold get_unique_sheet_name, get_unique_sheet_name_fuel. cbv zeta.
  rewrite (replaced_valid _ _ Hvalid), (substring_short _ _ Hlen).
  apply mem_not_In in Hfree. rewrite Hfree. reflexivity.
Qed.

Lemma base_case_valid : valid_name "Base Case".
Proof. intros c Hc. simpl in Hc. simpl. intuition (subst; discriminate). Defined.

Lemma get_unique_sheet_name_unchanged_witness :
  get_unique_sheet_name "Base Case" ["Tornado Plot Data"]
  = Some ("Base Case", ["Tornado Plot Data"; "Base Case"]).
Proof.
  apply (get_unique_sheet_name_unchanged "Base Case" ["Tornado Plot Data"]).
  - simpl. lia.
  - exact base_case_valid.
  - simpl. intros [H | []]. discriminate H.
Defined.




End SheetNamesMore.

(** X5. Whichever two parameters are selected for the matrix, the export
    hands out five different sheet names, none longer than 31 characters:
    the three fixed ones and the two matrix titles cut to 31 characters.  No
    suffix is ever appended, and [used_sheet_names] ends as these five
    names. *)
Theorem export_sheets_distinct (param1 param2 : Param) :
  exists names : list string,
    export_sheets param1 param2 = Some (names, names) /\
    names = ["Base Case"%string; "Single Parameter Sensitivity"%string;
             "Tornado Plot Data"%string;
             substring 0 31 (ooip_matrix_title param1 param2);
             substring 0 31 (recoverable_matrix_title param1 param2)] /\
    NoDup names /\
    Forall (fun name => (String.length name <= 31)%nat) names.
Proof.
  eexists. split; [| split; [reflexivity | split]].
  - destruct param1, param2; vm_compute; reflexivity.
  - apply all_distinct_NoDup.
    destruct param1, param2; vm_compute; reflexivity.
  - apply Forall_forall. intros name Hin.
    apply Nat.leb_le.
    refine (proj1 (forallb_forall
                     (fun n => (String.length n <=? 31)%nat) _) _ name Hin).
    destruct param1, param2; vm_compute; reflexivity.
Qed.

Lemma fold_max_length (column : list string) (start : nat) :
  let width :=
    fold_left (fun max_length text =>
                 if (max_length <? String.length text)%nat
                 then String.length text
                 else max_length)
              column start in
  (start <= width)%nat /\
  (forall text, In text column -> (String.length text <= width)%nat) /\
  (width = start \/ exists text, In text column /\ width = String.length text).
Proof.
  revert start; induction column as [| x column IH]; intros start; cbn zeta.
  - simpl. repeat split; [lia | tauto | left; reflexivity].
  - simpl.
    destruct (start <? String.length x)%nat eqn:E.
    + apply Nat.ltb_lt in E.
      destruct (IH (String.length x)) as (H1 & H2 & H3). cbn zeta in *.
      split; [lia |]. split.
      * intros text [<- | Hin]; [exact H1 | exact (H2 text Hin)].
      * right. destruct H3 as [-> | (text & Hin & ->)].
        -- exists x. split; [left; reflexivity | reflexivity].
        -- exists text. split; [right; exact Hin | reflexivity].
    + apply Nat.ltb_ge in E.
      destruct (IH start) as (H1 & H2 & H3). cbn zeta in *.
      split; [exact H1 |]. split.
      * intros text [<- | Hin]; [lia | exact (H2 text Hin)].
      * destruct H3 as [-> | (text & Hin & ->)]; [left; reflexivity |].
        right. exists text. split; [right; exact Hin | reflexivity].
Qed.

(** X6. The width given to a column of the base-case sheet is between 2 and
    50; every cell text gets its length plus two unless that passes 50; and
    for a column with cells the width is exactly the longest text plus two,
    capped at 50. *)
Theorem adjusted_width_bounds (column : list string) :
  (2 <= adjusted_width column <= 50)%nat /\
  (forall text : string,
     In text column ->
     (Nat.min (String.length text + 2) 50 <= adjusted_width column)%nat) /\
  (column <> [] ->
   exists text : string,
     In text column /\
     adjusted_width column = Nat.min (String.length text + 2) 50).
Proof.
  unfold adjusted_width. cbv zeta.
  pose proof (fold_max_length column 0) as H. cbv zeta in H.
  set (width := fold_left _ column 0%nat) in *.
  destruct H as (H1 & H2 & H3).
  split; [lia |]. split.
  - intros text Hin. specialize (H2 text Hin). lia.
  - intros Hne. destruct H3 as [E | (text & Hin & E)].
    + destruct column as [| x column]; [contradiction |].
      exists x. split; [left; reflexivity |].
      specialize (H2 x (or_introl eq_refl)). lia.
    + exists text. split; [exact Hin | rewrite E; reflexivity].
Qed.

(** ** The sheet names, as the claim can be kept *)





(** ** More on the formula engine and the page *)

Section EngineMore.

Context {F : Type} {AF : Arith F} {AS : ArithSpec F}.
Local Open Scope py_scope.

(** X7. An integer product [7758 * area * thickness] too large for a float
    makes the engine raise [OverflowError]: the product is exact, and the
    exception comes when it meets the porosity fraction on line 124. *)
Theorem calculate_overflow (a h : Z) (por ws fvf rf : F) :
  int_fits (7758 * a * h) = false ->
  calculate (form a h por ws fvf rf) = Raise OverflowError.
Proof.
  intros Hfit. unfold calculate, form. cbn [area thickness porosity
    water_saturation oil_fvf recovery_factor].
  unfold binop at 1. cbn [bind]. rewrite percent_py. cbn [bind].
  unfold binop at 1. cbn [bind]. rewrite percent_py. cbn [bind].
  unfold binop at 1. cbn [bind]. rewrite percent_py. cbn [bind].
  unfold binop. cbn [bind].
  unfold mul, arith. cbn [bind to_float]. rewrite Hfit. reflexivity.
Qed.

(** X8. Area and thickness reach the results through their product only:
    two states of the form with the same product [area * thickness] and the
    same other fields give the same run of the engine, result or exception -
    in binary64 too, since the product is taken in integers. *)
Theorem calculate_area_thickness_product (a h a' h' : Z) (por ws fvf rf : F) :
  (a * h = a' * h')%Z ->
  calculate (form a' h' por ws fvf rf) = calculate (form a h por ws fvf rf).
Proof.
  intros E. unfold calculate, form. cbn [area thickness porosity
    water_saturation oil_fvf recovery_factor].
  assert (E' : (7758 * a' * h' = 7758 * a * h)%Z) by nia.
  destruct (binop truediv (Ok (PyFloat por)) (Ok (PyInt 100)))
    as [porosity_decimal | e]; [| reflexivity].
  destruct (binop truediv (Ok (PyFloat ws)) (Ok (PyInt 100)))
    as [water_saturation_decimal | e]; [| reflexivity].
  destruct (binop truediv (Ok (PyFloat rf)) (Ok (PyInt 100)))
    as [recovery_factor_decimal | e]; [| reflexivity].
  cbn [bind binop mul arith]. rewrite E'. reflexivity.
Qed.

End EngineMore.

Lemma calculate_overflow_witness :
  calculate (form (10 ^ 200) (10 ^ 200) 20 25 1.3 30)%float
  = Raise OverflowError.
Proof.
  apply (calculate_overflow (F := float) (10 ^ 200)%Z (10 ^ 200)%Z 20%float
                            25%float 1.3%float 30%float).
  vm_compute. reflexivity.
Defined.

Lemma calculate_area_thickness_product_witness :
  calculate (form 500 100 20 25 1.3 30)%float = calculate reference.
Proof.
  apply (calculate_area_thickness_product (F := float) 1000%Z 50%Z 500%Z 100%Z
                                          20%float 25%float 1.3%float 30%float).
  reflexivity.
Defined.

(** ** More in exact arithmetic *)

Ltac bind_as H a Ha :=
  apply bind_Ok_inv in H; destruct H as (a & Ha & H).

Section ExactValues.

Local Open Scope Q_scope.

Lemma to_float_exact (a : num Q) : to_float a = Ok (value_of a).
Proof. destruct a; reflexivity. Qed.

Lemma mul_exact (a b c : num Q) :
  mul a b = Ok c -> value_of c == value_of a * value_of b.
Proof.
  destruct a, b; cbn; intros H; injection H as <-; cbn;
    try reflexivity; rewrite inject_Z_mult; reflexivity.
Qed.

Lemma sub_exact (a b c : num Q) :
  sub a b = Ok c -> value_of c == value_of a - value_of b.
Proof.
  destruct a, b; cbn; intros H; injection H as <-; cbn;
    try reflexivity;
    unfold Z.sub; rewrite inject_Z_plus, inject_Z_opp; reflexivity.
Qed.

Lemma truediv_exact (a b c : num Q) :
  truediv a b = Ok c -> value_of c == value_of a / value_of b.
Proof.
  unfold truediv.
  destruct a as [x | x | x], b as [y | y | y];
    try (destruct y as [| y | y]);
    cbn [to_float bind is_np orb int_fits of_int is_zero fdiv exact value_of];
    try (destruct (Qeq_bool _ _));
    intros H; try discriminate H; injection H as <-; reflexivity.
Qed.

(** The values an exact run of the engine returns, whatever the kinds of
    its inputs. *)
Lemma calculate_exact (i : Inputs Q) (r : Results Q) :
  calculate i = Ok r ->
  value_of (ooip r)
  == 7758 * value_of (area i) * value_of (thickness i)
     * (value_of (porosity i) / 100)
     * (1 - value_of (water_saturation i) / 100) / value_of (oil_fvf i) /\
  value_of (recoverable_reserves r)
  == value_of (ooip r) * (value_of (recovery_factor i) / 100).
Proof.
  unfold calculate, binop. cbn [bind]. intros H.
  bind_as H pd Hpd. apply truediv_exact in Hpd.
  bind_as H wsd Hwsd. apply truediv_exact in Hwsd.
  bind_as H rfd Hrfd. apply truediv_exact in Hrfd.
  bind_as H o Ho.
  bind_as Ho n4 H4. bind_as H4 n3 H3. bind_as H3 n2 H2. bind_as H2 n1 H1.
  bind_as H4 s Hs.
  apply truediv_exact in Ho. apply mul_exact in H1, H2, H3, H4.
  apply sub_exact in Hs.
  bind_as H rec Hrec. apply mul_exact in Hrec.
  injection H as <-. cbn [ooip recoverable_reserves].
  cbn [value_of of_int exact] in *.
  split.
  - rewrite Ho, H4, Hs, H3, H2, H1, Hpd, Hwsd. reflexivity.
  - rewrite Hrec, Hrfd. reflexivity.
Qed.

End ExactValues.

Section ExactBounds.

Local Open Scope Q_scope.

(** X10. In exact arithmetic and on valid inputs the engine returns a
    positive OOIP and a positive recoverable figure, the recoverable figure is
    OOIP times the recovery fraction, and it does not exceed OOIP as long as
    the recovery factor is at most 100 %%. *)
Theorem recoverable_within_ooip (a h : Z) (por ws fvf rf : Q) :
  form_valid a h por ws fvf rf ->
  exists r : Results Q,
    calculate (form a h por ws fvf rf) = Ok r /\
    0 < value_of (ooip r) /\
    0 < value_of (recoverable_reserves r) /\
    value_of (recoverable_reserves r) == value_of (ooip r) * (rf / 100) /\
    (rf <= 100 -> value_of (recoverable_reserves r) <= value_of (ooip r)).
Proof.
  intros (Ha & Hh & (Hp & Hp') & (Hw & Hw') & Hf & Hr).
  pose proof (positive_not_eq_zero _ Hf) as Hf0.
  eexists. split.
  { apply calculate_form; [reflexivity | apply exact_not_zero; exact Hf0]. }
  cbn [ooip recoverable_reserves value_of].
  unfold volumetric, fraction. cbn [fmul fdiv fsub of_int exact].
  set (o := inject_Z (7758 * a * h) * (por / inject_Z 100)
            * (inject_Z 1 - ws / inject_Z 100) / fvf).
  assert (Ho : 0 < o).
  { unfold o. unfold Qdiv at 3. apply Qmult_lt_0_compat.
    - apply (numerator_positive _ por ws); try assumption.
      apply product_positive; assumption.
    - apply Qinv_lt_0_compat. exact Hf. }
  assert (Hrf : 0 < rf / inject_Z 100)
    by (change (rf / inject_Z 100) with (rf * (1 # 100)); lra).
  split; [exact Ho |].
  split; [apply Qmult_lt_0_compat; assumption |].
  split; [reflexivity |].
  intros Hle.
  assert (Hrf1 : rf / inject_Z 100 <= 1)
    by (change (rf / inject_Z 100) with (rf * (1 # 100)); lra).
  clearbody o. set (q := rf / inject_Z 100) in *. clearbody q. nra.
Qed.

End ExactBounds.

Lemma recoverable_within_ooip_witness :
  exists r : Results Q,
    calculate reference_exact = Ok r /\
    (0 < value_of (ooip r))%Q /\
    (0 < value_of (recoverable_reserves r))%Q /\
    (value_of (recoverable_reserves r) == value_of (ooip r) * (30 / 100))%Q /\
    ((30 <= 100)%Q ->
     (value_of (recoverable_reserves r) <= value_of (ooip r))%Q).
Proof.
  apply (recoverable_within_ooip 1000%Z 50%Z 20%Q 25%Q (13 # 10)%Q 30%Q).
  exact reference_exact_valid.
Defined.

Section TornadoBars.

Local Open Scope Q_scope.

(** Values of one tornado entry from the two runs of the engine behind
    it. *)
Lemma tornado_entry_values (i : Inputs Q) (p : Param) (e : Tornado Q) :
  tornado_entry_spec i p e ->
  exists il ih : Inputs Q,
    il = perturbed i p (low_factor p) /\
    ih = perturbed i p (high_factor p) /\
    (value_of (ooip_low e)
     == 7758 * value_of (area il) * value_of (thickness il)
        * (value_of (porosity il) / 100)
        * (1 - value_of (water_saturation il) / 100)
        / value_of (oil_fvf il)) /\
    (value_of (recoverable_low e)
     == value_of (ooip_low e) * (value_of (recovery_factor il) / 100)) /\
    (value_of (ooip_high e)
     == 7758 * value_of (area ih) * value_of (thickness ih)
        * (value_of (porosity ih) / 100)
        * (1 - value_of (water_saturation ih) / 100)
        / value_of (oil_fvf ih)) /\
    (value_of (recoverable_high e)
     == value_of (ooip_high e) * (value_of (recovery_factor ih) / 100)).
Proof.
  intros (rl & rh & El & Eh & Hl & Hrl & Hh & Hrh).
  apply calculate_exact in El, Eh.
  destruct El as (El & Erl). destruct Eh as (Eh & Erh).
  rewrite Hl, Hrl, Hh, Hrh.
  do 2 eexists. split; [reflexivity |]. split; [reflexivity |].
  repeat split; assumption.
Qed.

(** X11. The tornado in exact arithmetic, on valid inputs.  Area, thickness
    and porosity have the same bar: 0.8 and 1.2 times the base OOIP (and the
    base recoverable figure); the oil FVF has base OOIP / 1.2 and base OOIP /
    0.8; the recovery factor has 0.8 and 1.2 times the base recoverable
    figure. *)
Theorem tornado_bars (a h : Z) (por ws fvf rf : Q) (r : Results Q) :
  widget_ints a h ->
  form_valid a h por ws fvf rf ->
  calculate (form a h por ws fvf rf) = Ok r ->
  exists t : Param -> Tornado Q,
    tornado (form a h por ws fvf rf) r = Ok t /\
    (forall p : Param,
       p = Area \/ p = Thickness \/ p = Porosity ->
       value_of (ooip_low (t p)) == (8 # 10) * value_of (ooip r) /\
       value_of (ooip_high (t p)) == (12 # 10) * value_of (ooip r) /\
       value_of (recoverable_low (t p))
       == (8 # 10) * value_of (recoverable_reserves r) /\
       value_of (recoverable_high (t p))
       == (12 # 10) * value_of (recoverable_reserves r)) /\
    value_of (ooip_low (t OilFVF)) == value_of (ooip r) / (12 # 10) /\
    value_of (ooip_high (t OilFVF)) == value_of (ooip r) / (8 # 10) /\
    value_of (recoverable_low (t RecoveryFactor))
    == (8 # 10) * value_of (recoverable_reserves r) /\
    value_of (recoverable_high (t RecoveryFactor))
    == (12 # 10) * value_of (recoverable_reserves r).
Proof.
  intros Hw (Ha & Hh & (Hp & Hp') & (Hws & Hws') & Hf & Hrf) Hr.
  assert (H8 : ~ fvf * (8 # 10) == 0) by (apply scaled_not_zero; lra).
  assert (H12 : ~ fvf * (12 # 10) == 0) by (apply scaled_not_zero; lra).
  pose proof (positive_not_eq_zero _ Hf) as Hf0.
  destruct (tornado_form a h por ws fvf rf r Hw Hr
              (exact_not_zero _ H8) (exact_not_zero _ H12))
    as (t & Et & Ht).
  exists t. split; [exact Et |].
  destruct (calculate_exact _ _ Hr) as (Hg & Hgr).
  cbn [form area thickness porosity water_saturation oil_fvf recovery_factor
       value_of of_int exact] in Hg, Hgr.
  split; [| split; [| split; [| split]]].
  - intros p Hp3.
    destruct (Ht p) as (Hspec & _).
    destruct (tornado_entry_values _ _ _ Hspec)
      as (il & ih & -> & -> & Hl & Hrl & Hh' & Hrh).
    destruct Hp3 as [-> | [-> | ->]];
      cbn [perturbed with_variable variable form low_factor high_factor
           area thickness porosity water_saturation oil_fvf recovery_factor
           value_of of_int of_decimal fmul exact] in Hl, Hrl, Hh', Hrh;
      rewrite Hrl, Hrh, Hl, Hh', Hgr, Hg;
      repeat split; field; exact Hf0.
  - destruct (Ht OilFVF) as (Hspec & _).
    destruct (tornado_entry_values _ _ _ Hspec)
      as (il & ih & -> & -> & Hl & _).
    cbn [perturbed with_variable variable form low_factor high_factor
         area thickness porosity water_saturation oil_fvf recovery_factor
         value_of of_int of_decimal fmul exact] in Hl.
    rewrite Hl, Hg. field; repeat split; try exact Hf0; try discriminate.
  - destruct (Ht OilFVF) as (Hspec & _).
    destruct (tornado_entry_values _ _ _ Hspec)
      as (il & ih & -> & -> & _ & _ & Hh' & _).
    cbn [perturbed with_variable variable form low_factor high_factor
         area thickness porosity water_saturation oil_fvf recovery_factor
         value_of of_int of_decimal fmul exact] in Hh'.
    rewrite Hh', Hg. field; repeat split; try exact Hf0; try discriminate.
  - destruct (Ht RecoveryFactor) as (Hspec & _).
    destruct (tornado_entry_values _ _ _ Hspec)
      as (il & ih & -> & -> & Hl & Hrl & _).
    cbn [perturbed with_variable variable form low_factor high_factor
         area thickness porosity water_saturation oil_fvf recovery_factor
         value_of of_int of_decimal fmul exact] in Hl, Hrl.
    rewrite Hrl, Hl, Hgr, Hg. field. exact Hf0.
  - destruct (Ht RecoveryFactor) as (Hspec & _).
    destruct (tornado_entry_values _ _ _ Hspec)
      as (il & ih & -> & -> & _ & _ & Hh' & Hrh).
    cbn [perturbed with_variable variable form low_factor high_factor
         area thickness porosity water_saturation oil_fvf recovery_factor
         value_of of_int of_decimal fmul exact] in Hh', Hrh.
    rewrite Hrh, Hh', Hgr, Hg. field. exact Hf0.
Qed.

End TornadoBars.

Lemma tornado_bars_witness :
  exists t : Param -> Tornado Q,
    tornado reference_exact reference_exact_results = Ok t /\
    (forall p : Param,
       p = Area \/ p = Thickness \/ p = Porosity ->
       (value_of (ooip_low (t p))
        == (8 # 10) * value_of (ooip reference_exact_results))%Q /\
       (value_of (ooip_high (t p))
        == (12 # 10) * value_of (ooip reference_exact_results))%Q /\
       (value_of (recoverable_low (t p))
        == (8 # 10)
           * value_of (recoverable_reserves reference_exact_results))%Q /\
       (value_of (recoverable_high (t p))
        == (12 # 10)
           * value_of (recoverable_reserves reference_exact_results))%Q) /\
    (value_of (ooip_low (t OilFVF))
     == value_of (ooip reference_exact_results) / (12 # 10))%Q /\
    (value_of (ooip_high (t OilFVF))
     == value_of (ooip reference_exact_results) / (8 # 10))%Q /\
    (value_of (recoverable_low (t RecoveryFactor))
     == (8 # 10) * value_of (recoverable_reserves reference_exact_results))%Q /\
    (value_of (recoverable_high (t RecoveryFactor))
     == (12 # 10)
        * value_of (recoverable_reserves reference_exact_results))%Q.
Proof.
  apply (tornado_bars 1000%Z 50%Z 20%Q 25%Q (13 # 10)%Q 30%Q
                      reference_exact_results).
  - exact reference_widget_ints.
  - exact reference_exact_valid.
  - vm_compute. reflexivity.
Defined.

(** ** More on the matrix *)

Section MatrixMore.

Context {F : Type} {AF : Arith F} {AS : ArithSpec F}.
Local Open Scope py_scope.

Lemma matrix_cell_unordered (a h : Z) (por ws fvf rf : F) (r : Results F)
  (param1 param2 : Param) (p1 p2 : F) :
  widget_ints a h ->
  calculate (form a h por ws fvf rf) = Ok r ->
  ordered param1 param2 = false ->
  bind (matrix_cell (form a h por ws fvf rf) r param1 param2
                    (NpFloat p1) (NpFloat p2)) store
  = Ok (value_of (ooip r), unordered_recoverable r param1 p1).
Proof.
  intros Hw Hr Hord.
  destruct (calculate_form_inv _ _ _ _ _ _ _ Hw Hr) as (Hz & ->).
  unfold matrix_cell, store, unordered_recoverable.
  destruct param1, param2; try discriminate Hord;
    repeat (progress py_eval); reflexivity.
Qed.

(** The two loops of the matrix, for any description of its cells. *)
Lemma matrix_cells (a h : Z) (por ws fvf rf : F) (r : Results F)
  (param1 param2 : Param) (cell_of : F -> F -> F * F) :
  widget_ints a h ->
  (forall p1 p2 : F,
     bind (matrix_cell (form a h por ws fvf rf) r param1 param2
                       (NpFloat p1) (NpFloat p2)) store
     = Ok (cell_of p1 p2)) ->
  exists m : Matrix F,
    matrix (form a h por ws fvf rf) r param1 param2 = Ok m /\
    List.length (param1_range m) = 10%nat /\
    List.length (param2_range m) = 10%nat /\
    ooip_matrix m
    = map (fun p1 => map (fun p2 => fst (cell_of p1 p2)) (param2_range m))
          (param1_range m) /\
    recoverable_matrix m
    = map (fun p1 => map (fun p2 => snd (cell_of p1 p2)) (param2_range m))
          (param1_range m).
Proof.
  intros Hw Hcell. unfold matrix.
  rewrite !matrix_range_form by exact Hw. cbn [bind].
  set (range1 :=
         linspace
           (fmul (value_of (variable (form a h por ws fvf rf) param1))
                 (of_decimal 8 10)) _ 10).
  set (range2 :=
         linspace
           (fmul (value_of (variable (form a h por ws fvf rf) param2))
                 (of_decimal 8 10)) _ 10).
  assert (Hrow : forall p1 : F,
            mapM (fun p2 =>
                    bind (matrix_cell (form a h por ws fvf rf) r param1 param2
                                      (NpFloat p1) (NpFloat p2))
                         (fun cell => store cell))
                 range2
            = Ok (map (cell_of p1) range2)).
  { intros p1. induction range2 as [| p2 l IH]; [reflexivity |].
    cbn [mapM map].
    change (bind (matrix_cell (form a h por ws fvf rf) r param1 param2
                              (NpFloat p1) (NpFloat p2))
                 (fun cell => store cell))
      with (bind (matrix_cell (form a h por ws fvf rf) r param1 param2
                              (NpFloat p1) (NpFloat p2)) store).
    rewrite Hcell. cbn [bind]. rewrite IH. reflexivity. }
  assert (Hall : mapM (fun p1 =>
                    mapM (fun p2 =>
                            bind (matrix_cell (form a h por ws fvf rf) r
                                              param1 param2
                                              (NpFloat p1) (NpFloat p2))
                                 (fun cell => store cell))
                         range2)
                    range1
                 = Ok (map (fun p1 => map (cell_of p1) range2) range1)).
  { induction range1 as [| p1 l IH]; [reflexivity |].
    cbn [mapM map]. rewrite Hrow. cbn [bind]. rewrite IH. reflexivity. }
  rewrite Hall. cbn [bind]. eexists. split; [reflexivity |].
  cbn [param1_range param2_range ooip_matrix recoverable_matrix].
  split; [apply linspace_length |]. split; [apply linspace_length |].
  rewrite !map_map. split; apply map_ext; intros p1; rewrite map_map;
    reflexivity.
Qed.

(** X12. For a pair of selections that is not one of the fifteen ordered
    ones (a reversed pair, or the same parameter twice) both grids ignore the
    second parameter.  Every OOIP cell is the base OOIP.  The recoverable grid
    is the base recoverable figure throughout, unless the first parameter is
    the recovery factor: then row j holds base OOIP times the j-th swept
    recovery fraction in every column. *)
Theorem matrix_unordered_grids (a h : Z) (por ws fvf rf : F) (r : Results F)
  (param1 param2 : Param) :
  widget_ints a h ->
  calculate (form a h por ws fvf rf) = Ok r ->
  ordered param1 param2 = false ->
  exists m : Matrix F,
    matrix (form a h por ws fvf rf) r param1 param2 = Ok m /\
    List.length (param1_range m) = 10%nat /\
    ooip_matrix m = repeat (repeat (value_of (ooip r)) 10) 10 /\
    recoverable_matrix m
    = map (fun p1 => repeat (unordered_recoverable r param1 p1) 10)
          (param1_range m).
Proof.
  intros Hw Hr Hord.
  destruct (matrix_cells a h por ws fvf rf r param1 param2
              (fun p1 _ => (value_of (ooip r),
                            unordered_recoverable r param1 p1)) Hw)
    as (m & Em & L1 & L2 & Eo & Erec).
  { intros p1 p2. apply matrix_cell_unordered; assumption. }
  exists m. split; [exact Em |]. split; [exact L1 |].
  cbn [fst snd] in Eo, Erec.
  assert (Hconst : forall (B : Type) (c : B) (l : list F),
            map (fun _ => c) l = repeat c (List.length l)).
  { intros B c l. induction l as [| x l IH]; simpl; congruence. }
  split.
  - rewrite Eo.
    rewrite (map_ext _ (fun _ => repeat (value_of (ooip r)) 10))
      by (intros p1; rewrite Hconst, L2; reflexivity).
    rewrite Hconst, L1. reflexivity.
  - rewrite Erec. apply map_ext. intros p1. rewrite Hconst, L2. reflexivity.
Qed.

Lemma matrix_cell_recovery_second (a h : Z) (por ws fvf rf : F)
  (r : Results F) (param1 : Param) (p1 p2 : F) :
  widget_ints a h ->
  calculate (form a h por ws fvf rf) = Ok r ->
  param1 <> RecoveryFactor ->
  (exists r1 : Results F,
     calculate (with_variable (form a h por ws fvf rf) param1 (NpFloat p1))
     = Ok r1) /\
  bind (matrix_cell (form a h por ws fvf rf) r param1 RecoveryFactor
                    (NpFloat p1) (NpFloat p2)) store
  = Ok (ooip_at (form a h por ws fvf rf) param1 p1,
        fmul (ooip_at (form a h por ws fvf rf) param1 p1) (fraction p2)).
Proof.
  intros Hw Hr Hp.
  destruct (calculate_form_inv _ _ _ _ _ _ _ Hw Hr) as (Hz & ->).
  destruct (widget_fits a h Hw) as (Ha & Hh & Hka & Hkah).
  unfold ooip_at, results_of, calculate, matrix_cell, store.
  destruct param1; try contradiction;
    repeat (progress (py_eval; rewrite ?Ha, ?Hh, ?Hka, ?Hkah, ?Hz));
    (split; [eexists; reflexivity | reflexivity]).
Qed.

(** X13. With the recovery factor as second parameter, the OOIP grid does
    not move along its rows: every cell of row j is the OOIP of the engine
    run with the first parameter at its j-th swept value, and the recoverable
    cell (j, k) is that OOIP times the k-th swept recovery fraction. *)
Theorem matrix_recovery_factor_second (a h : Z) (por ws fvf rf : F)
  (r : Results F) (param1 : Param) :
  widget_ints a h ->
  calculate (form a h por ws fvf rf) = Ok r ->
  param1 <> RecoveryFactor ->
  exists m : Matrix F,
    matrix (form a h por ws fvf rf) r param1 RecoveryFactor = Ok m /\
    List.length (param1_range m) = 10%nat /\
    List.length (param2_range m) = 10%nat /\
    (forall p1 : F,
       exists r1 : Results F,
         calculate (with_variable (form a h por ws fvf rf) param1
                                  (NpFloat p1)) = Ok r1 /\
         ooip_at (form a h por ws fvf rf) param1 p1 = value_of (ooip r1)) /\
    ooip_matrix m
    = map (fun p1 => repeat (ooip_at (form a h por ws fvf rf) param1 p1) 10)
          (param1_range m) /\
    recoverable_matrix m
    = map (fun p1 =>
             map (fun p2 =>
                    fmul (ooip_at (form a h por ws fvf rf) param1 p1)
                         (fraction p2))
                 (param2_range m))
          (param1_range m).
Proof.
  intros Hw Hr Hp.
  destruct (matrix_cells a h por ws fvf rf r param1 RecoveryFactor
              (fun p1 p2 =>
                 (ooip_at (form a h por ws fvf rf) param1 p1,
                  fmul (ooip_at (form a h por ws fvf rf) param1 p1)
                       (fraction p2))) Hw)
    as (m & Em & L1 & L2 & Eo & Erec).
  { intros p1 p2.
    apply (matrix_cell_recovery_second a h por ws fvf rf r param1 p1 p2);
      assumption. }
  exists m. split; [exact Em |]. split; [exact L1 |]. split; [exact L2 |].
  cbn [fst snd] in Eo, Erec.
  split; [| split; [| exact Erec]].
  - intros p1.
    destruct (matrix_cell_recovery_second a h por ws fvf rf r param1 p1 p1
                                          Hw Hr Hp) as ((r1 & E1) & _).
    exists r1. split; [exact E1 |].
    unfold ooip_at, results_of. rewrite E1. reflexivity.
  - rewrite Eo. apply map_ext. intros p1.
    rewrite <- L2. clear. induction (param2_range m); simpl; congruence.
Qed.

End MatrixMore.

Lemma matrix_unordered_grids_witness :
  exists m : Matrix float,
    matrix reference reference_results RecoveryFactor Area = Ok m /\
    List.length (param1_range m) = 10%nat /\
    ooip_matrix m = repeat (repeat (value_of (ooip reference_results)) 10) 10 /\
    recoverable_matrix m
    = map (fun p1 =>
             repeat (unordered_recoverable reference_results RecoveryFactor
                                           p1) 10)
          (param1_range m).
Proof.
  apply (matrix_unordered_grids (F := float) 1000%Z 50%Z 20%float 25%float
                                1.3%float 30%float reference_results
                                RecoveryFactor Area).
  - exact reference_widget_ints.
  - vm_compute. reflexivity.
  - reflexivity.
Defined.

Lemma matrix_recovery_factor_second_witness :
  exists m : Matrix float,
    matrix reference reference_results OilFVF RecoveryFactor = Ok m /\
    List.length (param1_range m) = 10%nat /\
    List.length (param2_range m) = 10%nat /\
    (forall p1 : float,
       exists r1 : Results float,
         calculate (with_variable reference OilFVF (NpFloat p1)) = Ok r1 /\
         ooip_at reference OilFVF p1 = value_of (ooip r1)) /\
    ooip_matrix m
    = map (fun p1 => repeat (ooip_at reference OilFVF p1) 10)
          (param1_range m) /\
    recoverable_matrix m
    = map (fun p1 =>
             map (fun p2 => fmul (ooip_at reference OilFVF p1) (fraction p2))
                 (param2_range m))
          (param1_range m).
Proof.
  apply (matrix_recovery_factor_second (F := float) 1000%Z 50%Z 20%float
                                       25%float 1.3%float 30%float
                                       reference_results OilFVF).
  - exact reference_widget_ints.
  - vm_compute. reflexivity.
  - discriminate.
Defined.

(** ** The metrics under the sweep *)

Section MetricsGeneric.

Context {F : Type} {AF : Arith F} {AS : ArithSpec F}.
Local Open Scope py_scope.

(** [min] and [max] return one of the items. *)
Lemma fold_keeps (P : num F -> Prop) (step : num F -> num F -> num F)
  (rest : list (num F)) (first : num F) :
  (forall best item, step best item = best \/ step best item = item) ->
  P first -> Forall P rest -> P (fold_left step rest first).
Proof.
  intros Hstep. revert first.
  induction rest as [| x rest IH]; intros first Hf Hr; cbn [fold_left].
  - exact Hf.
  - inversion Hr; subst. apply IH; [| assumption].
    destruct (Hstep first x) as [-> | ->]; assumption.
Qed.

Lemma py_min_keeps (P : num F -> Prop) (l : list (num F)) (m : num F) :
  Forall P l -> py_min l = Some m -> P m.
Proof.
  destruct l as [| first rest]; intros H E; [discriminate E |].
  injection E as <-. inversion H; subst.
  apply fold_keeps; try assumption.
  intros best item. destruct (py_lt item best); auto.
Qed.

Lemma py_max_keeps (P : num F -> Prop) (l : list (num F)) (m : num F) :
  Forall P l -> py_max l = Some m -> P m.
Proof.
  destruct l as [| first rest]; intros H E; [discriminate E |].
  injection E as <-. inversion H; subst.
  apply fold_keeps; try assumption.
  intros best item. destruct (py_lt best item); auto.
Qed.

Lemma py_min_In (l : list (num F)) (m : num F) :
  py_min l = Some m -> In m l.
Proof.
  apply (py_min_keeps (fun x => In x l)). apply Forall_forall. auto.
Qed.

Lemma py_max_In (l : list (num F)) (m : num F) :
  py_max l = Some m -> In m l.
Proof.
  apply (py_max_keeps (fun x => In x l)). apply Forall_forall. auto.
Qed.

Lemma py_min_some (l : list (num F)) (n : nat) :
  List.length l = S n -> exists m, py_min l = Some m.
Proof. destruct l; [discriminate | cbn; eauto]. Qed.

Lemma py_max_some (l : list (num F)) (n : nat) :
  List.length l = S n -> exists m, py_max l = Some m.
Proof. destruct l; [discriminate | cbn; eauto]. Qed.

Lemma py_min_repeat (x : num F) (n : nat) : py_min (repeat x (S n)) = Some x.
Proof.
  cbn [repeat py_min]. f_equal.
  induction n as [| n IH]; cbn [repeat fold_left]; [reflexivity |].
  destruct (py_lt x x); exact IH.
Qed.

Lemma py_max_repeat (x : num F) (n : nat) : py_max (repeat x (S n)) = Some x.
Proof.
  cbn [repeat py_max]. f_equal.
  induction n as [| n IH]; cbn [repeat fold_left]; [reflexivity |].
  destruct (py_lt x x); exact IH.
Qed.

(** The recoverable figures of the recovery-factor sweep are numpy
    floats. *)
Lemma recovery_sweep_kinds (a h : Z) (por ws fvf rf : F) (r : Results F)
  (s : Sweep F) :
  widget_ints a h ->
  calculate (form a h por ws fvf rf) = Ok r ->
  sensitivity (form a h por ws fvf rf) r RecoveryFactor = Ok s ->
  Forall (fun y => is_np y = true) (recoverable_values s).
Proof.
  intros Hw Hr Hs.
  destruct (sweep_structure a h por ws fvf rf r RecoveryFactor Hw Hr)
    as (s' & Es & _ & Lv & _ & Lr & Hpoints).
  rewrite Hs in Es. injection Es as <-.
  apply Forall_forall. intros y Hy.
  apply In_nth_error in Hy. destruct Hy as (k & Hk).
  pose proof (nth_error_lt Lr Hk) as Hlt.
  destruct (nth_error_in_range Lv Hlt) as (x & Hx).
  destruct (Hpoints k x Hx) as (r' & Er' & _ & Hy).
  rewrite Hk in Hy. injection Hy as ->.
  destruct (calculate_form_inv _ _ _ _ _ _ _ Hw Hr) as (Hz & _).
  destruct (widget_fits a h Hw) as (Ha & Hh & Hka & Hkah).
  unfold calculate in Er'. revert Er'.
  py_eval; rewrite ?Ha, ?Hh, ?Hka, ?Hkah; py_eval; rewrite ?Hz; py_eval.
  intros E. injection E as <-. reflexivity.
Qed.

(** X14. The sweep over the recovery factor leaves OOIP where it is:
    [min(ooip_values)] and [max(ooip_values)] are both the base OOIP.  The
    variation under the chart is then [(ooip - ooip) / ooip * 100] between
    Python floats: it raises [ZeroDivisionError] when the base OOIP is zero,
    and the metrics are shown otherwise. *)
Theorem metrics_recovery_factor_sweep (a h : Z) (por ws fvf rf : F)
  (r : Results F) :
  widget_ints a h ->
  calculate (form a h por ws fvf rf) = Ok r ->
  exists s : Sweep F,
    sensitivity (form a h por ws fvf rf) r RecoveryFactor = Ok s /\
    py_min (ooip_values s) = Some (ooip r) /\
    py_max (ooip_values s) = Some (ooip r) /\
    (is_zero (value_of (ooip r)) = true ->
     sensitivity_metrics r s = Some (Raise ZeroDivisionError)) /\
    (is_zero (value_of (ooip r)) = false ->
     exists m : Metrics F,
       sensitivity_metrics r s = Some (Ok m) /\
       min_ooip m = ooip r /\ max_ooip m = ooip r /\
       ooip_variation m
       = PyFloat (fmul (fdiv (fsub (value_of (ooip r)) (value_of (ooip r)))
                             (value_of (ooip r)))
                       (of_int 100))).
Proof.
  intros Hw Hr.
  destruct (sweep_ooip_independent a h por ws fvf rf rf r r RecoveryFactor
              Hw Hr Hr) as (s & _ & Es & _ & _ & Hflat).
  specialize (Hflat eq_refl).
  destruct (sweep_structure a h por ws fvf rf r RecoveryFactor Hw Hr)
    as (s' & Es' & _ & _ & _ & Lr & _).
  rewrite Es in Es'. injection Es' as <-.
  pose proof (recovery_sweep_kinds a h por ws fvf rf r s Hw Hr Es) as Hnp.
  exists s. split; [exact Es |].
  assert (Emin : py_min (ooip_values s) = Some (ooip r))
    by (rewrite Hflat; apply (py_min_repeat _ 99)).
  assert (Emax : py_max (ooip_values s) = Some (ooip r))
    by (rewrite Hflat; apply (py_max_repeat _ 99)).
  split; [exact Emin |]. split; [exact Emax |].
  destruct (py_min_some _ 99 Lr) as (lo & Elo).
  destruct (py_max_some _ 99 Lr) as (hi & Ehi).
  pose proof (py_min_keeps _ _ _ Hnp Elo) as Hlo.
  pose proof (py_max_keeps _ _ _ Hnp Ehi) as Hhi.
  destruct lo as [z | x | lo]; try discriminate Hlo.
  destruct hi as [z | x | hi]; try discriminate Hhi.
  destruct (calculate_form_inv _ _ _ _ _ _ _ Hw Hr) as (_ & ->).
  cbn [ooip value_of] in *.
  unfold sensitivity_metrics. rewrite Emin, Emax, Elo, Ehi.
  set (o := volumetric _ _ _ _).
  split; intros Hz; py_eval; rewrite Hz; py_eval.
  - reflexivity.
  - eexists. split; [reflexivity |]. cbn [min_ooip max_ooip ooip_variation].
    repeat split; reflexivity.
Qed.

End MetricsGeneric.

(** The reference case: its OOIP is not zero. *)
Lemma metrics_recovery_factor_sweep_witness :
  exists s : Sweep float,
    sensitivity reference reference_results RecoveryFactor = Ok s /\
    py_min (ooip_values s) = Some (ooip reference_results) /\
    py_max (ooip_values s) = Some (ooip reference_results) /\
    (is_zero (value_of (ooip reference_results)) = true ->
     sensitivity_metrics reference_results s
     = Some (Raise ZeroDivisionError)) /\
    (is_zero (value_of (ooip reference_results)) = false ->
     exists m : Metrics float,
       sensitivity_metrics reference_results s = Some (Ok m) /\
       min_ooip m = ooip reference_results /\
       max_ooip m = ooip reference_results /\
       ooip_variation m
       = PyFloat (fmul (fdiv (fsub (value_of (ooip reference_results))
                                   (value_of (ooip reference_results)))
                             (value_of (ooip reference_results)))
                       (of_int 100))).
Proof.
  apply (metrics_recovery_factor_sweep 1000 50 20%float 25%float 1.3%float
           30%float reference_results).
  - exact reference_widget_ints.
  - vm_compute. reflexivity.
Defined.

(** The reference case, sweep over the oil FVF from 1.04 to 1.56: the
    smallest OOIP is the last point (FVF 1.56), the largest the first (FVF
    1.04), and the variation is 41.7 %%. *)
Example reference_fvf_metrics_values :
  reference_fvf_metrics
  = Some (Ok {| min_ooip := NpFloat 37298076.92307692%float;
                max_ooip := NpFloat 55947115.384615384%float;
                min_recoverable := NpFloat 11189423.076923076%float;
                max_recoverable := NpFloat 16784134.615384616%float;
                ooip_variation := NpFloat 41.666666666666671%float;
                recoverable_variation := NpFloat 41.666666666666686%float |}).
Proof. vm_compute. reflexivity. Qed.

(** ** The metrics in exact arithmetic *)

Section MetricsExact.

Local Open Scope Q_scope.

Lemma py_lt_exact (a b : num Q) :
  py_lt a b = true <-> value_of a < value_of b.
Proof.
  assert (H : forall x y : Q, Qltb x y = true <-> x < y).
  { intros x y. unfold Qltb. rewrite Bool.negb_true_iff. split.
    - intros E. apply Qnot_le_lt. intros Hle.
      apply Qle_bool_iff in Hle. congruence.
    - intros Hlt. destruct (Qle_bool y x) eqn:E; [| reflexivity].
      apply Qle_bool_iff in E. lra. }
  destruct a as [x | x | x], b as [y | y | y];
    cbn [py_lt value_of of_int fltb exact]; try apply H.
  rewrite Z.ltb_lt, Zlt_Qlt. reflexivity.
Qed.

Lemma fold_min_exact (rest : list (num Q)) (first : num Q) :
  let m := fold_left (fun best item => if py_lt item best then item else best)
                     rest first in
  value_of m <= value_of first /\
  forall x, In x rest -> value_of m <= value_of x.
Proof.
  revert first.
  induction rest as [| x rest IH]; intros first; cbn [fold_left].
  - split; [lra | intros ? []].
  - destruct (IH (if py_lt x first then x else first)) as (H1 & H2).
    destruct (py_lt x first) eqn:E.
    + apply py_lt_exact in E. split; [lra |].
      intros y [<- | Hy]; [exact H1 | auto].
    + assert (~ value_of x < value_of first)
        by (rewrite <- py_lt_exact; congruence).
      split; [exact H1 |]. intros y [<- | Hy]; [lra | auto].
Qed.

Lemma fold_max_exact (rest : list (num Q)) (first : num Q) :
  let m := fold_left (fun best item => if py_lt best item then item else best)
                     rest first in
  value_of first <= value_of m /\
  forall x, In x rest -> value_of x <= value_of m.
Proof.
  revert first.
  induction rest as [| x rest IH]; intros first; cbn [fold_left].
  - split; [lra | intros ? []].
  - destruct (IH (if py_lt first x then x else first)) as (H1 & H2).
    destruct (py_lt first x) eqn:E.
    + apply py_lt_exact in E. split; [lra |].
      intros y [<- | Hy]; [exact H1 | auto].
    + assert (~ value_of first < value_of x)
        by (rewrite <- py_lt_exact; congruence).
      split; [exact H1 |]. intros y [<- | Hy]; [lra | auto].
Qed.

Lemma py_min_least (l : list (num Q)) (m x : num Q) :
  py_min l = Some m -> In x l -> value_of m <= value_of x.
Proof.
  destruct l as [| first rest]; intros E Hx; [discriminate E |].
  injection E as <-. destruct (fold_min_exact rest first) as (H1 & H2).
  destruct Hx as [<- | Hx]; auto.
Qed.

Lemma py_max_greatest (l : list (num Q)) (m x : num Q) :
  py_max l = Some m -> In x l -> value_of x <= value_of m.
Proof.
  destruct l as [| first rest]; intros E Hx; [discriminate E |].
  injection E as <-. destruct (fold_max_exact rest first) as (H1 & H2).
  destruct Hx as [<- | Hx]; auto.
Qed.

Lemma extremes_min_max (l : list (num Q)) (lo hi : Q) (mn mx : num Q) :
  extremes l lo hi -> py_min l = Some mn -> py_max l = Some mx ->
  value_of mn == lo /\ value_of mx == hi.
Proof.
  intros (Hb & (a & Ha & Ea) & (b & Hb' & Eb)) Emin Emax.
  pose proof (Hb _ (py_min_In _ _ Emin)) as H1.
  pose proof (Hb _ (py_max_In _ _ Emax)) as H2.
  pose proof (py_min_least _ _ _ Emin Ha) as H3.
  pose proof (py_max_greatest _ _ _ Emax Hb') as H4.
  split; lra.
Qed.

Lemma extremes_some (l : list (num Q)) (lo hi : Q) :
  extremes l lo hi ->
  exists mn mx, py_min l = Some mn /\ py_max l = Some mx.
Proof.
  intros (_ & (a & Ha & _) & _). destruct l; [destruct Ha |].
  cbn [py_min py_max]. eauto.
Qed.

Lemma sub_total (a b : num Q) : exists c, sub a b = Ok c.
Proof. destruct a, b; cbn; eauto. Qed.

Lemma mul_total (a b : num Q) : exists c, mul a b = Ok c.
Proof. destruct a, b; cbn; eauto. Qed.

Lemma truediv_total (a b : num Q) :
  ~ value_of b == 0 -> exists c, truediv a b = Ok c.
Proof.
  intros Hb. unfold truediv.
  destruct a as [x | x | x], b as [y | y | y];
    try (destruct y as [| y | y]);
    cbn [to_float bind is_np orb int_fits of_int is_zero fdiv exact value_of]
      in *;
    try (exfalso; apply Hb; reflexivity);
    try (destruct (Qeq_bool _ _) eqn:E;
         [apply Qeq_bool_iff in E; exfalso; apply Hb; exact E |]);
    eauto.
Qed.

(** The percentage under the chart. *)
Lemma variation_exact (mx mn base : num Q) :
  ~ value_of base == 0 ->
  exists v : num Q,
    (('mx - 'mn) / 'base * int 100)%py = Ok v /\
    value_of v == (value_of mx - value_of mn) / value_of base * 100.
Proof.
  intros Hb. unfold binop. cbn [bind].
  destruct (sub_total mx mn) as (d & Ed). rewrite Ed. cbn [bind].
  destruct (truediv_total d base Hb) as (q & Eq). rewrite Eq. cbn [bind].
  destruct (mul_total q (PyInt 100)) as (v & Ev). rewrite Ev.
  exists v. split; [reflexivity |].
  apply sub_exact in Ed. apply truediv_exact in Eq. apply mul_exact in Ev.
  rewrite Ev, Eq, Ed. reflexivity.
Qed.

Lemma exact_ooip_positive (a h : Z) (por ws fvf rf : Q) :
  form_valid a h por ws fvf rf ->
  0 < exact_ooip (form a h por ws fvf rf) /\
  0 < exact_recoverable (form a h por ws fvf rf).
Proof.
  intros (Ha & Hh & (Hp & Hp') & (Hw & Hw') & Hf & Hr).
  unfold exact_recoverable, exact_ooip.
  cbn [form area thickness porosity water_saturation oil_fvf recovery_factor
       value_of of_int exact].
  assert (HA : 0 < inject_Z a)
    by (change 0 with (inject_Z 0); rewrite <- Zlt_Qlt; lia).
  assert (HH : 0 < inject_Z h)
    by (change 0 with (inject_Z 0); rewrite <- Zlt_Qlt; lia).
  pose proof (Qinv_lt_0_compat _ Hf) as Ht.
  rewrite !Qdiv_100. unfold Qdiv.
  assert (H2 : 0 < por * (1 # 100)) by lra.
  assert (H3 : 0 < 1 - ws * (1 # 100)) by lra.
  assert (H4 : 0 < rf * (1 # 100)) by lra.
  assert (H7 : 0 < 7758 * inject_Z a * inject_Z h * (por * (1 # 100))
                   * (1 - ws * (1 # 100)) * / fvf)
    by (repeat apply Qmult_lt_0_compat; try assumption; reflexivity).
  split; [exact H7 | apply Qmult_lt_0_compat; assumption].
Qed.

(** The engine at the value [x] of [p], against the base case. *)
Lemma exact_ooip_ratio (a h : Z) (por ws fvf rf : Q) (p : Param) (x : Q) :
  form_valid a h por ws fvf rf ->
  (p = OilFVF -> 0 < x) ->
  let i := form a h por ws fvf rf in
  exact_ooip (with_variable i p (NpFloat x))
  == exact_ooip i * ooip_ratio p (value_of (variable i p)) x /\
  exact_recoverable (with_variable i p (NpFloat x))
  == exact_recoverable i * recoverable_ratio p (value_of (variable i p)) x.
Proof.
  intros (Ha & Hh & (Hp & Hp') & (Hw & Hw') & Hf & Hr) Hx i.
  assert (HA : 0 < inject_Z a)
    by (change 0 with (inject_Z 0); rewrite <- Zlt_Qlt; lia).
  assert (HH : 0 < inject_Z h)
    by (change 0 with (inject_Z 0); rewrite <- Zlt_Qlt; lia).
  unfold exact_recoverable, exact_ooip, i.
  destruct p;
    cbn [form with_variable variable ooip_ratio recoverable_ratio
         area thickness porosity water_saturation oil_fvf recovery_factor
         value_of of_int exact];
    try (specialize (Hx eq_refl));
    split; field; repeat split; intros H0; lra.
Qed.

Lemma ooip_ratio_proper (p : Param) (b x y : Q) :
  x == y ->
  ooip_ratio p b x == ooip_ratio p b y /\
  recoverable_ratio p b x == recoverable_ratio p b y.
Proof.
  intros E. destruct p; cbn [ooip_ratio recoverable_ratio];
    rewrite E; split; reflexivity.
Qed.

Lemma evenly_spaced_within (l : list Q) (first last : Q) (n k : nat) (x : Q) :
  (1 < n)%nat -> first <= last -> evenly_spaced l first last n ->
  nth_error l k = Some x -> first <= x <= last.
Proof.
  intros Hn Hle (Hlen & H) Hk.
  assert (Hkn : (k < n)%nat) by exact (nth_error_lt Hlen Hk).
  rewrite (H _ _ Hk).
  assert (Hm : 0 < inject_Z (Z.of_nat n - 1))
    by (change 0 with (inject_Z 0); rewrite <- Zlt_Qlt; lia).
  assert (H0 : 0 <= inject_Z (Z.of_nat k))
    by (change 0 with (inject_Z 0); rewrite <- Zle_Qle; lia).
  assert (H1 : inject_Z (Z.of_nat k) <= inject_Z (Z.of_nat n - 1))
    by (rewrite <- Zle_Qle; lia).
  pose proof (Qinv_lt_0_compat _ Hm) as Ht.
  assert (Hu : inject_Z (Z.of_nat n - 1) * / inject_Z (Z.of_nat n - 1) == 1)
    by (apply Qmult_inv_r; lra).
  unfold Qdiv.
  set (K := inject_Z (Z.of_nat k)) in *.
  set (N := inject_Z (Z.of_nat n - 1)) in *.
  set (t := / N) in *.
  assert (Hkt : 0 <= K * t) by (apply Qmult_le_0_compat; lra).
  assert (Hkt' : K * t <= 1) by nra.
  assert (E : K * (last - first) * t == (K * t) * (last - first)) by ring.
  rewrite E. set (u := K * t) in *. clearbody u. nra.
Qed.

(** The multiples over the range of a sweep. *)
Lemma ratio_bounds (p : Param) (b x : Q) :
  0 < b -> (p = WaterSaturation -> b < 100) ->
  b * sweep_low p <= x <= b * sweep_high p ->
  (fst (ooip_span p b) <= ooip_ratio p b x <= snd (ooip_span p b)) /\
  (fst (recoverable_span p b) <= recoverable_ratio p b x
   <= snd (recoverable_span p b)).
Proof.
  intros Hb Hws Hx.
  assert (linear : forall lo hi : Q,
             b * lo <= x <= b * hi -> lo <= x / b <= hi).
  { intros lo hi H. pose proof (Qinv_lt_0_compat _ Hb) as Ht.
    assert (Hu : b * / b == 1) by (apply Qmult_inv_r; lra).
    unfold Qdiv. set (t := / b) in *. clearbody t.
    assert (E1 : (x - b * lo) * t == x * t - lo * (b * t)) by ring.
    assert (E2 : (b * hi - x) * t == hi * (b * t) - x * t) by ring.
    rewrite Hu in E1, E2.
    assert (0 <= (x - b * lo) * t) by (apply Qmult_le_0_compat; lra).
    assert (0 <= (b * hi - x) * t) by (apply Qmult_le_0_compat; lra).
    lra. }
  destruct p;
    cbn [sweep_low sweep_high of_decimal exact ooip_span recoverable_span
         ooip_ratio recoverable_ratio fst snd] in *;
    try (split; apply linear; lra).
  - (* water saturation *)
    specialize (Hws eq_refl).
    assert (Hd : 0 < 100 - b) by lra.
    pose proof (Qinv_lt_0_compat _ Hd) as Ht.
    unfold Qdiv. set (t := / (100 - b)) in *. clearbody t. split; nra.
  - (* oil FVF *)
    assert (Hx0 : 0 < x) by lra.
    pose proof (Qinv_lt_0_compat _ Hx0) as Ht.
    assert (Hu : x * / x == 1) by (apply Qmult_inv_r; lra).
    unfold Qdiv. set (t := / x) in *. clearbody t. split; nra.
  - (* recovery factor *)
    split; [lra | apply linear; lra].
Qed.

(** The two ends of the range give the two ends of the span, in this order
    or the other. *)
Lemma ratio_ends (p : Param) (b : Q) :
  0 < b -> (p = WaterSaturation -> b < 100) ->
  let first := b * sweep_low p in
  let last := b * sweep_high p in
  ((ooip_ratio p b first == fst (ooip_span p b) /\
    ooip_ratio p b last == snd (ooip_span p b)) \/
   (ooip_ratio p b first == snd (ooip_span p b) /\
    ooip_ratio p b last == fst (ooip_span p b))) /\
  ((recoverable_ratio p b first == fst (recoverable_span p b) /\
    recoverable_ratio p b last == snd (recoverable_span p b)) \/
   (recoverable_ratio p b first == snd (recoverable_span p b) /\
    recoverable_ratio p b last == fst (recoverable_span p b))).
Proof.
  intros Hb Hws.
  destruct p;
    cbn [sweep_low sweep_high of_decimal exact ooip_span recoverable_span
         ooip_ratio recoverable_ratio fst snd] in *;
    try (specialize (Hws eq_refl));
    cbv zeta;
    try (split; left; split; try reflexivity; field; lra);
    try (split; right; split; field; repeat split; lra).
Qed.

(** A column of the data frame: from the values it holds point by point to
    its least and greatest value. *)
Lemma column_extremes (xs : list Q) (col : list (num Q)) (f : Q -> Q)
  (c lo hi first last : Q) :
  (forall (k : nat) (x : Q),
     nth_error xs k = Some x ->
     first <= x <= last /\
     exists o, nth_error col k = Some o /\ value_of o == c * f x) ->
  List.length col = List.length xs ->
  spans xs first last ->
  0 <= c ->
  (forall x y, x == y -> f x == f y) ->
  (forall x, first <= x <= last -> lo <= f x <= hi) ->
  (f first == lo /\ f last == hi) \/ (f first == hi /\ f last == lo) ->
  extremes col (c * lo) (c * hi).
Proof.
  intros Hpoints Hlen (x0 & x1 & E0 & Hx0 & E1 & Hx1) Hc Hf Hbound Hends.
  destruct (Hpoints _ _ E0) as (_ & o0 & Ho0 & V0).
  destruct (Hpoints _ _ E1) as (_ & o1 & Ho1 & V1).
  rewrite (Hf _ _ Hx0) in V0. rewrite (Hf _ _ Hx1) in V1.
  apply nth_error_In in Ho0, Ho1.
  split; [| destruct Hends as [(H0 & H1) | (H0 & H1)];
            rewrite H0 in V0; rewrite H1 in V1; split; eauto].
  intros o Ho. apply In_nth_error in Ho. destruct Ho as (k & Hk).
  assert (Hkx : (k < List.length xs)%nat)
    by (rewrite <- Hlen; apply nth_error_Some; congruence).
  destruct (nth_error xs k) as [x |] eqn:Ex;
    [| apply nth_error_None in Ex; lia].
  destruct (Hpoints _ _ Ex) as (Hx & o' & Ho' & V).
  rewrite Hk in Ho'. injection Ho' as <-.
  rewrite V. pose proof (Hbound _ Hx) as Hfx.
  set (y := f x) in *. clearbody y. nra.
Qed.

Lemma base_value_positive (a h : Z) (por ws fvf rf : Q) (p : Param) :
  form_valid a h por ws fvf rf ->
  0 < value_of (variable (form a h por ws fvf rf) p) /\
  (p = WaterSaturation ->
   value_of (variable (form a h por ws fvf rf) p) < 100).
Proof.
  intros (Ha & Hh & (Hp & Hp') & (Hw & Hw') & Hf & Hr).
  destruct p;
    cbn [variable form area thickness porosity water_saturation oil_fvf
         recovery_factor value_of of_int exact];
    (split; [| intros E; try discriminate E; assumption]);
    try assumption;
    change 0 with (inject_Z 0); rewrite <- Zlt_Qlt; lia.
Qed.

(** The sweep of an exact run, point by point. *)
Lemma sweep_points_exact (a h : Z) (por ws fvf rf : Q) (r : Results Q)
  (p : Param) :
  widget_ints a h -> form_valid a h por ws fvf rf ->
  calculate (form a h por ws fvf rf) = Ok r ->
  let b := value_of (variable (form a h por ws fvf rf) p) in
  exists s : Sweep Q,
    sensitivity (form a h por ws fvf rf) r p = Ok s /\
    spans (sweep_values s) (b * sweep_low p) (b * sweep_high p) /\
    List.length (ooip_values s) = List.length (sweep_values s) /\
    List.length (recoverable_values s) = List.length (sweep_values s) /\
    forall (k : nat) (x : Q),
      nth_error (sweep_values s) k = Some x ->
      b * sweep_low p <= x <= b * sweep_high p /\
      (exists o, nth_error (ooip_values s) k = Some o /\
                 value_of o == value_of (ooip r) * ooip_ratio p b x) /\
      (exists o, nth_error (recoverable_values s) k = Some o /\
                 value_of o
                 == value_of (recoverable_reserves r)
                    * recoverable_ratio p b x).
Proof.
  intros Hw Hv Hr b.
  destruct (sweep_structure a h por ws fvf rf r p Hw Hr)
    as (s & Es & _ & Lv & Lo & Lr & Hpoints).
  destruct (base_value_positive a h por ws fvf rf p Hv) as (Hb & _).
  fold b in Hb.
  assert (Hnn : 0 <= por /\ 0 <= ws /\ 0 <= fvf /\ 0 <= rf).
  { destruct Hv as (_ & _ & (? & _) & (? & _) & ? & ?).
    repeat split; lra. }
  destruct Hnn as (Hp & Hs & Hf & Hrf).
  destruct (sweep_values_exact a h por ws fvf rf r p s Hw Hp Hs Hf Hrf Es)
    as (Hev & Hsp & _).
  fold b in Hev, Hsp.
  exists s. split; [exact Es |]. split; [exact Hsp |].
  split; [congruence |]. split; [congruence |].
  intros k x Hk.
  assert (Hends : b * sweep_low p <= b * sweep_high p)
    by (destruct p; cbn [sweep_low sweep_high of_decimal exact]; nra).
  assert (H100 : (1 < 100)%nat) by lia.
  pose proof (evenly_spaced_within _ _ _ _ _ _ H100 Hends Hev Hk) as Hx.
  split; [exact Hx |].
  destruct (Hpoints k x Hk) as (r' & Er' & Ho & Hrc).
  destruct (calculate_exact _ _ Er') as (Vo & Vr).
  destruct (calculate_exact _ _ Hr) as (Go & Gr).
  change (value_of (ooip r')
          == exact_ooip (with_variable (form a h por ws fvf rf) p (NpFloat x)))
    in Vo.
  change (value_of (ooip r) == exact_ooip (form a h por ws fvf rf)) in Go.
  assert (Vr' : value_of (recoverable_reserves r')
                == exact_recoverable
                     (with_variable (form a h por ws fvf rf) p (NpFloat x)))
    by (unfold exact_recoverable; rewrite Vr, Vo; reflexivity).
  assert (Gr' : value_of (recoverable_reserves r)
                == exact_recoverable (form a h por ws fvf rf))
    by (unfold exact_recoverable; rewrite Gr, Go; reflexivity).
  destruct (exact_ooip_ratio a h por ws fvf rf p x Hv) as (Ro & Rr).
  { intros ->. cbn [sweep_low of_decimal exact] in Hx. nra. }
  fold b in Ro, Rr.
  split; eexists; (split; [eassumption |]).
  - rewrite Vo, Ro, Go. reflexivity.
  - rewrite Vr', Rr, Gr'. reflexivity.
Qed.

(** The metrics of every sweep, as multiples of the base case. *)
Lemma sweep_metrics_exact (a h : Z) (por ws fvf rf : Q) (r : Results Q)
  (p : Param) :
  widget_ints a h -> form_valid a h por ws fvf rf ->
  calculate (form a h por ws fvf rf) = Ok r ->
  let b := value_of (variable (form a h por ws fvf rf) p) in
  exists (s : Sweep Q) (m : Metrics Q),
    sensitivity (form a h por ws fvf rf) r p = Ok s /\
    sensitivity_metrics r s = Some (Ok m) /\
    value_of (min_ooip m) == value_of (ooip r) * fst (ooip_span p b) /\
    value_of (max_ooip m) == value_of (ooip r) * snd (ooip_span p b) /\
    value_of (ooip_variation m)
    == (snd (ooip_span p b) - fst (ooip_span p b)) * 100 /\
    value_of (min_recoverable m)
    == value_of (recoverable_reserves r) * fst (recoverable_span p b) /\
    value_of (max_recoverable m)
    == value_of (recoverable_reserves r) * snd (recoverable_span p b) /\
    value_of (recoverable_variation m)
    == (snd (recoverable_span p b) - fst (recoverable_span p b)) * 100.
Proof.
  intros Hw Hv Hr b.
  destruct (sweep_points_exact a h por ws fvf rf r p Hw Hv Hr)
    as (s & Es & Hsp & Lo & Lr & Hpoints).
  fold b in Hsp, Hpoints.
  destruct (base_value_positive a h por ws fvf rf p Hv) as (Hb & Hb100).
  fold b in Hb, Hb100.
  destruct (exact_ooip_positive a h por ws fvf rf Hv) as (Hg & Hgr).
  destruct (calculate_exact _ _ Hr) as (Go & Gr).
  change (value_of (ooip r) == exact_ooip (form a h por ws fvf rf)) in Go.
  assert (Gr' : value_of (recoverable_reserves r)
                == exact_recoverable (form a h por ws fvf rf))
    by (unfold exact_recoverable; rewrite Gr, Go; reflexivity).
  rewrite <- Go in Hg. rewrite <- Gr' in Hgr. clear Go Gr Gr'.
  destruct (ratio_ends p b Hb Hb100) as (Eo & Er).
  assert (Xo : extremes (ooip_values s)
                 (value_of (ooip r) * fst (ooip_span p b))
                 (value_of (ooip r) * snd (ooip_span p b))).
  { apply (column_extremes (sweep_values s) _ (ooip_ratio p b) _ _ _
             (b * sweep_low p) (b * sweep_high p)).
    - intros k x Hk. destruct (Hpoints k x Hk) as (Hx & Ho & _). auto.
    - exact Lo.
    - exact Hsp.
    - lra.
    - intros x y E. apply (ooip_ratio_proper p b x y E).
    - intros x Hx. apply (ratio_bounds p b x Hb Hb100 Hx).
    - exact Eo. }
  assert (Xr : extremes (recoverable_values s)
                 (value_of (recoverable_reserves r)
                  * fst (recoverable_span p b))
                 (value_of (recoverable_reserves r)
                  * snd (recoverable_span p b))).
  { apply (column_extremes (sweep_values s) _ (recoverable_ratio p b) _ _ _
             (b * sweep_low p) (b * sweep_high p)).
    - intros k x Hk. destruct (Hpoints k x Hk) as (Hx & _ & Ho). auto.
    - exact Lr.
    - exact Hsp.
    - lra.
    - intros x y E. apply (ooip_ratio_proper p b x y E).
    - intros x Hx. apply (ratio_bounds p b x Hb Hb100 Hx).
    - exact Er. }
  destruct (extremes_some _ _ _ Xo) as (omin & omax & Eomin & Eomax).
  destruct (extremes_some _ _ _ Xr) as (rmin & rmax & Ermin & Ermax).
  destruct (extremes_min_max _ _ _ _ _ Xo Eomin Eomax) as (Vomin & Vomax).
  destruct (extremes_min_max _ _ _ _ _ Xr Ermin Ermax) as (Vrmin & Vrmax).
  assert (Hg0 : ~ value_of (ooip r) == 0) by lra.
  assert (Hgr0 : ~ value_of (recoverable_reserves r) == 0) by lra.
  destruct (variation_exact omax omin (ooip r) Hg0) as (ov & Eov & Vov).
  destruct (variation_exact rmax rmin (recoverable_reserves r) Hgr0)
    as (rv & Erv & Vrv).
  exists s. eexists. split; [exact Es |].
  split.
  { destruct r as [pd wsd rfd o rc]. unfold sensitivity_metrics.
    cbn [ooip recoverable_reserves] in Eov, Erv.
    rewrite Eomin, Eomax, Ermin, Ermax, Eov. cbn [bind]. rewrite Erv.
    cbn [bind]. reflexivity. }
  cbn [min_ooip max_ooip min_recoverable max_recoverable ooip_variation
       recoverable_variation].
  split; [exact Vomin |]. split; [exact Vomax |].
  split; [rewrite Vov, Vomin, Vomax; field; exact Hg0 |].
  split; [exact Vrmin |]. split; [exact Vrmax |].
  rewrite Vrv, Vrmin, Vrmax. field. exact Hgr0.
Qed.

End MetricsExact.

Section SweepMetrics.

Local Open Scope Q_scope.

Variables (a h : Z) (por ws fvf rf : Q) (r : Results Q).
Hypothesis widgets : widget_ints a h.
Hypothesis valid : form_valid a h por ws fvf rf.
Hypothesis base_case : calculate (form a h por ws fvf rf) = Ok r.

(** X15. Sweeps over area, thickness and porosity, in exact arithmetic on
    valid inputs: the metrics are shown, the least OOIP is half the base
    OOIP and the greatest one and a half times the base OOIP, the same for
    the recoverable figure, and both variations are 100 %%, whatever the
    inputs. *)
Theorem metrics_linear_sweep (p : Param) :
  p = Area \/ p = Thickness \/ p = Porosity ->
  exists (s : Sweep Q) (m : Metrics Q),
    sensitivity (form a h por ws fvf rf) r p = Ok s /\
    sensitivity_metrics r s = Some (Ok m) /\
    value_of (min_ooip m) == value_of (ooip r) * (1 # 2) /\
    value_of (max_ooip m) == value_of (ooip r) * (3 # 2) /\
    value_of (ooip_variation m) == 100 /\
    value_of (min_recoverable m)
    == value_of (recoverable_reserves r) * (1 # 2) /\
    value_of (max_recoverable m)
    == value_of (recoverable_reserves r) * (3 # 2) /\
    value_of (recoverable_variation m) == 100.
Proof.
  intros Hp.
  pose proof (sweep_metrics_exact a h por ws fvf rf r p widgets valid
                base_case) as H.
  cbv zeta in H.
  destruct H as (s & m & Es & Em & H1 & H2 & H3 & H4 & H5 & H6).
  exists s, m. split; [exact Es |]. split; [exact Em |].
  destruct Hp as [-> | [-> | ->]];
    cbn [ooip_span recoverable_span fst snd] in *;
    (split; [exact H1 |]); (split; [exact H2 |]);
    (split; [rewrite H3; lra |]);
    (split; [exact H4 |]); (split; [exact H5 |]);
    rewrite H6; lra.
Qed.

(** X16. The sweep over the oil FVF, from 0.8 to 1.2 times its base value:
    the least OOIP is the base OOIP over 1.2 and the greatest the base OOIP
    over 0.8, the same for the recoverable figure, and both variations are
    125/3 = 41.7 %%, whatever the inputs. *)
Theorem metrics_oil_fvf_sweep :
  exists (s : Sweep Q) (m : Metrics Q),
    sensitivity (form a h por ws fvf rf) r OilFVF = Ok s /\
    sensitivity_metrics r s = Some (Ok m) /\
    value_of (min_ooip m) == value_of (ooip r) / (12 # 10) /\
    value_of (max_ooip m) == value_of (ooip r) / (8 # 10) /\
    value_of (ooip_variation m) == 125 # 3 /\
    value_of (min_recoverable m)
    == value_of (recoverable_reserves r) / (12 # 10) /\
    value_of (max_recoverable m)
    == value_of (recoverable_reserves r) / (8 # 10) /\
    value_of (recoverable_variation m) == 125 # 3.
Proof.
  pose proof (sweep_metrics_exact a h por ws fvf rf r OilFVF widgets valid
                base_case) as H.
  cbv zeta in H.
  destruct H as (s & m & Es & Em & H1 & H2 & H3 & H4 & H5 & H6).
  exists s, m. split; [exact Es |]. split; [exact Em |].
  cbn [ooip_span recoverable_span fst snd] in *.
  split; [rewrite H1; field |]. split; [rewrite H2; field |].
  split; [rewrite H3; lra |].
  split; [rewrite H4; field |]. split; [rewrite H5; field |].
  rewrite H6. lra.
Qed.

(** X17. The sweep over the water saturation, from half to one and a half
    times its base value [ws]: the least OOIP is at the last point and the
    greatest at the first, the base OOIP times (100 - 1.5 ws) / (100 - ws)
    and (100 - 0.5 ws) / (100 - ws); the same for the recoverable figure;
    both variations are 100 ws / (100 - ws) %%. *)
Theorem metrics_water_saturation_sweep :
  exists (s : Sweep Q) (m : Metrics Q),
    sensitivity (form a h por ws fvf rf) r WaterSaturation = Ok s /\
    sensitivity_metrics r s = Some (Ok m) /\
    value_of (min_ooip m)
    == value_of (ooip r) * ((100 - (3 # 2) * ws) / (100 - ws)) /\
    value_of (max_ooip m)
    == value_of (ooip r) * ((100 - (1 # 2) * ws) / (100 - ws)) /\
    value_of (ooip_variation m) == 100 * ws / (100 - ws) /\
    value_of (min_recoverable m)
    == value_of (recoverable_reserves r)
       * ((100 - (3 # 2) * ws) / (100 - ws)) /\
    value_of (max_recoverable m)
    == value_of (recoverable_reserves r)
       * ((100 - (1 # 2) * ws) / (100 - ws)) /\
    value_of (recoverable_variation m) == 100 * ws / (100 - ws).
Proof.
  pose proof (sweep_metrics_exact a h por ws fvf rf r WaterSaturation widgets
                valid base_case) as H.
  cbv zeta in H.
  destruct H as (s & m & Es & Em & H1 & H2 & H3 & H4 & H5 & H6).
  exists s, m. split; [exact Es |]. split; [exact Em |].
  cbn [ooip_span recoverable_span fst snd variable form water_saturation
       value_of] in *.
  assert (Hws : ~ 100 - ws == 0)
    by (destruct valid as (_ & _ & _ & (_ & ?) & _); lra).
  split; [exact H1 |]. split; [exact H2 |].
  split; [rewrite H3; field; exact Hws |].
  split; [exact H4 |]. split; [exact H5 |].
  rewrite H6. field. exact Hws.
Qed.

(** X18. The sweep over the recovery factor: OOIP does not move (least
    and greatest are the base OOIP, variation 0 %%), while the recoverable
    figure runs from half to one and a half times its base value,
    variation 100 %%. *)
Theorem metrics_recovery_factor_sweep_exact :
  exists (s : Sweep Q) (m : Metrics Q),
    sensitivity (form a h por ws fvf rf) r RecoveryFactor = Ok s /\
    sensitivity_metrics r s = Some (Ok m) /\
    value_of (min_ooip m) == value_of (ooip r) /\
    value_of (max_ooip m) == value_of (ooip r) /\
    value_of (ooip_variation m) == 0 /\
    value_of (min_recoverable m)
    == value_of (recoverable_reserves r) * (1 # 2) /\
    value_of (max_recoverable m)
    == value_of (recoverable_reserves r) * (3 # 2) /\
    value_of (recoverable_variation m) == 100.
Proof.
  pose proof (sweep_metrics_exact a h por ws fvf rf r RecoveryFactor widgets
                valid base_case) as H.
  cbv zeta in H.
  destruct H as (s & m & Es & Em & H1 & H2 & H3 & H4 & H5 & H6).
  exists s, m. split; [exact Es |]. split; [exact Em |].
  cbn [ooip_span recoverable_span fst snd] in *.
  split; [rewrite H1; ring |]. split; [rewrite H2; ring |].
  split; [rewrite H3; lra |].
  split; [exact H4 |]. split; [exact H5 |].
  rewrite H6. lra.
Qed.

End SweepMetrics.

Lemma metrics_linear_sweep_witness :
  exists (s : Sweep Q) (m : Metrics Q),
    sensitivity reference_exact reference_exact_results Porosity = Ok s /\
    sensitivity_metrics reference_exact_results s = Some (Ok m) /\
    (value_of (min_ooip m)
     == value_of (ooip reference_exact_results) * (1 # 2))%Q /\
    (value_of (max_ooip m)
     == value_of (ooip reference_exact_results) * (3 # 2))%Q /\
    (value_of (ooip_variation m) == 100)%Q /\
    (value_of (min_recoverable m)
     == value_of (recoverable_reserves reference_exact_results) * (1 # 2))%Q /\
    (value_of (max_recoverable m)
     == value_of (recoverable_reserves reference_exact_results) * (3 # 2))%Q /\
    (value_of (recoverable_variation m) == 100)%Q.
Proof.
  apply (metrics_linear_sweep 1000%Z 50%Z 20%Q 25%Q (13 # 10)%Q 30%Q
           reference_exact_results).
  - exact reference_widget_ints.
  - exact reference_exact_valid.
  - vm_compute. reflexivity.
  - right. right. reflexivity.
Defined.

Lemma metrics_oil_fvf_sweep_witness :
  exists (s : Sweep Q) (m : Metrics Q),
    sensitivity reference_exact reference_exact_results OilFVF = Ok s /\
    sensitivity_metrics reference_exact_results s = Some (Ok m) /\
    (value_of (min_ooip m)
     == value_of (ooip reference_exact_results) / (12 # 10))%Q /\
    (value_of (max_ooip m)
     == value_of (ooip reference_exact_results) / (8 # 10))%Q /\
    (value_of (ooip_variation m) == 125 # 3)%Q /\
    (value_of (min_recoverable m)
     == value_of (recoverable_reserves reference_exact_results)
        / (12 # 10))%Q /\
    (value_of (max_recoverable m)
     == value_of (recoverable_reserves reference_exact_results)
        / (8 # 10))%Q /\
    (value_of (recoverable_variation m) == 125 # 3)%Q.
Proof.
  apply (metrics_oil_fvf_sweep 1000%Z 50%Z 20%Q 25%Q (13 # 10)%Q 30%Q
           reference_exact_results).
  - exact reference_widget_ints.
  - exact reference_exact_valid.
  - vm_compute. reflexivity.
Defined.

Lemma metrics_water_saturation_sweep_witness :
  exists (s : Sweep Q) (m : Metrics Q),
    sensitivity reference_exact reference_exact_results WaterSaturation
    = Ok s /\
    sensitivity_metrics reference_exact_results s = Some (Ok m) /\
    (value_of (min_ooip m)
     == value_of (ooip reference_exact_results)
        * ((100 - (3 # 2) * 25) / (100 - 25)))%Q /\
    (value_of (max_ooip m)
     == value_of (ooip reference_exact_results)
        * ((100 - (1 # 2) * 25) / (100 - 25)))%Q /\
    (value_of (ooip_variation m) == 100 * 25 / (100 - 25))%Q /\
    (value_of (min_recoverable m)
     == value_of (recoverable_reserves reference_exact_results)
        * ((100 - (3 # 2) * 25) / (100 - 25)))%Q /\
    (value_of (max_recoverable m)
     == value_of (recoverable_reserves reference_exact_results)
        * ((100 - (1 # 2) * 25) / (100 - 25)))%Q /\
    (value_of (recoverable_variation m) == 100 * 25 / (100 - 25))%Q.
Proof.
  apply (metrics_water_saturation_sweep 1000%Z 50%Z 20%Q 25%Q (13 # 10)%Q
           30%Q reference_exact_results).
  - exact reference_widget_ints.
  - exact reference_exact_valid.
  - vm_compute. reflexivity.
Defined.

Lemma metrics_recovery_factor_sweep_exact_witness :
  exists (s : Sweep Q) (m : Metrics Q),
    sensitivity reference_exact reference_exact_results RecoveryFactor
    = Ok s /\
    sensitivity_metrics reference_exact_results s = Some (Ok m) /\
    (value_of (min_ooip m) == value_of (ooip reference_exact_results))%Q /\
    (value_of (max_ooip m) == value_of (ooip reference_exact_results))%Q /\
    (value_of (ooip_variation m) == 0)%Q /\
    (value_of (min_recoverable m)
     == value_of (recoverable_reserves reference_exact_results) * (1 # 2))%Q /\
    (value_of (max_recoverable m)
     == value_of (recoverable_reserves reference_exact_results) * (3 # 2))%Q /\
    (value_of (recoverable_variation m) == 100)%Q.
Proof.
  apply (metrics_recovery_factor_sweep_exact 1000%Z 50%Z 20%Q 25%Q
           (13 # 10)%Q 30%Q reference_exact_results).
  - exact reference_widget_ints.
  - exact reference_exact_valid.
  - vm_compute. reflexivity.
Defined.

(** ** One run of the page *)

Section PageRun.

Context {F : Type} {AF : Arith F} {AS : ArithSpec F}.
Local Open Scope py_scope.

(** The kinds of the two figures of a sweep point: everything computed from
    a value of [np.linspace] is a numpy float; only the OOIP of the
    recovery-factor sweep stays the Python float of the base case. *)
Lemma sweep_point_kinds (a h : Z) (por ws fvf rf : F) (p : Param) (x : F)
  (r' : Results F) :
  widget_ints a h ->
  is_zero fvf = false ->
  calculate (with_variable (form a h por ws fvf rf) p (NpFloat x)) = Ok r' ->
  is_np (recoverable_reserves r') = true /\
  (p <> RecoveryFactor -> is_np (ooip r') = true).
Proof.
  intros Hw Hz.
  destruct (widget_fits a h Hw) as (Ha & Hh & Hka & Hkah).
  unfold calculate.
  destruct p; py_eval; rewrite ?Ha, ?Hh, ?Hka, ?Hkah; py_eval;
    rewrite ?Hz; py_eval;
    intros E; injection E as <-; cbn [ooip recoverable_reserves is_np];
    (split; [reflexivity | intros H; try reflexivity; congruence]).
Qed.

Lemma sweep_kinds (a h : Z) (por ws fvf rf : F) (r : Results F) (p : Param)
  (s : Sweep F) :
  widget_ints a h ->
  calculate (form a h por ws fvf rf) = Ok r ->
  sensitivity (form a h por ws fvf rf) r p = Ok s ->
  Forall (fun y => is_np y = true) (recoverable_values s) /\
  (p <> RecoveryFactor -> Forall (fun y => is_np y = true) (ooip_values s)).
Proof.
  intros Hw Hr Hs.
  destruct (sweep_structure a h por ws fvf rf r p Hw Hr)
    as (s' & Es & _ & Lv & Lo & Lr & Hpoints).
  rewrite Hs in Es. injection Es as <-.
  destruct (calculate_form_inv _ _ _ _ _ _ _ Hw Hr) as (Hz & _).
  split; [| intros Hp]; apply Forall_forall; intros y Hy;
    apply In_nth_error in Hy; destruct Hy as (k & Hk).
  - pose proof (nth_error_lt Lr Hk) as Hlt.
    destruct (nth_error_in_range Lv Hlt) as (x & Hx).
    destruct (Hpoints k x Hx) as (r' & Er' & _ & Hy).
    rewrite Hk in Hy. injection Hy as ->.
    apply (sweep_point_kinds a h por ws fvf rf p x r' Hw Hz Er').
  - pose proof (nth_error_lt Lo Hk) as Hlt.
    destruct (nth_error_in_range Lv Hlt) as (x & Hx).
    destruct (Hpoints k x Hx) as (r' & Er' & Hy & _).
    rewrite Hk in Hy. injection Hy as ->.
    apply (sweep_point_kinds a h por ws fvf rf p x r' Hw Hz Er'). exact Hp.
Qed.

(** The metrics of a sweep: computed without exception, except for the
    recovery-factor sweep of a base case whose OOIP is zero, where line 246
    divides zero by zero between Python floats. *)
Lemma sweep_metrics_outcome (a h : Z) (por ws fvf rf : F) (r : Results F)
  (p : Param) (s : Sweep F) :
  widget_ints a h ->
  calculate (form a h por ws fvf rf) = Ok r ->
  sensitivity (form a h por ws fvf rf) r p = Ok s ->
  (p = RecoveryFactor -> is_zero (value_of (ooip r)) = true ->
   sensitivity_metrics r s = Some (Raise ZeroDivisionError)) /\
  ((p = RecoveryFactor -> is_zero (value_of (ooip r)) = false) ->
   exists k : Metrics F, sensitivity_metrics r s = Some (Ok k)).
Proof.
  intros Hw Hr Hs.
  destruct (sweep_structure a h por ws fvf rf r p Hw Hr)
    as (s' & Es & _ & _ & Lo & Lr & _).
  rewrite Hs in Es. injection Es as <-.
  destruct (sweep_kinds a h por ws fvf rf r p s Hw Hr Hs) as (Knp & Onp).
  destruct (py_min_some _ 99 Lr) as (rlo & Erlo).
  destruct (py_max_some _ 99 Lr) as (rhi & Erhi).
  destruct (py_min_some _ 99 Lo) as (olo & Eolo).
  destruct (py_max_some _ 99 Lo) as (ohi & Eohi).
  pose proof (py_min_keeps _ _ _ Knp Erlo) as Hrlo.
  pose proof (py_max_keeps _ _ _ Knp Erhi) as Hrhi.
  destruct rlo as [z | x | rlo]; try discriminate Hrlo.
  destruct rhi as [z | x | rhi]; try discriminate Hrhi.
  assert (Hflat : p = RecoveryFactor -> olo = ooip r /\ ohi = ooip r).
  { intros ->.
    destruct (sweep_ooip_independent a h por ws fvf rf rf r r RecoveryFactor
                Hw Hr Hr) as (s1 & _ & Es1 & _ & _ & Hflat).
    rewrite Hs in Es1. injection Es1 as <-. specialize (Hflat eq_refl).
    rewrite Hflat in Eolo, Eohi.
    rewrite (py_min_repeat _ 99) in Eolo. rewrite (py_max_repeat _ 99) in Eohi.
    split; congruence. }
  assert (Hkinds : (p <> RecoveryFactor /\ is_np olo = true /\
                    is_np ohi = true)
                   \/ (p = RecoveryFactor /\ olo = ooip r /\ ohi = ooip r)).
  { assert (Hp : p = RecoveryFactor \/ p <> RecoveryFactor)
      by (destruct p; (left; reflexivity) || (right; discriminate)).
    destruct Hp as [Hp | Hp]; [right; split; auto |].
    left. split; [exact Hp |]. specialize (Onp Hp).
    split; [exact (py_min_keeps _ _ _ Onp Eolo)
           | exact (py_max_keeps _ _ _ Onp Eohi)]. }
  clear Hflat Onp Knp.
  destruct (calculate_form_inv _ _ _ _ _ _ _ Hw Hr) as (_ & ->).
  cbn [ooip value_of] in *.
  unfold sensitivity_metrics. rewrite Eolo, Eohi, Erlo, Erhi.
  clear Eolo Eohi Erlo Erhi.
  set (o := volumetric _ _ _ _) in *.
  split.
  - intros Hp Hz.
    destruct Hkinds as [(Hne & _) | (_ & -> & ->)]; [contradiction |].
    py_eval. rewrite Hz. reflexivity.
  - intros Hnz.
    destruct Hkinds as [(_ & Holo & Hohi) | (Hp & -> & ->)].
    + destruct olo as [z | x | olo]; try discriminate Holo.
      destruct ohi as [z | x | ohi]; try discriminate Hohi.
      py_eval. eexists. reflexivity.
    + specialize (Hnz Hp). py_eval. rewrite Hnz. py_eval.
      eexists. reflexivity.
Qed.

(** X9. One run of the page.  With a zero oil FVF it ends in the
    [ZeroDivisionError] of line 124 before any tab.  With a base OOIP of
    zero and the recovery factor selected for the sweep it ends in the
    [ZeroDivisionError] of line 246, under the chart of the first tab.
    Otherwise, and when neither perturbed oil FVF of the tornado is zero, it
    runs to its end: a sweep of 100 points with its metrics, six tornado
    entries and two 10 x 10 grids, whatever is selected. *)
Theorem page_outcome (a h : Z) (por ws fvf rf : F)
  (param_to_analyze param1 param2 : Param) :
  widget_ints a h ->
  let o := volumetric (of_int (7758 * a * h)) (fraction por) (fraction ws)
                      fvf in
  (is_zero fvf = true ->
   page (form a h por ws fvf rf) param_to_analyze param1 param2
   = Raise ZeroDivisionError) /\
  (is_zero fvf = false ->
   param_to_analyze = RecoveryFactor ->
   is_zero o = true ->
   page (form a h por ws fvf rf) param_to_analyze param1 param2
   = Raise ZeroDivisionError) /\
  (is_zero fvf = false ->
   (param_to_analyze = RecoveryFactor -> is_zero o = false) ->
   is_zero (fmul fvf (of_decimal 8 10)) = false ->
   is_zero (fmul fvf (of_decimal 12 10)) = false ->
   exists pg : Page F,
     page (form a h por ws fvf rf) param_to_analyze param1 param2 = Ok pg /\
     calculate (form a h por ws fvf rf) = Ok (results pg) /\
     sensitivity_metrics (results pg) (tab1 pg) = Some (Ok (tab1_metrics pg)) /\
     List.length (ooip_values (tab1 pg)) = 100%nat /\
     List.length (recoverable_values (tab1 pg)) = 100%nat /\
     List.length (ooip_matrix (tab3 pg)) = 10%nat /\
     Forall (fun row => List.length row = 10%nat) (ooip_matrix (tab3 pg)) /\
     List.length (recoverable_matrix (tab3 pg)) = 10%nat /\
     Forall (fun row => List.length row = 10%nat)
            (recoverable_matrix (tab3 pg))).
Proof.
  intros Hw o. destruct (widget_fits a h Hw) as (_ & _ & _ & Hfit).
  split; [intros Hz; apply page_zero_fvf; assumption |].
  assert (Hrun : is_zero fvf = false ->
                 exists r s,
                   calculate (form a h por ws fvf rf) = Ok r /\
                   value_of (ooip r) = o /\
                   sensitivity (form a h por ws fvf rf) r param_to_analyze
                   = Ok s /\
                   List.length (ooip_values s) = 100%nat /\
                   List.length (recoverable_values s) = 100%nat).
  { intros Hz.
    pose proof (calculate_form a h por ws fvf rf Hfit Hz) as Hr.
    cbv zeta in Hr. set (r := Build_Results _ _ _ _ _) in Hr.
    destruct (sweep_structure a h por ws fvf rf r param_to_analyze Hw Hr)
      as (s & Es & _ & _ & Lo & Lr & _).
    exists r, s. repeat split; assumption. }
  split.
  - intros Hz Hp Ho.
    destruct (Hrun Hz) as (r & s & Hr & Vo & Es & _).
    destruct (sweep_metrics_outcome a h por ws fvf rf r param_to_analyze s
                Hw Hr Es) as (Hraise & _).
    rewrite <- Vo in Ho.
    unfold page. rewrite Hr. cbn [bind]. rewrite Es. cbn [bind].
    rewrite (Hraise Hp Ho). reflexivity.
  - intros Hz Ho Hz8 Hz12.
    destruct (Hrun Hz) as (r & s & Hr & Vo & Es & Lo & Lr).
    destruct (sweep_metrics_outcome a h por ws fvf rf r param_to_analyze s
                Hw Hr Es) as (_ & Hmetrics).
    rewrite <- Vo in Ho. destruct (Hmetrics Ho) as (k & Ek).
    destruct (tornado_form a h por ws fvf rf r Hw Hr Hz8 Hz12)
      as (t & Et & _).
    destruct (matrix_form a h por ws fvf rf r param1 param2 Hw Hr)
      as (m & cells & Em & E1 & E2 & Eo & Erec & Hcells).
    unfold page. rewrite Hr. cbn [bind]. rewrite Es. cbn [bind].
    rewrite Ek. cbn [bind]. rewrite Et. cbn [bind]. rewrite Em. cbn [bind].
    eexists. split; [reflexivity |].
    cbn [results tab1 tab1_metrics tab3].
    assert (L1 : List.length (param1_range m) = 10%nat)
      by (rewrite E1; apply linspace_length).
    assert (L2 : List.length (param2_range m) = 10%nat)
      by (rewrite E2; apply linspace_length).
    pose proof (Forall2_length_eq _ _ _ Hcells) as Lc.
    assert (Hrows : Forall (fun row : list (F * F) =>
                              List.length row = 10%nat) cells).
    { clear - Hcells L2. induction Hcells as [| x row l cs Hrow H IH];
        constructor; [| exact IH].
      rewrite (Forall2_length_eq _ _ _ Hrow). exact L2. }
    repeat split; try assumption.
    + rewrite Eo, length_map. congruence.
    + rewrite Eo. apply Forall_map.
      eapply Forall_impl; [| exact Hrows].
      intros row Hrow. cbv beta. rewrite length_map. exact Hrow.
    + rewrite Erec, length_map. congruence.
    + rewrite Erec. apply Forall_map.
      eapply Forall_impl; [| exact Hrows].
      intros row Hrow. cbv beta. rewrite length_map. exact Hrow.
Qed.

End PageRun.

(** Three runs in binary64: a zero oil FVF; a porosity of zero with the
    sweep over the recovery factor; the reference case. *)
Lemma page_outcome_witness :
  page (form 1000 50 20 25 0 30)%float OilFVF Area Thickness
  = Raise ZeroDivisionError /\
  page (form 1000 50 0 25 1.3 30)%float RecoveryFactor Area Thickness
  = Raise ZeroDivisionError /\
  exists pg : Page float,
    page reference OilFVF Area Thickness = Ok pg /\
    calculate reference = Ok (results pg) /\
    sensitivity_metrics (results pg) (tab1 pg) = Some (Ok (tab1_metrics pg)) /\
    List.length (ooip_values (tab1 pg)) = 100%nat /\
    List.length (recoverable_values (tab1 pg)) = 100%nat /\
    List.length (ooip_matrix (tab3 pg)) = 10%nat /\
    Forall (fun row => List.length row = 10%nat) (ooip_matrix (tab3 pg)) /\
    List.length (recoverable_matrix (tab3 pg)) = 10%nat /\
    Forall (fun row => List.length row = 10%nat)
           (recoverable_matrix (tab3 pg)).
Proof.
  split; [| split].
  - refine (proj1 (page_outcome (F := float) 1000%Z 50%Z 20%float 25%float
                     0%float 30%float OilFVF Area Thickness
                     reference_widget_ints) _).
    vm_compute. reflexivity.
  - refine (proj1 (proj2 (page_outcome (F := float) 1000%Z 50%Z 0%float
                            25%float 1.3%float 30%float RecoveryFactor Area
                            Thickness reference_widget_ints)) _ _ _);
      vm_compute; reflexivity.
  - refine (proj2 (proj2 (page_outcome (F := float) 1000%Z 50%Z 20%float
                            25%float 1.3%float 30%float OilFVF Area
                            Thickness reference_widget_ints)) _ _ _ _);
      vm_compute; reflexivity.
Defined.

(** ** The formula in binary64: order of the returned values *)

Section Binary64Order.

Local Open Scope Z_scope.

Lemma unit_pos : (0 < inject_Z (2 ^ 1074))%Q.
Proof. reflexivity. Qed.

Lemma unit_not_zero : ~ (inject_Z (2 ^ 1074) == 0)%Q.
Proof. discriminate. Qed.

Lemma F2Z_Q_nonneg (x : float) : (0 <= inject_Z (F2Z x))%Q.
Proof.
  change 0%Q with (inject_Z 0). rewrite <- Zle_Qle. apply F2Z_nonneg.
Qed.

Lemma one_units : fin (Z2float 1) = true /\ F2Z (Z2float 1) = 2 ^ 1074.
Proof. split; vm_compute; reflexivity. Qed.

Lemma hundred_units :
  fin (Z2float 100) = true /\ F2Z (Z2float 100) = 100 * 2 ^ 1074.
Proof. split; vm_compute; reflexivity. Qed.

Lemma Qmul_div_le (a a' b b' t : Q) :
  (0 <= a <= a' -> 0 <= b <= b' -> 0 < t -> a * b / t <= a' * b' / t)%Q.
Proof.
  intros (Ha & Haa) (Hb & Hbb) Ht.
  unfold Qdiv. apply Qmult_le_compat_r;
    [| apply Qlt_le_weak, Qinv_lt_0_compat; exact Ht].
  apply Qle_trans with (a' * b)%Q.
  - apply Qmult_le_compat_r; assumption.
  - rewrite !(Qmult_comm a'). apply Qmult_le_compat_r; [assumption | lra].
Qed.

Lemma Qdiv_le_le (a a' d d' : Q) :
  (0 <= a <= a' -> 0 < d' <= d -> a / d <= a' / d')%Q.
Proof.
  intros (Ha & Haa) (Hd' & Hdd).
  assert (Hd : (0 < d)%Q) by lra.
  apply Qle_trans with (a' / d)%Q.
  - unfold Qdiv. apply Qmult_le_compat_r;
      [exact Haa | apply Qlt_le_weak, Qinv_lt_0_compat; exact Hd].
  - apply Qle_shift_div_l; [exact Hd' |].
    unfold Qdiv. rewrite <- Qmult_assoc.
    setoid_replace (a' * (/ d * d'))%Q with (a' * (d' / d))%Q
      by (unfold Qdiv; ring).
    assert (H1 : (d' / d <= 1)%Q)
      by (apply Qle_shift_div_r; [exact Hd | lra]).
    assert (H0 : (0 <= a')%Q) by lra.
    setoid_replace a' with (a' * 1)%Q at 2 by ring.
    rewrite !(Qmult_comm a'). apply Qmult_le_compat_r; assumption.
Qed.

(** A positive double below a finite one. *)
Lemma float_pos_lt (x b : float) :
  PrimFloat.ltb 0 x = true -> PrimFloat.ltb x b = true -> fin b = true ->
  fin x = true /\ 0 < F2Z x < F2Z b.
Proof.
  intros H0 Hb Hf.
  assert (Hx : fin x = true /\ 0 < F2Z x).
  { pose proof (Prim2SF_valid x) as V.
    rewrite ltb_spec in H0, Hb. unfold fin, F2Z in *.
    change (Prim2SF 0) with (S754_zero false) in H0.
    destruct (Prim2SF x) as [[] | [] | | [] m e]; try discriminate.
    - destruct (Prim2SF b) as [[] | [] | | [] mb eb]; discriminate.
    - split; [reflexivity | apply finite_units_pos; exact V]. }
  destruct Hx as (Hx & Hpos). split; [exact Hx |]. split; [exact Hpos |].
  apply fin_ltb; assumption.
Qed.

Lemma float_pos_finite (x : float) :
  PrimFloat.ltb 0 x = true -> PrimFloat.ltb x infinity = true ->
  fin x = true /\ 0 < F2Z x.
Proof.
  intros H0 Hb. pose proof (Prim2SF_valid x) as V.
  rewrite ltb_spec in H0, Hb. unfold fin, F2Z in *.
  change (Prim2SF 0) with (S754_zero false) in H0.
  change (Prim2SF infinity) with (S754_infinity false) in Hb.
  destruct (Prim2SF x) as [[] | [] | | [] m e]; try discriminate.
  split; [reflexivity | apply finite_units_pos; exact V].
Qed.

Lemma fin_not_zero (x : float) :
  fin x = true -> 0 < F2Z x -> PrimFloat.eqb x 0 = false.
Proof.
  unfold fin, F2Z. rewrite FloatAxioms.eqb_spec.
  change (Prim2SF 0) with (S754_zero false).
  destruct (Prim2SF x) as [[] | [] | | [] m e]; cbn [units nonneg_finite];
    try discriminate; try lia; reflexivity.
Qed.

(** *** The steps of the formula *)

Lemma float_mul_mono (x x' y y' : float) :
  fin x = true -> fin x' = true -> fin y = true -> fin y' = true ->
  F2Z x <= F2Z x' -> F2Z y <= F2Z y' -> fin (x' * y') = true ->
  fin (x * y) = true /\ F2Z (x * y) <= F2Z (x' * y').
Proof.
  intros Hx Hx' Hy Hy' Lx Ly Hf.
  apply (Rnd_fin_le _ _ _ _ (Rnd_mul x y Hx Hy) (Rnd_mul x' y' Hx' Hy'));
    [| exact Hf].
  apply Qmul_div_le; [| | exact unit_pos];
    (split; [apply F2Z_Q_nonneg | rewrite <- Zle_Qle; assumption]).
Qed.

Lemma float_mul_le_l (x y : float) :
  fin x = true -> fin y = true -> F2Z y <= 2 ^ 1074 ->
  fin (x * y) = true /\ F2Z (x * y) <= F2Z x.
Proof.
  intros Hx Hy Ly.
  apply (Rnd_fin _ _ _ (Rnd_mul x y Hx Hy) Hx).
  apply Qle_shift_div_r; [exact unit_pos |].
  pose proof (F2Z_Q_nonneg x). rewrite Zle_Qle in Ly.
  rewrite !(Qmult_comm (inject_Z (F2Z x))).
  apply Qmult_le_compat_r; assumption.
Qed.

(** A percentage as a fraction. *)
Lemma fraction_Rnd (x : float) :
  fin x = true -> Rnd (fraction x) (inject_Z (F2Z x) / 100).
Proof.
  intros Hx. destruct hundred_units as (H100 & E100).
  unfold fraction. cbn [fdiv of_int binary64].
  apply Rnd_ext with (2 := Rnd_div x (Z2float 100) Hx H100
                             ltac:(rewrite E100; reflexivity)).
  rewrite E100, inject_Z_mult. change (inject_Z 100) with 100%Q.
  field. exact unit_not_zero.
Qed.

Lemma fraction_mono (x x' : float) :
  fin x = true -> fin x' = true -> F2Z x <= F2Z x' ->
  fin (fraction x') = true ->
  fin (fraction x) = true /\ F2Z (fraction x) <= F2Z (fraction x').
Proof.
  intros Hx Hx' L Hf.
  apply (Rnd_fin_le _ _ _ _ (fraction_Rnd x Hx) (fraction_Rnd x' Hx'));
    [| exact Hf].
  rewrite Zle_Qle in L. unfold Qdiv. apply Qmult_le_compat_r; [exact L |].
  discriminate.
Qed.

Lemma fraction_le_one (x : float) :
  fin x = true -> F2Z x <= 100 * 2 ^ 1074 ->
  fin (fraction x) = true /\ F2Z (fraction x) <= 2 ^ 1074.
Proof.
  intros Hx L. destruct one_units as (H1 & E1). rewrite <- E1.
  apply (Rnd_fin _ _ _ (fraction_Rnd x Hx) H1). rewrite E1.
  apply Qle_shift_div_r; [reflexivity |].
  rewrite Zle_Qle, inject_Z_mult in L. rewrite Qmult_comm. exact L.
Qed.

(** The complement [1 - s] of a fraction. *)
Lemma complement_Rnd (s : float) :
  fin s = true -> F2Z s <= 2 ^ 1074 ->
  Rnd (Z2float 1 - s) (inject_Z (2 ^ 1074 - F2Z s)).
Proof.
  intros Hs L. destruct one_units as (H1 & E1).
  rewrite <- E1. apply Rnd_sub; [exact H1 | exact Hs | rewrite E1; exact L].
Qed.

Lemma complement_le_one (s : float) :
  fin s = true -> F2Z s <= 2 ^ 1074 ->
  fin (Z2float 1 - s) = true /\ F2Z (Z2float 1 - s) <= 2 ^ 1074.
Proof.
  intros Hs L. destruct one_units as (H1 & E1). rewrite <- E1.
  apply (Rnd_fin _ _ _ (complement_Rnd s Hs L) H1). rewrite E1.
  rewrite <- Zle_Qle. pose proof (F2Z_nonneg s). lia.
Qed.

Lemma complement_anti (s s' : float) :
  fin s = true -> fin s' = true -> F2Z s' <= F2Z s -> F2Z s <= 2 ^ 1074 ->
  F2Z (Z2float 1 - s) <= F2Z (Z2float 1 - s').
Proof.
  intros Hs Hs' L L1.
  destruct (complement_le_one s' Hs' ltac:(lia)) as (Hf' & _).
  apply (Rnd_fin_le _ _ _ _ (complement_Rnd s Hs L1)
                    (complement_Rnd s' Hs' ltac:(lia))); [| exact Hf'].
  rewrite <- Zle_Qle. lia.
Qed.

(** The numerator [k * phi * (1 - sw)] for two fractions. *)
Lemma numerator_fin (k phi sw : float) :
  fin k = true -> fin phi = true -> fin sw = true ->
  F2Z phi <= 2 ^ 1074 -> F2Z sw <= 2 ^ 1074 ->
  fin (k * phi * (Z2float 1 - sw)) = true.
Proof.
  intros Hk Hp Hs Lp Ls.
  destruct (float_mul_le_l k phi Hk Hp Lp) as (H1 & _).
  destruct (complement_le_one sw Hs Ls) as (Hw & Lw).
  exact (proj1 (float_mul_le_l _ _ H1 Hw Lw)).
Qed.

Lemma numerator_mono (k k' phi phi' sw sw' : float) :
  fin k = true -> fin k' = true -> F2Z k <= F2Z k' ->
  fin phi = true -> fin phi' = true ->
  F2Z phi <= F2Z phi' -> F2Z phi' <= 2 ^ 1074 ->
  fin sw = true -> fin sw' = true ->
  F2Z sw' <= F2Z sw -> F2Z sw <= 2 ^ 1074 ->
  F2Z (k * phi * (Z2float 1 - sw)) <= F2Z (k' * phi' * (Z2float 1 - sw')).
Proof.
  intros Hk Hk' Lk Hp Hp' Lp Lp1 Hs Hs' Ls Ls1.
  destruct (float_mul_le_l k' phi' Hk' Hp' Lp1) as (H1' & _).
  destruct (float_mul_mono k k' phi phi' Hk Hk' Hp Hp' Lk Lp H1')
    as (H1 & L1).
  destruct (complement_le_one sw Hs Ls1) as (Hw & _).
  destruct (complement_le_one sw' Hs' ltac:(lia)) as (Hw' & Lw').
  pose proof (complement_anti sw sw' Hs Hs' Ls Ls1) as Lw.
  destruct (float_mul_le_l _ _ H1' Hw' Lw') as (H2' & _).
  exact (proj2 (float_mul_mono _ _ _ _ H1 H1' Hw Hw' L1 Lw H2')).
Qed.

Lemma float_div_mono (x x' y y' : float) :
  fin x = true -> fin x' = true -> fin y = true -> fin y' = true ->
  F2Z x <= F2Z x' -> 0 < F2Z y' -> F2Z y' <= F2Z y ->
  PrimFloat.leb (x / y) (x' / y') = true.
Proof.
  intros Hx Hx' Hy Hy' Lx Hpos Ly.
  apply (Rnd_le _ _ _ _ (Rnd_div x y Hx Hy ltac:(lia))
                (Rnd_div x' y' Hx' Hy' Hpos)).
  apply Qdiv_le_le.
  - split.
    + apply Qmult_le_0_compat; [apply F2Z_Q_nonneg | discriminate].
    + apply Qmult_le_compat_r; [rewrite <- Zle_Qle; exact Lx | discriminate].
  - split.
    + change 0%Q with (inject_Z 0). rewrite <- Zlt_Qlt. exact Hpos.
    + rewrite <- Zle_Qle. exact Ly.
Qed.

(** The formula is monotone in each of its four arguments. *)
Lemma volumetric_mono (k k' phi phi' sw sw' bo bo' : float) :
  fin k = true -> fin k' = true -> F2Z k <= F2Z k' ->
  fin phi = true -> fin phi' = true ->
  F2Z phi <= F2Z phi' -> F2Z phi' <= 2 ^ 1074 ->
  fin sw = true -> fin sw' = true ->
  F2Z sw' <= F2Z sw -> F2Z sw <= 2 ^ 1074 ->
  fin bo = true -> fin bo' = true -> 0 < F2Z bo' -> F2Z bo' <= F2Z bo ->
  PrimFloat.leb (volumetric k phi sw bo) (volumetric k' phi' sw' bo') = true.
Proof.
  intros Hk Hk' Lk Hp Hp' Lp Lp1 Hs Hs' Ls Ls1 Hb Hb' Hpos Lb.
  unfold volumetric. cbn [fdiv fmul fsub of_int binary64].
  apply float_div_mono; try assumption.
  - apply numerator_fin; try assumption. lia.
  - apply numerator_fin; try assumption. lia.
  - apply numerator_mono; assumption.
Qed.

(** The quotient of two non-negative doubles is not below zero (and so not
    a NaN). *)
Lemma float_div_nonneg (x y : float) :
  fin x = true -> fin y = true -> 0 < F2Z y ->
  PrimFloat.leb 0 (x / y) = true.
Proof.
  intros Hx Hy Hpos.
  apply (Rnd_le _ _ 0%Q _ (Rnd_exact 0 eq_refl) (Rnd_div x y Hx Hy Hpos)).
  apply Qle_shift_div_l.
  - change 0%Q with (inject_Z 0). rewrite <- Zlt_Qlt. exact Hpos.
  - rewrite Qmult_0_l.
    apply Qmult_le_0_compat; [apply F2Z_Q_nonneg | discriminate].
Qed.

End Binary64Order.

(** ** The engine in binary64 *)

Section Binary64Engine.

Local Open Scope Z_scope.

Lemma hundred_literal : fin 100 = true /\ F2Z 100 = 100 * 2 ^ 1074.
Proof. split; vm_compute; reflexivity. Qed.

Lemma int_fits_bound (k : Z) :
  int_fits (F := float) k = true -> Z.abs k < 2 ^ 1024 - 2 ^ 970.
Proof. cbn [int_fits binary64]. intros H. apply Z.ltb_lt in H. exact H. Qed.

Lemma returned_ooip_binary64 (a h : Z) (por ws fvf rf : float) :
  int_fits (F := float) (7758 * a * h) = true ->
  PrimFloat.ltb 0 fvf = true ->
  returned_ooip (form a h por ws fvf rf)
  = Some (volumetric (Z2float (7758 * a * h)) (fraction por) (fraction ws)
                     fvf).
Proof.
  intros Hfit Hpos. unfold returned_ooip.
  rewrite calculate_form;
    [reflexivity | exact Hfit | apply float_pos_not_zero; exact Hpos].
Qed.

(** The operands of the formula on valid inputs. *)
Lemma valid_operands (a h : Z) (por ws fvf rf : float) :
  binary64_valid a h por ws fvf rf ->
  int_fits (F := float) (7758 * a * h) = true ->
  (fin (Z2float (7758 * a * h)) = true /\ 0 < 7758 * a * h < 2 ^ 1024 - 2 ^ 970) /\
  (fin por = true /\ fin (fraction por) = true /\
   F2Z (fraction por) <= 2 ^ 1074) /\
  (fin ws = true /\ fin (fraction ws) = true /\
   F2Z (fraction ws) <= 2 ^ 1074) /\
  (fin fvf = true /\ 0 < F2Z fvf).
Proof.
  intros (Ha & Hh & (Hp & Hp') & (Hw & Hw') & (Hf & Hf') & _) Hfit.
  apply int_fits_bound in Hfit.
  destruct hundred_literal as (H100 & E100).
  destruct (float_pos_lt por 100 Hp Hp' H100) as (Fp & _ & Lp).
  destruct (float_pos_lt ws 100 Hw Hw' H100) as (Fw & _ & Lw).
  rewrite E100 in Lp, Lw.
  assert (HK : 0 < 7758 * a * h < 2 ^ 1024 - 2 ^ 970) by lia.
  split; [split; [apply of_int_fin; lia | exact HK] |].
  split; [split; [exact Fp | apply fraction_le_one; [exact Fp | lia]] |].
  split; [split; [exact Fw | apply fraction_le_one; [exact Fw | lia]] |].
  apply float_pos_finite; assumption.
Qed.

(** On valid inputs the engine returns a double that is not below zero, not
    above the one returned for a smaller oil FVF or water saturation, and
    not below the one returned for a smaller area, thickness or porosity. *)
Lemma ooip_monotone_binary64 (a h : Z) (por ws fvf rf : float) :
  binary64_valid a h por ws fvf rf ->
  int_fits (F := float) (7758 * a * h) = true ->
  exists o : float,
    returned_ooip (form a h por ws fvf rf) = Some o /\
    PrimFloat.leb 0 o = true /\
    (forall fvf' : float,
       binary64_valid a h por ws fvf' rf ->
       PrimFloat.leb fvf fvf' = true ->
       exists o', returned_ooip (form a h por ws fvf' rf) = Some o' /\
                  PrimFloat.leb o' o = true) /\
    (forall ws' : float,
       binary64_valid a h por ws' fvf rf ->
       PrimFloat.leb ws ws' = true ->
       exists o', returned_ooip (form a h por ws' fvf rf) = Some o' /\
                  PrimFloat.leb o' o = true) /\
    (forall a' : Z,
       binary64_valid a' h por ws fvf rf ->
       int_fits (F := float) (7758 * a' * h) = true -> a <= a' ->
       exists o', returned_ooip (form a' h por ws fvf rf) = Some o' /\
                  PrimFloat.leb o o' = true) /\
    (forall h' : Z,
       binary64_valid a h' por ws fvf rf ->
       int_fits (F := float) (7758 * a * h') = true -> h <= h' ->
       exists o', returned_ooip (form a h' por ws fvf rf) = Some o' /\
                  PrimFloat.leb o o' = true) /\
    (forall por' : float,
       binary64_valid a h por' ws fvf rf ->
       PrimFloat.leb por por' = true ->
       exists o', returned_ooip (form a h por' ws fvf rf) = Some o' /\
                  PrimFloat.leb o o' = true) /\
    (forall rf' : float,
       returned_ooip (form a h por ws fvf rf') = Some o).
Proof.
  intros Hv Hfit.
  destruct (valid_operands _ _ _ _ _ _ Hv Hfit)
    as ((Fk & HK) & (Fp & Fpd & Lpd) & (Fw & Fwd & Lwd) & (Ff & Pf)).
  assert (Hpos : PrimFloat.ltb 0 fvf = true) by apply Hv.
  pose proof (proj1 Hv) as Ha. pose proof (proj1 (proj2 Hv)) as Hh.
  eexists. split; [apply returned_ooip_binary64; assumption |].
  split.
  { unfold volumetric. cbn [fdiv fmul fsub of_int binary64].
    apply float_div_nonneg; [| exact Ff | exact Pf].
    apply numerator_fin; assumption. }
  split; [| split; [| split; [| split; [| split]]]].
  - intros fvf' Hv' Hle.
    destruct (valid_operands _ _ _ _ _ _ Hv' Hfit) as (_ & _ & _ & (Ff' & Pf')).
    eexists. split; [apply returned_ooip_binary64; [exact Hfit | apply Hv'] |].
    apply volumetric_mono; try assumption; try apply Z.le_refl.
    apply fin_leb; assumption.
  - intros ws' Hv' Hle.
    destruct (valid_operands _ _ _ _ _ _ Hv' Hfit)
      as (_ & _ & (Fw' & Fwd' & Lwd') & _).
    eexists. split; [apply returned_ooip_binary64; assumption |].
    apply volumetric_mono; try assumption; try apply Z.le_refl.
    apply fraction_mono; try assumption. apply fin_leb; assumption.
  - intros a' Hv' Hfit' Hle.
    destruct (valid_operands _ _ _ _ _ _ Hv' Hfit') as ((Fk' & HK') & _).
    eexists. split; [apply returned_ooip_binary64; assumption |].
    apply volumetric_mono; try assumption; try apply Z.le_refl.
    apply of_int_mono; [split; nia | lia].
  - intros h' Hv' Hfit' Hle.
    destruct (valid_operands _ _ _ _ _ _ Hv' Hfit') as ((Fk' & HK') & _).
    eexists. split; [apply returned_ooip_binary64; assumption |].
    apply volumetric_mono; try assumption; try apply Z.le_refl.
    apply of_int_mono; [split; nia | lia].
  - intros por' Hv' Hle.
    destruct (valid_operands _ _ _ _ _ _ Hv' Hfit)
      as (_ & (Fp' & Fpd' & Lpd') & _).
    eexists. split; [apply returned_ooip_binary64; assumption |].
    apply volumetric_mono; try assumption; try apply Z.le_refl.
    apply fraction_mono; try assumption. apply fin_leb; assumption.
  - intros rf'. apply returned_ooip_binary64; assumption.
Qed.

End Binary64Engine.

(** ** The tornado in binary64 *)

Section Binary64Tornado.

Local Open Scope Z_scope.












End Binary64Tornado.

(** ** The sweep in binary64 *)

Section Binary64Sweep.

Local Open Scope Z_scope.

Lemma Rnd_same (x y : float) (u : Q) :
  Rnd x u -> Rnd y u -> fin y = true -> fin x = true /\ F2Z x = F2Z y.
Proof.
  intros Hx Hy Fy.
  destruct (Rnd_fin_le x y u u Hx Hy ltac:(lra) Fy) as (Fx & L1).
  destruct (Rnd_fin_le y x u u Hy Hx ltac:(lra) Fx) as (_ & L2).
  split; [exact Fx | lia].
Qed.

Lemma fin_eqb (x y : float) :
  fin x = true -> fin y = true -> F2Z x = F2Z y -> PrimFloat.eqb x y = true.
Proof.
  intros Hx Hy E. rewrite FloatAxioms.eqb_spec. unfold SFeqb.
  rewrite (SFcompare_units _ _ (Prim2SF_valid x) (Prim2SF_valid y) Hx Hy).
  fold (F2Z x) (F2Z y). rewrite E, Z.compare_refl. reflexivity.
Qed.

(** The relative error of a rounding in the normal range, with [2^53]
    written out. *)
Lemma Rnd_error (x : float) (u : Q) :
  Rnd x u -> fin x = true -> (9007199254740992 <= u)%Q ->
  (9007199254740992 * (inject_Z (F2Z x) - u) <= u /\
   9007199254740992 * (u - inject_Z (F2Z x)) <= u)%Q.
Proof. exact (Rnd_rel x u). Qed.

Lemma small_ints :
  (fin (Z2float 0) = true /\ F2Z (Z2float 0) = 0) /\
  (fin (Z2float 98) = true /\ F2Z (Z2float 98) = 98 * 2 ^ 1074) /\
  (fin (Z2float 99) = true /\ F2Z (Z2float 99) = 99 * 2 ^ 1074) /\
  (fin (of_decimal 1 1) = true /\ F2Z (of_decimal 1 1) = 2 ^ 1074).
Proof. repeat split; vm_compute; reflexivity. Qed.

(** [x * 1.0] is [x]. *)
Lemma mul_one (x : float) :
  fin x = true ->
  fin (x * of_decimal 1 1) = true /\ F2Z (x * of_decimal 1 1) = F2Z x.
Proof.
  intros Hx. destruct small_ints as (_ & _ & _ & (H1 & E1)).
  apply (Rnd_same _ x (inject_Z (F2Z x))); [| apply Rnd_exact | ]; try exact Hx.
  apply Rnd_ext with (2 := Rnd_mul x _ Hx H1).
  rewrite E1. field. exact unit_not_zero.
Qed.

Lemma ascendingb_nth (l : list float) :
  (forall (k : nat) (x y : float),
     nth_error l k = Some x -> nth_error l (S k) = Some y ->
     PrimFloat.leb x y = true) ->
  ascendingb l = true.
Proof.
  induction l as [| x [| y l'] IH]; intros H; try reflexivity.
  cbn [ascendingb]. apply andb_true_intro. split.
  - exact (H 0%nat x y eq_refl eq_refl).
  - apply IH. intros k a b Ha Hb. exact (H (S k) a b Ha Hb).
Qed.

(** The step of a sweep of one hundred points from [start] to [stop], where
    [stop] is at least [1.25 * start] and [start] at least one half:
    ninety-eight steps from [start] do not go beyond [stop]. *)
Lemma sweep_step (start stop : float) :
  fin start = true -> fin stop = true ->
  2 ^ 1073 <= F2Z start -> 5 * F2Z start <= 4 * F2Z stop ->
  let s := (start * of_decimal 1 1)%float in
  let t := (stop * of_decimal 1 1)%float in
  let step := ((t - s) / Z2float 99)%float in
  (fin s = true /\ F2Z s = F2Z start) /\
  (fin t = true /\ F2Z t = F2Z stop) /\
  (fin step = true /\ 0 < F2Z step) /\
  fin (Z2float 98 * step) = true /\
  F2Z (Z2float 98 * step) + F2Z start <= F2Z stop.
Proof.
  intros Hs Ht Lnorm Lgap s t step.
  destruct small_ints as (_ & (F98 & E98) & (F99 & E99) & _).
  destruct (mul_one start Hs) as (Fs & Es).
  destruct (mul_one stop Ht) as (Ft & Et).
  fold s in Fs, Es. fold t in Ft, Et.
  pose proof (F2Z_nonneg s) as Ps.
  assert (Lst : F2Z s <= F2Z t) by lia.
  (* the difference *)
  pose proof (Rnd_sub t s Ft Fs Lst) as Rd.
  set (delta := (t - s)%float) in *.
  assert (Hbig : 2 ^ 1071 <= F2Z t - F2Z s).
  { change (2 ^ 1073) with (4 * 2 ^ 1071) in Lnorm. lia. }
  destruct (Rnd_fin _ t _ Rd Ft ltac:(rewrite <- Zle_Qle; lia)) as (Fd & _).
  assert (Hq : (9007199254740992000000 <= inject_Z (F2Z t - F2Z s))%Q).
  { apply Qle_trans with (inject_Z (2 ^ 1071));
      [vm_compute; discriminate | rewrite <- Zle_Qle; exact Hbig]. }
  assert (Edq : (inject_Z (F2Z t - F2Z s)
                 == inject_Z (F2Z t) - inject_Z (F2Z s))%Q).
  { unfold Z.sub. rewrite inject_Z_plus, inject_Z_opp. ring. }
  assert (Psq : (0 <= inject_Z (F2Z s))%Q) by apply F2Z_Q_nonneg.
  destruct (Rnd_error _ _ Rd Fd ltac:(clear - Hq; lra)) as (D1 & D2).
  set (Dq := inject_Z (F2Z t - F2Z s)) in *.
  set (Tq := inject_Z (F2Z t)) in *. set (Sq := inject_Z (F2Z s)) in *.
  (* the step *)
  assert (Rp : Rnd step (inject_Z (F2Z delta) * (1 # 99))).
  { apply Rnd_ext with (2 := Rnd_div delta (Z2float 99) Fd F99
                               ltac:(rewrite E99; reflexivity)).
    rewrite E99, inject_Z_mult. change (inject_Z 99) with 99%Q.
    field. exact unit_not_zero. }
  set (dq := inject_Z (F2Z delta)) in *.
  assert (B1 : (dq * (1 # 99) <= dq)%Q) by (clear - D2 Hq; lra).
  destruct (Rnd_fin _ delta _ Rp Fd B1) as (Fp & _).
  assert (B2 : (9007199254740992 <= dq * (1 # 99))%Q) by (clear - D2 Hq; lra).
  destruct (Rnd_error _ _ Rp Fp B2) as (P1 & P2).
  set (pq := inject_Z (F2Z step)) in *.
  (* ninety-eight steps *)
  assert (Rm : Rnd (Z2float 98 * step) (98 * inject_Z (F2Z step))).
  { apply Rnd_ext with (2 := Rnd_mul (Z2float 98) step F98 Fp).
    rewrite E98, inject_Z_mult. change (inject_Z 98) with 98%Q.
    field. exact unit_not_zero. }
  fold pq in Rm.
  assert (B3 : (98 * pq <= Tq)%Q)
    by (clear - D1 D2 P1 P2 Hq Edq Psq; lra).
  destruct (Rnd_fin _ t _ Rm Ft B3) as (Fm & _).
  assert (B4 : (9007199254740992 <= 98 * pq)%Q)
    by (clear - D1 D2 P1 P2 Hq; lra).
  destruct (Rnd_error _ _ Rm Fm B4) as (M1 & M2).
  set (mq := inject_Z (F2Z (Z2float 98 * step))) in *.
  split; [split; assumption |]. split; [split; assumption |].
  split; [split; [exact Fp |] |].
  { assert (H : (inject_Z 0 < pq)%Q)
      by (change (inject_Z 0) with 0%Q; clear - B4; lra).
    unfold pq in H. rewrite <- Zlt_Qlt in H. exact H. }
  split; [exact Fm |].
  rewrite <- Es, <- Et.
  assert (H : (mq + Sq <= Tq)%Q)
    by (clear - D1 D2 P1 P2 M1 M2 Hq Edq Psq; lra).
  unfold mq, Sq, Tq in H. rewrite <- inject_Z_plus, <- Zle_Qle in H. exact H.
Qed.

Lemma Some_eq {A : Type} (a b : A) : Some a = Some b -> a = b.
Proof. intros H. injection H as ->. reflexivity. Qed.

Lemma linspace_sample_binary64 (start stop : float) (k : nat) :
  let s := (start * of_decimal 1 1)%float in
  let t := (stop * of_decimal 1 1)%float in
  let step := ((t - s) / Z2float 99)%float in
  is_zero step = false ->
  linspace_sample start stop 100 k
  = (Z2float (Z.of_nat k) * step + s)%float.
Proof.
  intros s t step Hz. unfold linspace_sample. cbv zeta.
  change (Z.of_nat 100 - 1) with 99. change (0 <? 99) with true. cbv iota.
  cbn [fmul fsub fdiv fadd of_int binary64].
  fold s t. fold step. rewrite Hz. reflexivity.
Qed.

(** One hundred points from [start] to [stop] in binary64 are in ascending
    order, the first is [start] and the last is [stop]. *)
Lemma linspace_ascending_binary64 (start stop : float) :
  fin start = true -> fin stop = true ->
  2 ^ 1073 <= F2Z start -> 5 * F2Z start <= 4 * F2Z stop ->
  ascendingb (linspace start stop 100) = true /\
  (exists x : float,
     nth_error (linspace start stop 100) 0 = Some x /\
     PrimFloat.eqb x start = true) /\
  (exists y : float,
     nth_error (linspace start stop 100) 99 = Some y /\
     PrimFloat.eqb y stop = true).
Proof.
  intros Hs Ht Lnorm Lgap.
  destruct (sweep_step start stop Hs Ht Lnorm Lgap)
    as ((Fs & Es) & (Ft & Et) & (Fp & Pp) & Fm & Llast).
  destruct small_ints as ((F0 & E0) & (F98 & E98) & _).
  set (s := (start * of_decimal 1 1)%float) in *.
  set (t := (stop * of_decimal 1 1)%float) in *.
  set (step := ((t - s) / Z2float 99)%float) in *.
  assert (Hz : is_zero step = false) by (apply fin_not_zero; assumption).
  pose proof (fun k => linspace_sample_binary64 start stop k Hz) as Esample.
  cbv zeta in Esample. fold s t in Esample. fold step in Esample.
  assert (Hk : forall k : nat, (k <= 98)%nat ->
            fin (Z2float (Z.of_nat k)) = true /\
            fin (Z2float (Z.of_nat k) * step) = true /\
            F2Z (Z2float (Z.of_nat k) * step) <= F2Z (Z2float 98 * step)).
  { intros k Hle.
    destruct (of_int_mono (Z.of_nat k) 98 ltac:(lia) ltac:(reflexivity))
      as (Fk & _ & Lk).
    split; [exact Fk |].
    apply float_mul_mono; try assumption. apply Z.le_refl. }
  split; [| split].
  - apply ascendingb_nth. intros k x y Hx Hy.
    assert (Hlt : (S k < 100)%nat).
    { rewrite <- (linspace_length start stop 100).
      apply nth_error_Some. congruence. }
    rewrite linspace_nth in Hx, Hy by lia.
    apply Some_eq in Hx, Hy. subst x y.
    destruct (Nat.eqb_spec k (100 - 1)) as [-> | _]; [lia |].
    destruct (Hk k ltac:(lia)) as (Fk & Fmk & Lmk).
    rewrite Esample.
    pose proof (Rnd_add _ s Fmk Fs) as Rx.
    destruct (Nat.eqb_spec (S k) (100 - 1)) as [E | NE].
    + fold t. apply (Rnd_le _ _ _ _ Rx (Rnd_exact t Ft)).
      rewrite <- Zle_Qle. lia.
    + destruct (Hk (S k) ltac:(lia)) as (Fk' & Fmk' & _).
      rewrite Esample.
      apply (Rnd_le _ _ _ _ Rx (Rnd_add _ s Fmk' Fs)).
      rewrite <- Zle_Qle. apply Z.add_le_mono_r.
      apply float_mul_mono; try assumption; try apply Z.le_refl.
      apply of_int_mono; [lia |].
      assert (100 < 2 ^ 1024 - 2 ^ 970) by reflexivity. lia.
  - rewrite linspace_nth by lia. cbn [Nat.eqb Nat.sub]. rewrite Esample.
    eexists. split; [reflexivity |]. cbn [Z.of_nat].
    assert (R0 : Rnd (Z2float 0 * step) (inject_Z (F2Z (Z2float 0)))).
    { apply Rnd_ext with (2 := Rnd_mul (Z2float 0) step F0 Fp).
      rewrite E0. change (inject_Z 0) with 0%Q. field. exact unit_not_zero. }
    destruct (Rnd_same _ _ _ R0 (Rnd_exact _ F0) F0) as (Fz & Ez).
    assert (R1 : Rnd (Z2float 0 * step + s) (inject_Z (F2Z s))).
    { apply Rnd_ext with (2 := Rnd_add _ s Fz Fs).
      rewrite Ez, E0. reflexivity. }
    destruct (Rnd_same _ _ _ R1 (Rnd_exact _ Fs) Fs) as (Fy & Ey).
    apply fin_eqb; [exact Fy | exact Hs | lia].
  - rewrite linspace_nth by lia. cbn [Nat.eqb Nat.sub].
    eexists. split; [reflexivity |]. fold t.
    apply fin_eqb; [exact Ft | exact Ht | exact Et].
Qed.

(** The base value of a sweep: a widget value, between 1 and 100000. *)
Lemma widget_constants :
  (F2Z (Z2float 10) = 10 * 2 ^ 1074 /\
   F2Z (Z2float 100000) = 100000 * 2 ^ 1074 /\
   F2Z (Z2float 5) = 5 * 2 ^ 1074 /\ F2Z (Z2float 1000) = 1000 * 2 ^ 1074) /\
  (fin 1 = true /\ F2Z 1 = 2 ^ 1074) /\
  (fin 5 = true /\ F2Z 5 = 5 * 2 ^ 1074) /\
  (fin 2.5 = true /\ F2Z 2.5 <= 100000 * 2 ^ 1074) /\
  (fin 40 = true /\ F2Z 40 = 40 * 2 ^ 1074) /\
  (fin 50 = true /\ F2Z 50 = 50 * 2 ^ 1074) /\
  (fin 60 = true /\ F2Z 60 = 60 * 2 ^ 1074).
Proof. repeat split; vm_compute; (reflexivity || discriminate). Qed.

Lemma between_bounds (lo hi x : float) :
  fin lo = true -> 0 < F2Z lo -> fin hi = true ->
  between lo hi x = true ->
  fin x = true /\ F2Z lo <= F2Z x <= F2Z hi.
Proof.
  intros Hlo Plo Hhi H. unfold between in H.
  apply andb_prop in H as (H1 & H2).
  pose proof (fin_between lo x hi Hlo Plo Hhi H1 H2) as Hx.
  split; [exact Hx |].
  split; apply fin_leb; assumption.
Qed.

Lemma widget_base (a h : Z) (por ws fvf rf : float) (p : Param) :
  widget_ints a h -> widget_floats por ws fvf rf ->
  let b := value_of (variable (form a h por ws fvf rf) p) in
  fin b = true /\ 2 ^ 1074 <= F2Z b <= 100000 * 2 ^ 1074.
Proof.
  intros ((Ha & Ha') & (Hh & Hh')) (Hp & Hw & Hf & Hr).
  destruct widget_constants
    as ((E10 & E100000 & E5 & E1000) & (F1 & E1) & (F5 & E5') & (F25 & E25)
        & (F40 & E40) & (F50 & E50) & (F60 & E60)).
  assert (Hmax : 100000 < 2 ^ 1024 - 2 ^ 970) by reflexivity.
  destruct p;
    cbn [variable form area thickness porosity water_saturation oil_fvf
         recovery_factor value_of of_int binary64].
  - destruct (of_int_mono 10 a ltac:(lia) ltac:(lia)) as (_ & Fa & L1).
    destruct (of_int_mono a 100000 ltac:(lia) Hmax) as (_ & _ & L2).
    split; [exact Fa | lia].
  - destruct (of_int_mono 5 h ltac:(lia) ltac:(lia)) as (_ & Fh & L1).
    destruct (of_int_mono h 1000 ltac:(lia) ltac:(lia)) as (_ & _ & L2).
    split; [exact Fh | lia].
  - destruct (between_bounds 5 40 por F5 ltac:(rewrite E5'; reflexivity)
                F40 Hp) as (Fx & L). split; [exact Fx | lia].
  - destruct (between_bounds 5 50 ws F5 ltac:(rewrite E5'; reflexivity)
                F50 Hw) as (Fx & L). split; [exact Fx | lia].
  - destruct (between_bounds 1 2.5 fvf F1 ltac:(rewrite E1; reflexivity)
                F25 Hf) as (Fx & L). split; [exact Fx | lia].
  - destruct (between_bounds 5 60 rf F5 ltac:(rewrite E5'; reflexivity)
                F60 Hr) as (Fx & L). split; [exact Fx | lia].
Qed.

(** The four factors of lines 172-177 as fractions. *)
Lemma sweep_factors :
  (fin (of_decimal 5 10) = true /\
   (inject_Z (F2Z (of_decimal 5 10)) == (1 # 2) * inject_Z (2 ^ 1074))%Q) /\
  (fin (of_decimal 15 10) = true /\
   (inject_Z (F2Z (of_decimal 15 10)) == (3 # 2) * inject_Z (2 ^ 1074))%Q) /\
  (fin (of_decimal 8 10) = true /\
   (inject_Z (F2Z (of_decimal 8 10))
    == (3602879701896397 # 4503599627370496) * inject_Z (2 ^ 1074))%Q) /\
  (fin (of_decimal 12 10) = true /\
   (inject_Z (F2Z (of_decimal 12 10))
    == (5404319552844595 # 4503599627370496) * inject_Z (2 ^ 1074))%Q).
Proof. repeat split; vm_compute; reflexivity. Qed.

Lemma sweep_factor_bounds (p : Param) :
  fin (sweep_low p) = true /\ fin (sweep_high p) = true /\
  F2Z (sweep_low p) <= 2 ^ 1074 /\
  2 ^ 1073 <= F2Z (Z2float 1 * sweep_low p) /\
  fin (Z2float 100000 * sweep_high p) = true.
Proof.
  destruct p; cbn [sweep_low sweep_high]; repeat split; vm_compute;
    (reflexivity || discriminate).
Qed.

(** A product by one of the factors, as a rounding of a multiple. *)
Lemma scaled_Rnd (b c : float) (q : Q) :
  fin b = true -> fin c = true ->
  (inject_Z (F2Z c) == q * inject_Z (2 ^ 1074))%Q ->
  Rnd (b * c) (inject_Z (F2Z b) * q).
Proof.
  intros Hb Hc E. apply Rnd_ext with (2 := Rnd_mul b c Hb Hc).
  rewrite E. field. exact unit_not_zero.
Qed.

(** The two ends of a sweep. *)
Lemma sweep_ends (b : float) (p : Param) :
  fin b = true -> 2 ^ 1074 <= F2Z b <= 100000 * 2 ^ 1074 ->
  let start := (b * sweep_low p)%float in
  let stop := (b * sweep_high p)%float in
  fin start = true /\ fin stop = true /\
  2 ^ 1073 <= F2Z start /\ 5 * F2Z start <= 4 * F2Z stop.
Proof.
  intros Hb (Lb & Ub) start stop.
  destruct (sweep_factor_bounds p) as (Flo & Fhi & Llo & Lone & Fmax).
  destruct one_units as (F1 & E1).
  assert (Hmax : 100000 < 2 ^ 1024 - 2 ^ 970) by reflexivity.
  destruct (of_int_fin 100000 ltac:(lia)) as (F5 & _).
  destruct widget_constants as ((_ & E5 & _) & _).
  destruct (float_mul_le_l b _ Hb Flo Llo) as (Fs & _). fold start in Fs.
  destruct (float_mul_mono b (Z2float 100000) _ _ Hb F5 Fhi Fhi
              ltac:(lia) (Z.le_refl _) Fmax) as (Ft & _). fold stop in Ft.
  destruct (float_mul_mono (Z2float 1) b _ _ F1 Hb Flo Flo ltac:(lia)
              (Z.le_refl _) Fs) as (_ & Ls). fold start in Ls.
  split; [exact Fs |]. split; [exact Ft |]. split; [lia |].
  assert (Hq : (9007199254740992000 <= inject_Z (F2Z b))%Q).
  { apply Qle_trans with (inject_Z (2 ^ 1074));
      [vm_compute; discriminate | rewrite <- Zle_Qle; exact Lb]. }
  destruct sweep_factors as ((_ & E05) & (_ & E15) & (_ & E08) & (_ & E12)).
  assert (H : (5 * inject_Z (F2Z start) <= 4 * inject_Z (F2Z stop))%Q).
  { unfold start, stop. clear Ls Fmax Lone Llo.
    destruct p; cbn [sweep_low sweep_high] in *;
      match goal with
      | |- (5 * inject_Z (F2Z (b * ?lo)) <= 4 * inject_Z (F2Z (b * ?hi)))%Q =>
          match goal with
          | El : (inject_Z (F2Z lo) == ?ql * _)%Q,
            Eh : (inject_Z (F2Z hi) == ?qh * _)%Q |- _ =>
              pose proof (scaled_Rnd b lo ql Hb Flo El) as Rl;
              pose proof (scaled_Rnd b hi qh Hb Fhi Eh) as Rh
          end
      end;
      set (bq := inject_Z (F2Z b)) in *;
      (destruct (Rnd_error _ _ Rl Fs ltac:(clear - Hq; lra)) as (L1 & L2));
      (destruct (Rnd_error _ _ Rh Ft ltac:(clear - Hq; lra)) as (H1 & H2));
      clear - L1 L2 H1 H2 Hq; lra. }
  change 5%Q with (inject_Z 5) in H. change 4%Q with (inject_Z 4) in H.
  rewrite <- !inject_Z_mult, <- Zle_Qle in H. exact H.
Qed.

(** With every widget in its range the sweep of tab 1 runs to its end; its
    values are in ascending order, from [base * low] to [base * high]. *)
Lemma sweep_ascending_binary64 (a h : Z) (por ws fvf rf : float)
  (p : Param) :
  widget_ints a h -> widget_floats por ws fvf rf ->
  exists (r : Results float) (s : Sweep float),
    calculate (form a h por ws fvf rf) = Ok r /\
    sensitivity (form a h por ws fvf rf) r p = Ok s /\
    let b := value_of (variable (form a h por ws fvf rf) p) in
    List.length (sweep_values s) = 100%nat /\
    ascendingb (sweep_values s) = true /\
    (exists x : float,
       nth_error (sweep_values s) 0 = Some x /\
       PrimFloat.eqb x (fmul b (sweep_low p)) = true) /\
    (exists y : float,
       nth_error (sweep_values s) 99 = Some y /\
       PrimFloat.eqb y (fmul b (sweep_high p)) = true).
Proof.
  intros Hw Hf.
  destruct (widget_fits (F := float) a h Hw) as (_ & _ & _ & Hfit).
  destruct (oil_fvf_widget_positive fvf ltac:(apply Hf)) as (Hz & _).
  pose proof (calculate_form a h por ws fvf rf Hfit Hz) as Hr.
  cbv zeta in Hr.
  eexists. destruct (sweep_structure a h por ws fvf rf _ p Hw Hr)
    as (s & Es & Ev & Hlen & _).
  exists s. split; [exact Hr |]. split; [exact Es |].
  cbv zeta. split; [exact Hlen |]. rewrite Ev.
  destruct (widget_base a h por ws fvf rf p Hw Hf) as (Fb & Lb).
  destruct (sweep_ends _ p Fb Lb) as (Fs & Ft & Ls & Lgap).
  exact (linspace_ascending_binary64 _ _ Fs Ft Ls Lgap).
Qed.

End Binary64Sweep.

(** ** The three statements about order *)

Lemma reference_binary64_valid : binary64_valid 1000 50 20 25 1.3 30.
Proof.
  unfold binary64_valid. repeat split; try lia; vm_compute; reflexivity.
Defined.

Lemma reference_widget_floats : widget_floats 20 25 1.3 30.
Proof. unfold widget_floats. repeat split; vm_compute; reflexivity. Defined.

(** C7 (as amended).  On valid inputs the OOIP the engine returns in
    binary64 is a double that is not below zero; it does not increase when
    the oil FVF or the water saturation increases, does not decrease when
    the area, the thickness or the porosity increases, and does not depend
    on the recovery factor.  In exact arithmetic these orders are strict. *)
Theorem ooip_monotone :
  (forall (a h : Z) (por ws fvf rf : float),
     binary64_valid a h por ws fvf rf ->
     int_fits (F := float) (7758 * a * h) = true ->
     exists o : float,
       returned_ooip (form a h por ws fvf rf) = Some o /\
       PrimFloat.leb 0 o = true /\
       (forall fvf' : float,
          binary64_valid a h por ws fvf' rf ->
          PrimFloat.leb fvf fvf' = true ->
          exists o', returned_ooip (form a h por ws fvf' rf) = Some o' /\
                     PrimFloat.leb o' o = true) /\
       (forall ws' : float,
          binary64_valid a h por ws' fvf rf ->
          PrimFloat.leb ws ws' = true ->
          exists o', returned_ooip (form a h por ws' fvf rf) = Some o' /\
                     PrimFloat.leb o' o = true) /\
       (forall a' : Z,
          binary64_valid a' h por ws fvf rf ->
          int_fits (F := float) (7758 * a' * h) = true -> (a <= a')%Z ->
          exists o', returned_ooip (form a' h por ws fvf rf) = Some o' /\
                     PrimFloat.leb o o' = true) /\
       (forall h' : Z,
          binary64_valid a h' por ws fvf rf ->
          int_fits (F := float) (7758 * a * h') = true -> (h <= h')%Z ->
          exists o', returned_ooip (form a h' por ws fvf rf) = Some o' /\
                     PrimFloat.leb o o' = true) /\
       (forall por' : float,
          binary64_valid a h por' ws fvf rf ->
          PrimFloat.leb por por' = true ->
          exists o', returned_ooip (form a h por' ws fvf rf) = Some o' /\
                     PrimFloat.leb o o' = true) /\
       (forall rf' : float,
          returned_ooip (form a h por ws fvf rf') = Some o)) /\
  (forall (a h : Z) (por ws fvf rf : Q),
     form_valid a h por ws fvf rf ->
     exists o : Q,
       returned_ooip (form a h por ws fvf rf) = Some o /\
       (forall fvf' : Q, form_valid a h por ws fvf' rf -> (fvf < fvf')%Q ->
          exists o', returned_ooip (form a h por ws fvf' rf) = Some o' /\
                     (o' < o)%Q) /\
       (forall ws' : Q, form_valid a h por ws' fvf rf -> (ws < ws')%Q ->
          exists o', returned_ooip (form a h por ws' fvf rf) = Some o' /\
                     (o' < o)%Q) /\
       (forall a' : Z, form_valid a' h por ws fvf rf -> (a < a')%Z ->
          exists o', returned_ooip (form a' h por ws fvf rf) = Some o' /\
                     (o < o')%Q) /\
       (forall h' : Z, form_valid a h' por ws fvf rf -> (h < h')%Z ->
          exists o', returned_ooip (form a h' por ws fvf rf) = Some o' /\
                     (o < o')%Q) /\
       (forall por' : Q, form_valid a h por' ws fvf rf -> (por < por')%Q ->
          exists o', returned_ooip (form a h por' ws fvf rf) = Some o' /\
                     (o < o')%Q) /\
       (forall rf' : Q, returned_ooip (form a h por ws fvf rf') = Some o)).
Proof.
  split; [exact ooip_monotone_binary64 | exact ooip_strictly_monotone_exact].
Qed.

Lemma ooip_monotone_witness :
  (binary64_valid 1000 50 20 25 1.3 30 /\
   int_fits (F := float) (7758 * 1000 * 50) = true /\
   exists o : float,
     returned_ooip reference = Some o /\
     PrimFloat.leb 0 o = true /\
     (forall fvf' : float,
        binary64_valid 1000 50 20 25 fvf' 30 ->
        PrimFloat.leb 1.3 fvf' = true ->
        exists o', returned_ooip (form 1000 50 20 25 fvf' 30)%float = Some o' /\
                   PrimFloat.leb o' o = true) /\
     (forall ws' : float,
        binary64_valid 1000 50 20 ws' 1.3 30 ->
        PrimFloat.leb 25 ws' = true ->
        exists o', returned_ooip (form 1000 50 20 ws' 1.3 30)%float = Some o' /\
                   PrimFloat.leb o' o = true) /\
     (forall a' : Z,
        binary64_valid a' 50 20 25 1.3 30 ->
        int_fits (F := float) (7758 * a' * 50) = true -> (1000 <= a')%Z ->
        exists o', returned_ooip (form a' 50 20 25 1.3 30)%float = Some o' /\
                   PrimFloat.leb o o' = true) /\
     (forall h' : Z,
        binary64_valid 1000 h' 20 25 1.3 30 ->
        int_fits (F := float) (7758 * 1000 * h') = true -> (50 <= h')%Z ->
        exists o', returned_ooip (form 1000 h' 20 25 1.3 30)%float = Some o' /\
                   PrimFloat.leb o o' = true) /\
     (forall por' : float,
        binary64_valid 1000 50 por' 25 1.3 30 ->
        PrimFloat.leb 20 por' = true ->
        exists o', returned_ooip (form 1000 50 por' 25 1.3 30)%float = Some o' /\
                   PrimFloat.leb o o' = true) /\
     (forall rf' : float,
        returned_ooip (form 1000 50 20 25 1.3 rf')%float = Some o)) /\
  (form_valid 1000 50 20 25 (13 # 10) 30 /\
   exists o : Q,
     returned_ooip reference_exact = Some o /\
     (forall fvf' : Q, form_valid 1000 50 20 25 fvf' 30 ->
        (13 # 10 < fvf')%Q ->
        exists o', returned_ooip (form 1000 50 20 25 fvf' 30) = Some o' /\
                   (o' < o)%Q) /\
     (forall ws' : Q, form_valid 1000 50 20 ws' (13 # 10) 30 -> (25 < ws')%Q ->
        exists o', returned_ooip (form 1000 50 20 ws' (13 # 10) 30) = Some o' /\
                   (o' < o)%Q) /\
     (forall a' : Z, form_valid a' 50 20 25 (13 # 10) 30 -> (1000 < a')%Z ->
        exists o', returned_ooip (form a' 50 20 25 (13 # 10) 30) = Some o' /\
                   (o < o')%Q) /\
     (forall h' : Z, form_valid 1000 h' 20 25 (13 # 10) 30 -> (50 < h')%Z ->
        exists o', returned_ooip (form 1000 h' 20 25 (13 # 10) 30) = Some o' /\
                   (o < o')%Q) /\
     (forall por' : Q, form_valid 1000 50 por' 25 (13 # 10) 30 ->
        (20 < por')%Q ->
        exists o', returned_ooip (form 1000 50 por' 25 (13 # 10) 30) = Some o' /\
                   (o < o')%Q) /\
     (forall rf' : Q,
        returned_ooip (form 1000 50 20 25 (13 # 10) rf') = Some o)).
Proof.
  destruct ooip_monotone as (Hbinary64 & Hexact).
  split.
  - split; [exact reference_binary64_valid |].
    split; [vm_compute; reflexivity |].
    apply (Hbinary64 1000%Z 50%Z 20%float 25%float 1.3%float 30%float).
    + exact reference_binary64_valid.
    + vm_compute. reflexivity.
  - split; [exact reference_exact_valid |].
    apply (Hexact 1000%Z 50%Z 20%Q 25%Q (13 # 10)%Q 30%Q).
    exact reference_exact_valid.
Defined.




(** C3 (as amended).  The sweep of tab 1 has exactly one hundred points; its
    values are those of [numpy.linspace] from base x 0.5 to base x 1.5 (from
    base x 0.8 to base x 1.2 for the oil FVF), and each point (OOIP,
    recoverable) is the formula engine run on the base inputs with only the
    selected variable replaced by the swept value.  In exact arithmetic the
    values are evenly spaced, in ascending order, first and last value the
    two ends.  In binary64, with every widget in its range, the run returns,
    the values are in ascending order, the first is the double base x low
    and the last the double base x high. *)
Theorem sweep_generator :
  (forall (F : Type) (AF : Arith F) (AS : ArithSpec F)
          (a h : Z) (por ws fvf rf : F) (r : Results F) (p : Param),
     widget_ints a h ->
     calculate (form a h por ws fvf rf) = Ok r ->
     exists s : Sweep F,
       sensitivity (form a h por ws fvf rf) r p = Ok s /\
       sweep_values s
       = linspace (fmul (value_of (variable (form a h por ws fvf rf) p))
                        (sweep_low p))
                  (fmul (value_of (variable (form a h por ws fvf rf) p))
                        (sweep_high p))
                  100 /\
       List.length (sweep_values s) = 100%nat /\
       List.length (ooip_values s) = 100%nat /\
       List.length (recoverable_values s) = 100%nat /\
       forall (k : nat) (x : F),
         nth_error (sweep_values s) k = Some x ->
         exists r' : Results F,
           calculate (with_variable (form a h por ws fvf rf) p (NpFloat x))
           = Ok r' /\
           nth_error (ooip_values s) k = Some (ooip r') /\
           nth_error (recoverable_values s) k
           = Some (recoverable_reserves r')) /\
  (forall (a h : Z) (por ws fvf rf : Q) (r : Results Q) (p : Param),
     widget_ints a h ->
     (0 <= por)%Q -> (0 <= ws)%Q -> (0 <= fvf)%Q -> (0 <= rf)%Q ->
     calculate (form a h por ws fvf rf) = Ok r ->
     exists s : Sweep Q,
       sensitivity (form a h por ws fvf rf) r p = Ok s /\
       let b := value_of (variable (form a h por ws fvf rf) p) in
       evenly_spaced (sweep_values s) (b * sweep_low p) (b * sweep_high p)
                     100 /\
       spans (sweep_values s) (b * sweep_low p) (b * sweep_high p) /\
       ascending (sweep_values s)) /\
  (forall (a h : Z) (por ws fvf rf : float) (p : Param),
     widget_ints a h -> widget_floats por ws fvf rf ->
     exists (r : Results float) (s : Sweep float),
       calculate (form a h por ws fvf rf) = Ok r /\
       sensitivity (form a h por ws fvf rf) r p = Ok s /\
       let b := value_of (variable (form a h por ws fvf rf) p) in
       List.length (sweep_values s) = 100%nat /\
       ascendingb (sweep_values s) = true /\
       (exists x : float,
          nth_error (sweep_values s) 0 = Some x /\
          PrimFloat.eqb x (fmul b (sweep_low p)) = true) /\
       (exists y : float,
          nth_error (sweep_values s) 99 = Some y /\
          PrimFloat.eqb y (fmul b (sweep_high p)) = true)).
Proof.
  split; [| split].
  - intros F AF AS a h por ws fvf rf r p Hw Hr.
    exact (sweep_structure a h por ws fvf rf r p Hw Hr).
  - intros a h por ws fvf rf r p Hw Hp Hws Hf Hrf Hr.
    destruct (sweep_structure a h por ws fvf rf r p Hw Hr) as (s & Es & _).
    exists s. split; [exact Es |].
    exact (sweep_values_exact a h por ws fvf rf r p s Hw Hp Hws Hf Hrf Es).
  - exact sweep_ascending_binary64.
Qed.

Lemma sweep_generator_witness :
  (exists s : Sweep float,
     sensitivity reference reference_results OilFVF = Ok s /\
     sweep_values s
     = linspace (fmul 1.3%float (of_decimal 8 10))
                (fmul 1.3%float (of_decimal 12 10)) 100 /\
     List.length (sweep_values s) = 100%nat /\
     List.length (ooip_values s) = 100%nat /\
     List.length (recoverable_values s) = 100%nat /\
     forall (k : nat) (x : float),
       nth_error (sweep_values s) k = Some x ->
       exists r' : Results float,
         calculate (with_variable reference OilFVF (NpFloat x)) = Ok r' /\
         nth_error (ooip_values s) k = Some (ooip r') /\
         nth_error (recoverable_values s) k
         = Some (recoverable_reserves r')) /\
  (exists s : Sweep Q,
     sensitivity reference_exact reference_exact_results OilFVF = Ok s /\
     evenly_spaced (sweep_values s) ((13 # 10) * (8 # 10))
                   ((13 # 10) * (12 # 10)) 100 /\
     spans (sweep_values s) ((13 # 10) * (8 # 10)) ((13 # 10) * (12 # 10)) /\
     ascending (sweep_values s)) /\
  (widget_ints 1000 50 /\ widget_floats 20 25 1.3 30 /\
   exists (r : Results float) (s : Sweep float),
     calculate reference = Ok r /\
     sensitivity reference r OilFVF = Ok s /\
     List.length (sweep_values s) = 100%nat /\
     ascendingb (sweep_values s) = true /\
     (exists x : float,
        nth_error (sweep_values s) 0 = Some x /\
        PrimFloat.eqb x (fmul 1.3%float (of_decimal 8 10)) = true) /\
     (exists y : float,
        nth_error (sweep_values s) 99 = Some y /\
        PrimFloat.eqb y (fmul 1.3%float (of_decimal 12 10)) = true)).
Proof.
  destruct sweep_generator as (Hstructure & Hexact & Hbinary64).
  split; [| split].
  - apply (Hstructure float binary64 binary64_spec 1000%Z 50%Z 20%float
                      25%float 1.3%float 30%float reference_results OilFVF).
    + exact reference_widget_ints.
    + vm_compute. reflexivity.
  - apply (Hexact 1000%Z 50%Z 20%Q 25%Q (13 # 10)%Q 30%Q
                  reference_exact_results OilFVF).
    + exact reference_widget_ints.
    + vm_compute. discriminate.
    + vm_compute. discriminate.
    + vm_compute. discriminate.
    + vm_compute. discriminate.
    + vm_compute. reflexivity.
  - split; [exact reference_widget_ints |].
    split; [exact reference_widget_floats |].
    apply (Hbinary64 1000%Z 50%Z 20%float 25%float 1.3%float 30%float OilFVF).
    + exact reference_widget_ints.
    + exact reference_widget_floats.
Defined.

(** Against the claim as first stated: an oil FVF of 1.7e308 is positive
    and finite, but 1.2 times it is not; the sweep starts with a NaN
    followed by infinities, and is not in ascending order. *)
Lemma binary64_sweep_overflow :
  PrimFloat.ltb 0 1.7e308 = true /\
  PrimFloat.ltb 1.7e308 infinity = true /\
  fmap (fun s => (firstn 2 (sweep_values s), ascendingb (sweep_values s)))
       (bind (calculate (form 1000 50 20 25 1.7e308 30)%float)
             (fun r =>
                sensitivity (form 1000 50 20 25 1.7e308 30)%float r OilFVF))
  = Ok ([nan; infinity], false).
Proof. repeat split; vm_compute; reflexivity. Qed.
